(** * A fixed-capacity segregated block-pool allocator (pool_alloc.h / pool_alloc.c)

    Shallow embedding of [pool_init], [pool_malloc], [pool_free] and
    [qsort_cmp], followed by the properties of the specification.

    Modelling conventions.
    - C integers are [Z]; every narrowing conversion of the source
      (to [uint8_t], [uint16_t], [uint32_t], [int]) is written out.  Signed
      overflow in [qsort_cmp] wraps around.
    - The heap [g_pool_heap] is a byte-addressed memory, a function from
      byte offsets to byte values (all zero at program start, as C statics
      are).  Offsets outside [0, HEAP_SIZE) are outside the C array, where
      an access is undefined behaviour in C; every block that [pool_init]
      lays out lies inside the array (lemma [block_in_heap]).
    - The packed 3-byte [metadata] header is laid out as two bytes of
      [next_freelist_offset] (least significant byte first) followed by one
      byte of [partition_number].
    - A pointer is a base (null or the heap array) plus a byte offset; a
      load through a pointer that is not based on the heap reads 0 and a
      store through it is dropped.
    - The two static arrays are lists of length [MAX_BLOCK_SIZE_COUNT];
      an index past the end reads 0 and a write there is dropped.
    - The state is threaded explicitly: every operation takes the five
      statics and returns them. *)

From Stdlib Require Import ZArith List Lia Bool Permutation Sorted.
Import ListNotations.
Local Open Scope Z_scope.

(** ** Compile-time parameters *)

Definition HEAP_SIZE : Z := 65536.
Definition MAX_BLOCK_SIZE_COUNT : Z := 255.
Definition METADATA_LENGTH : Z := 3.
Definition UINT16_MAX : Z := 65535.

(** ** Integer conversions *)

Definition to_u8 (x : Z) : Z := x mod 256.
Definition to_u16 (x : Z) : Z := x mod 65536.
Definition to_u32 (x : Z) : Z := x mod 4294967296.

(** Value of the 32-bit two's complement [int] with the bits of [x]. *)
Definition to_int (x : Z) : Z :=
  let y := x mod 4294967296 in
  if y <? 2147483648 then y else y - 4294967296.

(** ** Pointers *)

Inductive base : Type := NullBase | HeapBase.

Record ptr : Type := mkptr { p_base : base; p_ofs : Z }.

Definition NULL : ptr := mkptr NullBase 0.

(** [heap_ptr off] is the address [g_pool_heap + off]. *)
Definition heap_ptr (off : Z) : ptr := mkptr HeapBase off.

Definition ptr_add (p : ptr) (k : Z) : ptr := mkptr (p_base p) (p_ofs p + k).

Definition ptr_diff (p q : ptr) : Z := p_ofs p - p_ofs q.

(** ** Memory *)

Definition heap : Type := Z -> Z.

Definition upd (h : heap) (a v : Z) : heap :=
  fun x => if x =? a then v else h x.

Definition load8 (h : heap) (p : ptr) : Z :=
  match p_base p with
  | HeapBase => h (p_ofs p)
  | NullBase => 0
  end.

Definition store8 (h : heap) (p : ptr) (v : Z) : heap :=
  match p_base p with
  | HeapBase => upd h (p_ofs p) (to_u8 v)
  | NullBase => h
  end.

Definition load16 (h : heap) (p : ptr) : Z :=
  load8 h p + 256 * load8 h (ptr_add p 1).

Definition store16 (h : heap) (p : ptr) (v : Z) : heap :=
  store8 (store8 h p (to_u16 v)) (ptr_add p 1) (to_u16 v / 256).

(** Field accessors of [struct metadata] through a header pointer. *)
Definition get_next_freelist_offset (h : heap) (header : ptr) : Z :=
  load16 h header.

Definition set_next_freelist_offset (h : heap) (header : ptr) (v : Z) : heap :=
  store16 h header v.

Definition get_partition_number (h : heap) (header : ptr) : Z :=
  load8 h (ptr_add header 2).

Definition set_partition_number (h : heap) (header : ptr) (v : Z) : heap :=
  store8 h (ptr_add header 2) v.

(** ** Arrays *)

Fixpoint list_set (l : list Z) (i : nat) (v : Z) : list Z :=
  match l, i with
  | [], _ => []
  | _ :: t, O => v :: t
  | x :: t, S i' => x :: list_set t i' v
  end.

Definition aget (a : list Z) (i : Z) : Z := nth (Z.to_nat i) a 0.

Definition aset (a : list Z) (i : Z) (v : Z) : list Z :=
  list_set a (Z.to_nat i) v.

(** ** Allocator state: the five statics of pool_alloc.c *)

Record state : Type := mkState {
  g_pool_heap : heap;
  freelist_head_arr : list Z;
  sorted_block_size_arr : list Z;
  block_size_count_var : Z;
  g_pool_heap_start : ptr
}.

Definition zero_state : state :=
  mkState (fun _ => 0)
          (repeat 0 (Z.to_nat MAX_BLOCK_SIZE_COUNT))
          (repeat 0 (Z.to_nat MAX_BLOCK_SIZE_COUNT))
          0
          NULL.

Definition with_heap (s : state) (h : heap) : state :=
  mkState h (freelist_head_arr s) (sorted_block_size_arr s)
          (block_size_count_var s) (g_pool_heap_start s).

Definition with_heads (s : state) (a : list Z) : state :=
  mkState (g_pool_heap s) a (sorted_block_size_arr s)
          (block_size_count_var s) (g_pool_heap_start s).

Definition with_sizes (s : state) (a : list Z) : state :=
  mkState (g_pool_heap s) (freelist_head_arr s) a
          (block_size_count_var s) (g_pool_heap_start s).

(** ** qsort and its comparator

    [qsort_cmp] reads both [size_t] elements through [int*]: the low 32 bits
    taken as a signed value (the least significant bytes come first), and
    subtracts them as [int]s. *)

Definition qsort_cmp (a b : Z) : Z := to_int (to_int b - to_int a).

(** The C library's [qsort] is not part of the repository; it is modelled
    by a comparison sort that consults only the sign of the comparator. *)
Fixpoint qsort_insert (cmp : Z -> Z -> Z) (x : Z) (l : list Z) : list Z :=
  match l with
  | [] => [x]
  | y :: t => if cmp x y <=? 0 then x :: y :: t
              else y :: qsort_insert cmp x t
  end.

Fixpoint qsort (cmp : Z -> Z -> Z) (l : list Z) : list Z :=
  match l with
  | [] => []
  | x :: t => qsort_insert cmp x (qsort cmp t)
  end.

(** [qsort(arr, count, sizeof(size_t), cmp)]: the first [count] elements
    are sorted in place. *)
Definition qsort_arr (arr : list Z) (count : Z) (cmp : Z -> Z -> Z) : list Z :=
  qsort cmp (firstn (Z.to_nat count) arr) ++ skipn (Z.to_nat count) arr.

(** ** pool_init *)

(** [for (j = 0; j < block_size_count; ++j) sorted[j] = block_sizes[j];]
    with [k] iterations left. *)
Fixpoint copy_sizes (k : nat) (j : Z) (block_sizes dst : list Z) : list Z :=
  match k with
  | O => dst
  | S k' => copy_sizes k' (j + 1) block_sizes (aset dst j (aget block_sizes j))
  end.

(** The inner loop that threads one partition (lines 149-162). *)
Fixpoint write_headers (fuel : nat) (h : heap) (start : ptr)
         (idx upper_bound_offset block_size i : Z) : heap :=
  match fuel with
  | O => h
  | S fuel' =>
    if to_u32 idx <? upper_bound_offset then
      let ptr_next := to_u32 (idx + block_size + 2 * METADATA_LENGTH) in
      let header := ptr_add start idx in
      let h1 :=
        if (ptr_next <? upper_bound_offset) && (ptr_next <=? UINT16_MAX)
        then set_next_freelist_offset h header ptr_next
        else set_next_freelist_offset h header 0 in
      let h2 := set_partition_number h1 header i in
      write_headers fuel' h2 start
                    (to_int (idx + (block_size + METADATA_LENGTH)))
                    upper_bound_offset block_size i
    else h
  end.

(** The partition size computed at lines 135-136 (the initial value given
    to [partition_size] at its declaration is never read). *)
Definition partition_size_of (block_size remaining_heap_size block_size_count i : Z)
  : Z :=
  to_u32 (Z.max (block_size + METADATA_LENGTH)
                ((remaining_heap_size / (block_size_count - i))
                 - ((remaining_heap_size / (block_size_count - i))
                      mod (block_size + METADATA_LENGTH)))).

(** The outer loop (lines 125-165) with [k] iterations left. *)
Fixpoint init_loop (k : nat) (block_size_count i remaining_heap_size
                    partition_start_offset : Z) (s : state) : bool * state :=
  match k with
  | O => (true, s)
  | S k' =>
    let block_size := aget (sorted_block_size_arr s) i in
    if (block_size =? 0) || (HEAP_SIZE - METADATA_LENGTH <? block_size)
    then (false, s)
    else
      let partition_size :=
        partition_size_of block_size remaining_heap_size block_size_count i in
      if partition_size >? remaining_heap_size then (false, s)
      else
        let s1 := with_heads s
                    (aset (freelist_head_arr s) i
                          (to_u16 (partition_start_offset + METADATA_LENGTH))) in
        let upper_bound_offset := to_u32 (partition_start_offset + partition_size) in
        let h := write_headers (Z.to_nat partition_size) (g_pool_heap s1)
                               (g_pool_heap_start s1)
                               (to_int partition_start_offset)
                               upper_bound_offset block_size i in
        init_loop k' block_size_count (i + 1)
                  (to_u32 (HEAP_SIZE - upper_bound_offset))
                  upper_bound_offset (with_heap s1 h)
  end.

(** [block_sizes = None] is the null pointer; [Some l] is an array holding
    the elements of [l]. *)
Definition pool_init (s : state) (block_sizes : option (list Z))
           (block_size_count : Z) : bool * state :=
  match block_sizes with
  | None => (false, s)
  | Some sizes =>
    if (block_size_count =? 0) || (block_size_count >? MAX_BLOCK_SIZE_COUNT)
    then (false, s)
    else
      let k := Z.to_nat block_size_count in
      let s1 := mkState (g_pool_heap s) (freelist_head_arr s)
                        (sorted_block_size_arr s)
                        block_size_count (heap_ptr 0) in
      let s2 := with_sizes s1 (copy_sizes k 0 sizes (sorted_block_size_arr s1)) in
      let s3 := with_sizes s2 (qsort_arr (sorted_block_size_arr s2)
                                         block_size_count qsort_cmp) in
      init_loop k block_size_count 0 HEAP_SIZE 0 s3
  end.

(** ** pool_malloc *)

(** The downward scan [for (i = count - 1; i >= 0; --i)] over [k] classes. *)
Fixpoint find_partition (k : nat) (heads sizes : list Z) (n : Z) : option Z :=
  match k with
  | O => None
  | S k' =>
    let i := Z.of_nat k' in
    if negb (aget heads i =? 0) && (aget sizes i >=? n)
    then Some i
    else find_partition k' heads sizes n
  end.

Definition pool_malloc (s : state) (n : Z) : ptr * state :=
  if (n =? 0) || (n >? aget (sorted_block_size_arr s) 0) then (NULL, s)
  else
    match find_partition (Z.to_nat (to_int (block_size_count_var s)))
                         (freelist_head_arr s) (sorted_block_size_arr s) n with
    | None => (NULL, s)
    | Some i =>
      let partition_num := to_u8 i in
      let freelist_head := aget (freelist_head_arr s) partition_num in
      let header := ptr_add (ptr_add (g_pool_heap_start s) freelist_head)
                            (- METADATA_LENGTH) in
      (ptr_add (g_pool_heap_start s) freelist_head,
       with_heads s (aset (freelist_head_arr s) partition_num
                          (get_next_freelist_offset (g_pool_heap s) header)))
    end.

(** ** pool_free *)

Definition pool_free (s : state) (p : ptr) : state :=
  let header := ptr_add p (- METADATA_LENGTH) in
  let partition_num := get_partition_number (g_pool_heap s) header in
  let h := set_next_freelist_offset (g_pool_heap s) header
             (aget (freelist_head_arr s) partition_num) in
  with_heads (with_heap s h)
             (aset (freelist_head_arr s) partition_num
                   (to_u16 (ptr_diff p (g_pool_heap_start s)))).

(** [k] successive calls [pool_malloc(n)], collecting the returned pointers. *)
Fixpoint malloc_n (k : nat) (s : state) (n : Z) : list ptr * state :=
  match k with
  | O => ([], s)
  | S k' =>
    let (p, s1) := pool_malloc s n in
    let (l, s2) := malloc_n k' s1 n in
    (p :: l, s2)
  end.

(** * Definitions used to state the properties *)

(** ** Two-byte reads and writes at a heap offset *)

Definition rd16 (h : heap) (a : Z) : Z := h a + 256 * h (a + 1).

Definition wr16 (h : heap) (a v : Z) : heap :=
  upd (upd h a (to_u8 (to_u16 v))) (a + 1) (to_u8 (to_u16 v / 256)).

(** ** Sorted size arrays *)

(** Non-increasing lists. *)
Definition desc (l : list Z) : Prop := StronglySorted (fun a b => b <= a) l.

(** Values that the comparator reads back unchanged through [int*]. *)
Definition int_range (x : Z) : Prop := 0 <= x < 2147483648.

(** Descending sort with the true order on the sort keys, the reference
    against which the sort of [pool_init] is compared. *)
Definition sort_desc (l : list Z) : list Z := qsort (fun a b => b - a) l.

(** Values of type [size_t]. *)
Definition size_t (x : Z) : Prop := 0 <= x < 18446744073709551616.

(** A size accepted by [pool_init]. *)
Definition valid_size (s : Z) : Prop := 1 <= s <= HEAP_SIZE - 3.

(** The classes of an initialisation request: the first [count] sizes,
    largest first. *)
Definition classes_of (sizes : list Z) (count : Z) : list Z :=
  sort_desc (firstn (Z.to_nat count) sizes).

(** ** Free lists and partition geometry *)

(** [chain h off l]: starting from the payload offset [off] and following
    the [next_freelist_offset] stored three bytes before each payload, one
    visits exactly the payload offsets [l] and then reaches 0.  This is the
    sequence of blocks that successive pops of [pool_malloc] would return. *)
Inductive chain (h : heap) : Z -> list Z -> Prop :=
| chain_nil : chain h 0 []
| chain_cons off l :
    off <> 0 ->
    chain h (rd16 h (off - METADATA_LENGTH)) l ->
    chain h off (off :: l).

(** A partition: where it starts, the block size of its class and the
    number of bytes it occupies. *)
Record partition : Type := mkPart {
  pt_start : Z;
  pt_bsize : Z;
  pt_psize : Z
}.

(** Payload offsets of [m] blocks of stride [T] laid out from [idx]. *)
Fixpoint blocks_from (idx T : Z) (m : nat) : list Z :=
  match m with
  | O => []
  | S m' => (idx + METADATA_LENGTH) :: blocks_from (idx + T) T m'
  end.

(** Header plus payload. *)
Definition stride (pt : partition) : Z := pt_bsize pt + METADATA_LENGTH.

Definition block_count (pt : partition) : nat :=
  Z.to_nat (pt_psize pt / stride pt).

(** Payload offsets of the blocks of a partition, in address order. *)
Definition blocks_of (pt : partition) : list Z :=
  blocks_from (pt_start pt) (stride pt) (block_count pt).

(** A partition lies inside the heap, its class size is acceptable and it
    consists of a whole number, at least one, of blocks. *)
Definition part_ok (pt : partition) : Prop :=
  0 <= pt_start pt /\
  pt_start pt + pt_psize pt <= HEAP_SIZE /\
  valid_size (pt_bsize pt) /\
  1 <= pt_psize pt / stride pt /\
  pt_psize pt = pt_psize pt / stride pt * stride pt.

(** [pa] ends before [pb] starts. *)
Definition before (pa pb : partition) : Prop :=
  pt_start pa + pt_psize pa <= pt_start pb.

(** ** The layout rule of the specification (section 4.3) *)

(** Partition bytes [P = max(T, E - (E mod T))] for a class of size [s]
    when [remaining] bytes are left for [left] classes. *)
Definition spec_partition_bytes (s remaining left : Z) : Z :=
  let E := remaining / left in
  let T := s + 3 in
  Z.max T (E - (E mod T)).

(** Walk the classes in order, tracking the remaining bytes and the cursor;
    [None] when a partition does not fit. *)
Fixpoint spec_layout (classes : list Z) (remaining cursor : Z)
  : option (list partition) :=
  match classes with
  | [] => Some []
  | s :: rest =>
    let P := spec_partition_bytes s remaining (Z.of_nat (length classes)) in
    if P >? remaining then None
    else
      match spec_layout rest (HEAP_SIZE - (cursor + P)) (cursor + P) with
      | Some L => Some (mkPart cursor s P :: L)
      | None => None
      end
  end.

(** Bytes consumed by the partitions before class [i]: the cursor at which
    class [i] is placed. *)
Definition bytes_before (L : list partition) (i : nat) : Z :=
  fold_right (fun pt acc => pt_psize pt + acc) 0 (firstn i L).

(** What one successfully placed class looks like in the heap. *)
Definition class_ok (h : heap) (heads : list Z) (i : nat) (pt : partition)
  : Prop :=
  aget heads (Z.of_nat i) = pt_start pt + 3 /\
  chain h (pt_start pt + 3) (blocks_of pt) /\
  (forall p, In p (blocks_of pt) -> h (p - 1) = Z.of_nat i).

(** ** Well-formed states

    The shape every state of the program has: the two static arrays have
    their declared length and the class count is at most
    [MAX_BLOCK_SIZE_COUNT], and [g_pool_heap_start] is null or the heap
    array.  It holds at program start and is preserved by
    every call of the three operations, whatever their arguments. *)

Definition wf_state (s : state) : Prop :=
  length (freelist_head_arr s) = 255%nat /\
  length (sorted_block_size_arr s) = 255%nat /\
  0 <= block_size_count_var s <= 255 /\
  (g_pool_heap_start s = NULL \/ g_pool_heap_start s = heap_ptr 0).

(** ** Class selection and the allocator invariant *)

(** The class [pool_malloc(n)] serves the request from, if any. *)
Definition malloc_class (s : state) (n : Z) : option Z :=
  if (n =? 0) || (n >? aget (sorted_block_size_arr s) 0) then None
  else find_partition (Z.to_nat (to_int (block_size_count_var s)))
                      (freelist_head_arr s) (sorted_block_size_arr s) n.

(** Pointers in the hands of callers, each with the class it was popped
    from (ghost state: the program keeps no such record). *)
Definition held_list : Type := list (nat * Z).

(** Payload offsets held from class [i]. *)
Definition held_of (i : nat) (held : held_list) : list Z :=
  map snd (filter (fun e => Nat.eqb (fst e) i) held).

(** The caller gives up the pointer with payload offset [p]. *)
Definition release (p : Z) (held : held_list) : held_list :=
  filter (fun e => negb (snd e =? p)) held.

(** Static facts about a layout. *)
Record layout_ok (L : list partition) : Prop := {
  lo_len : (1 <= length L <= 255)%nat;
  lo_parts : Forall part_ok L;
  lo_sorted : StronglySorted before L;
  lo_desc : desc (map pt_bsize L)
}.

(** The invariant of an initialised allocator with layout [L]: the class
    table agrees with [L]; for each class the free list, followed from its
    head, together with the held pointers of the class is a permutation of
    the blocks of its partition; every block header carries the index of
    its class. *)
Record inv (L : list partition) (s : state) (held : held_list) : Prop := {
  inv_count : block_size_count_var s = Z.of_nat (length L);
  inv_base : g_pool_heap_start s = heap_ptr 0;
  inv_wf : wf_state s;
  inv_sizes : forall i pt, nth_error L i = Some pt ->
      aget (sorted_block_size_arr s) (Z.of_nat i) = pt_bsize pt;
  inv_chain : forall i pt, nth_error L i = Some pt ->
      exists l, chain (g_pool_heap s) (aget (freelist_head_arr s) (Z.of_nat i)) l /\
                Permutation (l ++ held_of i held) (blocks_of pt);
  inv_tag : forall i pt p, nth_error L i = Some pt -> In p (blocks_of pt) ->
      g_pool_heap s (p - 1) = Z.of_nat i;
  inv_held : forall i p, In (i, p) held -> (i < length L)%nat
}.

(** The caller writes byte [v] at offset [k] of the payload at [p]. *)
Definition caller_store (s : state) (p k v : Z) : state :=
  with_heap s (upd (g_pool_heap s) (p + k) (to_u8 v)).

(** ** Runs of the allocator

    [reach L s0 s held]: [s0] is the state left by a successful [pool_init]
    whose layout is [L]; [s] is reached from it by calls of [pool_malloc],
    calls of [pool_free] on pointers that were allocated and not yet freed,
    and stores by callers into payloads they hold; [held] lists the
    pointers currently held, each with the class it was popped from. *)

Inductive reach (L : list partition) (s0 : state) : state -> held_list -> Prop :=
| reach_init pre sizes count :
    wf_state pre -> 0 <= count ->
    (Z.to_nat count <= length sizes)%nat -> Forall size_t sizes ->
    pool_init pre (Some sizes) count = (true, s0) ->
    spec_layout (classes_of sizes count) HEAP_SIZE 0 = Some L ->
    reach L s0 s0 []
| reach_malloc s held n i :
    reach L s0 s held -> malloc_class s n = Some i ->
    reach L s0 (snd (pool_malloc s n))
          ((Z.to_nat i, p_ofs (fst (pool_malloc s n))) :: held)
| reach_malloc_null s held n :
    reach L s0 s held -> malloc_class s n = None ->
    reach L s0 (snd (pool_malloc s n)) held
| reach_free s held i p :
    reach L s0 s held -> In (i, p) held ->
    reach L s0 (pool_free s (heap_ptr p)) (release p held)
| reach_store s held i p pt k v :
    reach L s0 s held -> In (i, p) held ->
    nth_error L i = Some pt -> 0 <= k < pt_bsize pt ->
    reach L s0 (caller_store s p k v) held.

(** What conservation means for class [i] with partition [pt]: the free
    list written by [pool_init] is exactly the list of blocks of the
    partition, which are pairwise distinct; the free list of the current
    state together with the held pointers of the class is a permutation of
    them; and no block of another class is on the list. *)
Definition conserved (L : list partition) (s0 s : state) (held : held_list)
           (i : nat) (pt : partition) : Prop :=
  chain (g_pool_heap s0) (aget (freelist_head_arr s0) (Z.of_nat i))
        (blocks_of pt) /\
  NoDup (blocks_of pt) /\
  exists l,
    chain (g_pool_heap s) (aget (freelist_head_arr s) (Z.of_nat i)) l /\
    Permutation (l ++ held_of i held) (blocks_of pt) /\
    NoDup (l ++ held_of i held) /\
    forall j ptj p, nth_error L j = Some ptj -> j <> i ->
                    In p l -> ~ In p (blocks_of ptj).

(** ** Exhaustion and failed initialisation *)

(** Number of blocks laid out for the classes whose block size is at least
    [n]: the classes a request of [n] bytes can be served from. *)
Definition fit_count (L : list partition) (n : Z) : nat :=
  fold_right (fun pt acc =>
                ((if (n <=? pt_bsize pt)%Z then block_count pt else 0) + acc)%nat)
             0%nat L.

(** Free blocks a request of [n] bytes can still be served from, when the
    classes of [L] are numbered from [i]. *)
Fixpoint avail_from (L : list partition) (i : nat) (held : held_list) (n : Z)
  : nat :=
  match L with
  | [] => 0%nat
  | pt :: L' =>
    ((if (n <=? pt_bsize pt)%Z
      then block_count pt - length (held_of i held) else 0)
     + avail_from L' (S i) held n)%nat
  end.



(** ** Concrete pools used as examples *)

(** [pool_init] on a fresh program with all the sizes of an array. *)
Definition run_init (sizes : list Z) : bool * state :=
  pool_init zero_state (Some sizes) (Z.of_nat (length sizes)).

(** The sizes [1, 2, ..., n]. *)
Definition sizes_1_to (n : nat) : list Z := map Z.of_nat (seq 1 n).

(** The calls of the test [malloc_multiple_then_free]: the pointers
    [(m1, m3, m5)] that are freed and the pointers [(m6, m7, m8)] returned
    afterwards. *)
Definition multiple_then_free : (ptr * ptr * ptr) * (ptr * ptr * ptr) :=
  let s0 := snd (run_init [50; 3; 24; 8]) in
  let (m1, s1) := pool_malloc s0 24 in
  let (_, s2) := pool_malloc s1 6 in
  let (m3, s3) := pool_malloc s2 2 in
  let (_, s4) := pool_malloc s3 20 in
  let (m5, s5) := pool_malloc s4 25 in
  let s6 := pool_free (pool_free (pool_free s5 m1) m3) m5 in
  let (m7, s7) := pool_malloc s6 2 in
  let (m6, s8) := pool_malloc s7 24 in
  let (m8, _) := pool_malloc s8 25 in
  ((m1, m3, m5), (m6, m7, m8)).

Definition uneven_sizes : list Z := [53360; 1].

Definition uneven_layout : list partition :=
  [mkPart 0 53360 53363; mkPart 53363 1 12172].

(** The scenario of the test [malloc_test_uneven]. *)
Definition uneven_state : state :=
  snd (pool_init zero_state (Some uneven_sizes) 2).

(** The scenario of the test [malloc_all_available]. *)
Definition single_state : state :=
  snd (pool_init zero_state (Some [1]) 1).

(** A pool of two classes with one block each. *)
Definition two_sizes : list Z := [30000; 20000].

Definition two_layout : list partition :=
  [mkPart 0 30000 30003; mkPart 30003 20000 20003].

Definition two_state : state :=
  snd (pool_init zero_state (Some two_sizes) 2).

(** The state after one [pool_malloc(20000)], and the pointer it returned. *)
Definition two_held_state : state := snd (pool_malloc two_state 20000).

Definition two_held : held_list := [(1%nat, 30006)].

Definition five_sizes : list Z := [34; 12; 23; 4; 105].

Definition five_state : state :=
  snd (pool_init zero_state (Some five_sizes) 5).

(** Offsets of all the pointers in the hands of callers. *)
Definition held_offsets (held : held_list) : list Z := map snd held.

(** * Basic facts *)

(** ** Integer conversions are the identity on values that fit *)

Lemma to_u8_small x : 0 <= x < 256 -> to_u8 x = x.
Proof. intros H. unfold to_u8. apply Z.mod_small. exact H. Qed.

Lemma to_u16_small x : 0 <= x < 65536 -> to_u16 x = x.
Proof. intros H. unfold to_u16. apply Z.mod_small. exact H. Qed.

Lemma to_u32_small x : 0 <= x < 4294967296 -> to_u32 x = x.
Proof. intros H. unfold to_u32. apply Z.mod_small. exact H. Qed.

Lemma to_int_small x : 0 <= x < 2147483648 -> to_int x = x.
Proof.
  intros H. unfold to_int.
  rewrite Z.mod_small by lia.
  destruct (x <? 2147483648) eqn:E; [reflexivity | apply Z.ltb_ge in E; lia].
Qed.

Lemma to_int_signed x : -2147483648 <= x < 0 -> to_int x = x.
Proof.
  intros H. unfold to_int.
  replace (x mod 4294967296) with (x + 4294967296).
  - destruct (x + 4294967296 <? 2147483648) eqn:E;
      [apply Z.ltb_lt in E; lia | lia].
  - apply (Z.mod_unique _ _ (-1)); lia.
Qed.

(** ** Byte memory *)

Lemma upd_same h a v : upd h a v a = v.
Proof. unfold upd. rewrite Z.eqb_refl. reflexivity. Qed.

Lemma upd_other h a v x : x <> a -> upd h a v x = h x.
Proof. intros H. unfold upd. apply Z.eqb_neq in H. rewrite H. reflexivity. Qed.

Lemma load16_heap h a : load16 h (heap_ptr a) = rd16 h a.
Proof. reflexivity. Qed.

Lemma store16_heap h a v : store16 h (heap_ptr a) v = wr16 h a v.
Proof. reflexivity. Qed.

Lemma wr16_other h a v x : x <> a -> x <> a + 1 -> wr16 h a v x = h x.
Proof.
  intros H1 H2. unfold wr16. rewrite !upd_other by assumption. reflexivity.
Qed.

Lemma rd16_wr16_same h a v : 0 <= v < 65536 -> rd16 (wr16 h a v) a = v.
Proof.
  intros H. unfold rd16, wr16.
  rewrite upd_other by lia. rewrite !upd_same.
  rewrite (to_u16_small v) by exact H.
  unfold to_u8.
  rewrite (Z.mod_small (v / 256)).
  - pose proof (Z.div_mod v 256). lia.
  - split; [apply Z.div_pos; lia | apply Z.div_lt_upper_bound; lia].
Qed.

Lemma rd16_frame h h' a :
  h' a = h a -> h' (a + 1) = h (a + 1) -> rd16 h' a = rd16 h a.
Proof. intros H1 H2. unfold rd16. rewrite H1, H2. reflexivity. Qed.

(** ** Arrays *)

Lemma length_list_set l i v : length (list_set l i v) = length l.
Proof.
  revert i. induction l as [|x t IH]; intros [|i]; simpl; auto.
Qed.

Lemma nth_list_set_same l i v :
  (i < length l)%nat -> nth i (list_set l i v) 0 = v.
Proof.
  revert i. induction l as [|x t IH]; intros [|i] H; simpl in *;
    try lia; auto.
  apply IH. lia.
Qed.

Lemma nth_list_set_other l i j v :
  i <> j -> nth j (list_set l i v) 0 = nth j l 0.
Proof.
  revert i j. induction l as [|x t IH]; intros [|i] [|j] H; simpl;
    try reflexivity; try congruence.
  apply IH. congruence.
Qed.

Lemma length_aset a i v : length (aset a i v) = length a.
Proof. apply length_list_set. Qed.

Lemma aget_aset_same a i v :
  0 <= i < Z.of_nat (length a) -> aget (aset a i v) i = v.
Proof.
  intros H. unfold aget, aset. apply nth_list_set_same. lia.
Qed.

Lemma aget_aset_other a i j v :
  0 <= i -> 0 <= j -> i <> j -> aget (aset a i v) j = aget a j.
Proof.
  intros Hi Hj H. unfold aget, aset. apply nth_list_set_other. lia.
Qed.

(** * Sorting *)

Lemma qsort_insert_perm cmp x l : Permutation (qsort_insert cmp x l) (x :: l).
Proof.
  induction l as [|y t IH]; simpl.
  - apply Permutation_refl.
  - destruct (cmp x y <=? 0).
    + apply Permutation_refl.
    + eapply perm_trans; [apply perm_skip, IH | apply perm_swap].
Qed.

Lemma qsort_perm cmp l : Permutation (qsort cmp l) l.
Proof.
  induction l as [|x t IH]; simpl.
  - apply perm_nil.
  - eapply perm_trans; [apply qsort_insert_perm | apply perm_skip, IH].
Qed.

Lemma qsort_length cmp l : length (qsort cmp l) = length l.
Proof. apply Permutation_length, qsort_perm. Qed.

Lemma qsort_cmp_sign a b :
  int_range a -> int_range b -> (qsort_cmp a b <=? 0) = (b - a <=? 0).
Proof.
  unfold int_range, qsort_cmp. intros Ha Hb.
  rewrite (to_int_small a), (to_int_small b) by assumption.
  destruct (Z_lt_le_dec (b - a) 0).
  - rewrite to_int_signed by lia. reflexivity.
  - rewrite to_int_small by lia. reflexivity.
Qed.

Lemma qsort_insert_ext cmp1 cmp2 x l :
  Forall (fun y => (cmp1 x y <=? 0) = (cmp2 x y <=? 0)) l ->
  qsort_insert cmp1 x l = qsort_insert cmp2 x l.
Proof.
  induction 1 as [|y t Hy Ht IH]; simpl.
  - reflexivity.
  - rewrite Hy, IH. reflexivity.
Qed.

Lemma qsort_int_range l :
  Forall int_range l -> qsort qsort_cmp l = sort_desc l.
Proof.
  unfold sort_desc.
  induction 1 as [|x t Hx Ht IH]; simpl.
  - reflexivity.
  - rewrite IH. apply qsort_insert_ext.
    assert (Hr : Forall int_range (qsort (fun a b => b - a) t)).
    { eapply Permutation_Forall; [ | exact Ht].
      apply Permutation_sym, qsort_perm. }
    eapply Forall_impl; [ | exact Hr].
    intros y Hy. simpl. apply qsort_cmp_sign; assumption.
Qed.

Lemma sort_insert_desc x l :
  desc l -> desc (qsort_insert (fun a b => b - a) x l).
Proof.
  unfold desc. induction 1 as [|y t Ht IH Hy]; simpl.
  - repeat constructor.
  - destruct (y - x <=? 0) eqn:E.
    + apply Z.leb_le in E. constructor.
      * constructor; assumption.
      * constructor; [lia | ].
        eapply Forall_impl; [ | exact Hy]. simpl. intros; lia.
    + apply Z.leb_gt in E. constructor; [exact IH | ].
      eapply Permutation_Forall;
        [apply Permutation_sym, qsort_insert_perm | ].
      constructor; [lia | exact Hy].
Qed.

Lemma sort_desc_desc l : desc (sort_desc l).
Proof.
  unfold sort_desc. induction l as [|x t IH]; simpl.
  - constructor.
  - apply sort_insert_desc. exact IH.
Qed.

Lemma sort_desc_perm l : Permutation (sort_desc l) l.
Proof. apply qsort_perm. Qed.

Lemma desc_nth l i j :
  desc l -> (i <= j)%nat -> (j < length l)%nat -> nth j l 0 <= nth i l 0.
Proof.
  unfold desc. intros H. revert i j.
  induction H as [|x t Ht IH Hx]; intros i j Hij Hj; simpl in *.
  - lia.
  - destruct i as [|i], j as [|j]; try lia.
    + rewrite Forall_forall in Hx. apply Hx. apply nth_In. lia.
    + apply IH; lia.
Qed.

(** ** The copy loop *)

Lemma firstn_S_list_set l j v :
  (j < length l)%nat -> firstn (S j) (list_set l j v) = firstn j l ++ [v].
Proof.
  revert j. induction l as [|x t IH]; intros [|j] H; simpl in *; try lia.
  - reflexivity.
  - f_equal. apply IH. lia.
Qed.

Lemma firstn_S_skipn (l : list Z) j k :
  (j < length l)%nat ->
  firstn (S k) (skipn j l) = nth j l 0 :: firstn k (skipn (S j) l).
Proof.
  revert j. induction l as [|x t IH]; intros [|j] H; simpl in *; try lia.
  - reflexivity.
  - rewrite <- IH by lia. reflexivity.
Qed.

Lemma copy_sizes_firstn k : forall j src dst,
  (j + k <= length dst)%nat -> (j + k <= length src)%nat ->
  firstn (j + k) (copy_sizes k (Z.of_nat j) src dst)
  = firstn j dst ++ firstn k (skipn j src).
Proof.
  induction k as [|k IH]; intros j src dst Hd Hs; simpl.
  - rewrite Nat.add_0_r, app_nil_r. reflexivity.
  - replace (Z.of_nat j + 1) with (Z.of_nat (S j)) by lia.
    replace (j + S k)%nat with (S j + k)%nat by lia.
    rewrite IH by (rewrite ?length_aset; lia).
    unfold aset, aget. rewrite Nat2Z.id.
    rewrite firstn_S_list_set by lia.
    rewrite <- app_assoc. simpl.
    rewrite <- firstn_S_skipn by lia. reflexivity.
Qed.

Lemma copy_sizes_length k : forall j src dst,
  length (copy_sizes k j src dst) = length dst.
Proof.
  induction k as [|k IH]; intros j src dst; simpl.
  - reflexivity.
  - rewrite IH. apply length_aset.
Qed.

(** The sorted prefix of the size array after the copy and the sort. *)
Lemma sorted_prefix sizes dst count :
  (count <= length dst)%nat -> (count <= length sizes)%nat ->
  firstn count (qsort_arr (copy_sizes count 0 sizes dst) (Z.of_nat count) qsort_cmp)
  = qsort qsort_cmp (firstn count sizes).
Proof.
  intros Hd Hs. unfold qsort_arr. rewrite Nat2Z.id.
  pose proof (copy_sizes_firstn count 0 sizes dst Hd Hs) as H.
  simpl in H. rewrite H.
  rewrite firstn_app.
  rewrite qsort_length, length_firstn, Nat.min_l by lia.
  rewrite Nat.sub_diag. simpl. rewrite app_nil_r.
  apply firstn_all2. rewrite qsort_length, length_firstn. lia.
Qed.

(** * Free lists and partition geometry *)

Lemma chain_frame h h' off l :
  chain h off l ->
  (forall p, In p l -> h' (p - 3) = h (p - 3) /\ h' (p - 2) = h (p - 2)) ->
  chain h' off l.
Proof.
  induction 1 as [|off l Hoff Hc IH]; intros Hfr.
  - constructor.
  - constructor; [exact Hoff | ].
    destruct (Hfr off (or_introl eq_refl)) as [H1 H2].
    unfold METADATA_LENGTH in *.
    rewrite (rd16_frame h h').
    + apply IH. intros p Hp. apply Hfr. right. exact Hp.
    + exact H1.
    + replace (off - 3 + 1) with (off - 2) by lia. exact H2.
Qed.

Lemma chain_fun h off l1 :
  chain h off l1 -> forall l2, chain h off l2 -> l1 = l2.
Proof.
  induction 1 as [|off l Hoff Hc IH]; intros l2 H2; inversion H2; subst;
    try congruence.
  f_equal. apply IH. assumption.
Qed.

Lemma chain_head_zero h off l : chain h off l -> (off = 0 <-> l = []).
Proof.
  intros H. inversion H; subst; split; intros; congruence.
Qed.

Lemma blocks_from_length idx T m : length (blocks_from idx T m) = m.
Proof.
  revert idx. induction m as [|m IH]; intros idx; simpl; auto.
Qed.

Lemma blocks_from_In idx T m p :
  In p (blocks_from idx T m) <->
  exists k, 0 <= k < Z.of_nat m /\ p = idx + 3 + k * T.
Proof.
  revert idx. induction m as [|m IH]; intros idx; simpl.
  - split; [tauto | intros (k & Hk & _); lia].
  - rewrite IH. unfold METADATA_LENGTH. split.
    + intros [H | (k & Hk & Hp)].
      * exists 0. lia.
      * exists (k + 1). split; [lia | ]. rewrite Hp. ring.
    + intros (k & Hk & Hp).
      destruct (Z.eq_dec k 0) as [-> | Hne].
      * left. lia.
      * right. exists (k - 1). split; [lia | ]. rewrite Hp. ring.
Qed.

Lemma blocks_from_NoDup idx T m : 0 < T -> NoDup (blocks_from idx T m).
Proof.
  intros HT. revert idx. induction m as [|m IH]; intros idx; simpl.
  - constructor.
  - constructor; [ | apply IH].
    rewrite blocks_from_In. intros (k & Hk & Hp).
    unfold METADATA_LENGTH in Hp. nia.
Qed.

(** ** The layout rule of the specification (section 4.3) *)

Lemma spec_partition_bytes_multiple s remaining left :
  valid_size s -> 0 <= remaining -> 0 < left ->
  let P := spec_partition_bytes s remaining left in
  exists m, 1 <= m /\ P = m * (s + 3) /\ P / (s + 3) = m.
Proof.
  unfold valid_size, HEAP_SIZE, spec_partition_bytes. intros Hs Hr Hl. simpl.
  set (E := remaining / left). set (T := s + 3).
  assert (HE : 0 <= E) by (apply Z.div_pos; lia).
  assert (HT : 0 < T) by (unfold T; lia).
  pose proof (Z.div_mod E T ltac:(lia)) as Hdm.
  pose proof (Z.mod_pos_bound E T HT) as Hmb.
  assert (Hq : 0 <= E / T) by (apply Z.div_pos; lia).
  destruct (Z_lt_le_dec (E / T) 1) as [Hlt | Hge].
  - exists 1. assert (E / T = 0) by lia.
    assert (E - E mod T = 0) by nia.
    rewrite Z.max_l by lia. repeat split; try lia.
    apply Z.div_same. lia.
  - exists (E / T).
    assert (E - E mod T = E / T * T) by nia.
    rewrite Z.max_r by nia. repeat split; try lia.
    rewrite H. apply Z.div_mul. lia.
Qed.

(** ** The header-threading loop *)

Lemma write_headers_done fuel h start idx upper bs i :
  0 <= idx < 4294967296 -> upper <= idx ->
  write_headers fuel h start idx upper bs i = h.
Proof.
  intros Hi Hu. destruct fuel as [|fuel]; cbn [write_headers].
  - reflexivity.
  - rewrite to_u32_small by lia.
    destruct (idx <? upper) eqn:E; [apply Z.ltb_lt in E; lia | reflexivity].
Qed.

Lemma write_headers_step fuel h idx upper bs i :
  0 <= idx < upper -> upper <= 65536 -> 1 <= bs <= 65533 -> 0 <= i < 256 ->
  write_headers (S fuel) h (heap_ptr 0) idx upper bs i
  = write_headers fuel
      (upd (wr16 h idx (if idx + bs + 6 <? upper then idx + bs + 6 else 0))
           (idx + 2) i)
      (heap_ptr 0) (idx + (bs + 3)) upper bs i.
Proof.
  intros Hidx Hup Hbs Hi. cbn [write_headers].
  unfold METADATA_LENGTH, UINT16_MAX. change (2 * 3) with 6.
  rewrite (to_u32_small idx) by lia.
  rewrite (to_u32_small (idx + bs + 6)) by lia.
  rewrite (to_int_small (idx + (bs + 3))) by lia.
  destruct (idx <? upper) eqn:E; [ | apply Z.ltb_ge in E; lia].
  f_equal.
  unfold set_partition_number, set_next_freelist_offset, store8. simpl.
  rewrite (to_u8_small i) by lia.
  destruct (idx + bs + 6 <? upper) eqn:E1.
  - apply Z.ltb_lt in E1.
    destruct (idx + bs + 6 <=? 65535) eqn:E2; [ | apply Z.leb_gt in E2; lia].
    reflexivity.
  - reflexivity.
Qed.

Lemma write_headers_spec m : forall fuel h idx bs i,
  (m <= fuel)%nat -> 0 <= idx ->
  idx + Z.of_nat m * (bs + 3) <= 65536 ->
  1 <= bs <= 65533 -> 0 <= i < 256 ->
  let upper := idx + Z.of_nat m * (bs + 3) in
  let h' := write_headers fuel h (heap_ptr 0) idx upper bs i in
  (forall x, x < idx \/ upper <= x -> h' x = h x) /\
  chain h' (match m with O => 0 | S _ => idx + 3 end)
        (blocks_from idx (bs + 3) m) /\
  (forall p, In p (blocks_from idx (bs + 3) m) -> h' (p - 1) = i).
Proof.
  induction m as [|m IH]; intros fuel h idx bs i Hf Hidx Hup Hbs Hi upper h'.
  - subst h' upper. rewrite write_headers_done by lia.
    simpl. repeat split; auto using chain_nil; tauto.
  - destruct fuel as [|fuel]; [lia | ].
    assert (Hu : upper = (idx + (bs + 3)) + Z.of_nat m * (bs + 3))
      by (subst upper; lia).
    assert (Hlt : idx < upper) by nia.
    subst h'. rewrite write_headers_step by lia.
    set (v := if idx + bs + 6 <? upper then idx + bs + 6 else 0).
    set (h2 := upd (wr16 h idx v) (idx + 2) i).
    rewrite Hu.
    destruct (IH fuel h2 (idx + (bs + 3)) bs i) as (Hfr & Hch & Htag);
      try lia.
    rewrite <- Hu in *.
    set (h' := write_headers fuel h2 (heap_ptr 0) (idx + (bs + 3)) upper bs i)
      in *.
    assert (Hh2 : forall x, x <> idx -> x <> idx + 1 -> x <> idx + 2 ->
                            h2 x = h x).
    { intros x H0 H1 H2. unfold h2. rewrite upd_other by lia.
      apply wr16_other; lia. }
    assert (Hv : 0 <= v < 65536).
    { unfold v. destruct (idx + bs + 6 <? upper) eqn:E;
        [apply Z.ltb_lt in E | ]; lia. }
    assert (Hrd : rd16 h' idx = v).
    { rewrite (rd16_frame h2 h') by (apply Hfr; lia).
      unfold h2. unfold rd16. rewrite !upd_other by lia.
      apply rd16_wr16_same. exact Hv. }
    split; [ | split].
    + intros x Hx. rewrite Hfr by lia. apply Hh2; lia.
    + cbn [blocks_from]. unfold METADATA_LENGTH.
      constructor; [lia | ].
      unfold METADATA_LENGTH. replace (idx + 3 - 3) with idx by lia.
      rewrite Hrd.
      replace v with (match m with O => 0 | S _ => idx + (bs + 3) + 3 end);
        [exact Hch | ].
      unfold v. destruct m as [|m].
      * replace upper with (idx + (bs + 3)) by lia.
        destruct (idx + bs + 6 <? idx + (bs + 3)) eqn:E;
          [apply Z.ltb_lt in E; lia | reflexivity].
      * destruct (idx + bs + 6 <? upper) eqn:E;
          [lia | apply Z.ltb_ge in E; nia].
    + cbn [blocks_from]. unfold METADATA_LENGTH.
      intros p [Hp | Hp].
      * subst p. replace (idx + 3 - 1) with (idx + 2) by lia.
        rewrite Hfr by lia. unfold h2. apply upd_same.
      * apply Htag. exact Hp.
Qed.

(** The fuel given to the loop never runs out: any amount of at least the
    number of blocks gives the same heap. *)
Lemma write_headers_fuel m : forall fuel1 fuel2 h idx bs i,
  (m <= fuel1)%nat -> (m <= fuel2)%nat -> 0 <= idx ->
  idx + Z.of_nat m * (bs + 3) <= 65536 ->
  1 <= bs <= 65533 -> 0 <= i < 256 ->
  write_headers fuel1 h (heap_ptr 0) idx (idx + Z.of_nat m * (bs + 3)) bs i
  = write_headers fuel2 h (heap_ptr 0) idx (idx + Z.of_nat m * (bs + 3)) bs i.
Proof.
  induction m as [|m IH]; intros fuel1 fuel2 h idx bs i H1 H2 Hidx Hup Hbs Hi.
  - rewrite !write_headers_done by lia. reflexivity.
  - destruct fuel1 as [|fuel1]; [lia | ].
    destruct fuel2 as [|fuel2]; [lia | ].
    rewrite !write_headers_step by nia.
    replace (idx + Z.of_nat (S m) * (bs + 3))
      with ((idx + (bs + 3)) + Z.of_nat m * (bs + 3)) by lia.
    apply IH; lia.
Qed.

(** ** The partitioning loop *)

Lemma firstn_skipn_cons (l : list Z) i k c rest :
  firstn (S k) (skipn i l) = c :: rest ->
  nth i l 0 = c /\ firstn k (skipn (S i) l) = rest.
Proof.
  intros H. destruct (Nat.lt_ge_cases i (length l)) as [Hlt | Hge].
  - rewrite firstn_S_skipn in H by exact Hlt. inversion H. auto.
  - rewrite skipn_all2 in H by exact Hge. discriminate.
Qed.

Lemma init_loop_step k count i remaining start s c :
  aget (sorted_block_size_arr s) i = c -> valid_size c ->
  0 <= i -> 0 < count - i ->
  0 <= start -> remaining = 65536 - start -> start <= 65536 ->
  g_pool_heap_start s = heap_ptr 0 ->
  let P := spec_partition_bytes c remaining (count - i) in
  init_loop (S k) count i remaining start s =
  if P >? remaining then (false, s)
  else init_loop k count (i + 1) (65536 - (start + P)) (start + P)
         (with_heap
            (with_heads s (aset (freelist_head_arr s) i (start + 3)))
            (write_headers (Z.to_nat P) (g_pool_heap s) (heap_ptr 0)
                           start (start + P) c i)).
Proof.
  intros Hc Hv Hi Hcnt Hs Hr Hs' Hbase P.
  destruct (spec_partition_bytes_multiple c remaining (count - i))
    as (m & Hm & HP & _); try assumption; try lia.
  fold P in HP.
  unfold valid_size, HEAP_SIZE in Hv.
  cbn [init_loop]. rewrite Hc.
  unfold HEAP_SIZE, METADATA_LENGTH.
  destruct (c =? 0) eqn:E0; [apply Z.eqb_eq in E0; lia | ].
  destruct (65536 - 3 <? c) eqn:E1; [apply Z.ltb_lt in E1; lia | ].
  cbn [orb].
  assert (HPs : partition_size_of c remaining count i = P).
  { unfold partition_size_of, METADATA_LENGTH.
    fold (spec_partition_bytes c remaining (count - i)). fold P.
    apply to_u32_small. unfold P, spec_partition_bytes.
    assert (0 <= remaining / (count - i) <= remaining).
    { split; [apply Z.div_pos; lia | ].
      apply Z.div_le_upper_bound; nia. }
    pose proof (Z.mod_pos_bound (remaining / (count - i)) (c + 3)).
    lia. }
  rewrite HPs.
  destruct (P >? remaining) eqn:E2; [reflexivity | ].
  assert (HPr : P <= remaining) by lia.
  assert (HP4 : 4 <= P) by nia.
  rewrite (to_u16_small (start + 3)) by lia.
  rewrite (to_u32_small (start + P)) by lia.
  rewrite (to_u32_small (65536 - (start + P))) by lia.
  rewrite (to_int_small start) by lia.
  cbn [g_pool_heap_start g_pool_heap with_heads]. rewrite Hbase.
  reflexivity.
Qed.

Lemma init_loop_ok classes : forall i remaining start s L,
  firstn (length classes) (skipn i (sorted_block_size_arr s)) = classes ->
  Forall valid_size classes ->
  (i + length classes <= 255)%nat ->
  length (freelist_head_arr s) = 255%nat ->
  g_pool_heap_start s = heap_ptr 0 ->
  0 <= start -> remaining = 65536 - start -> start <= 65536 ->
  spec_layout classes remaining start = Some L ->
  exists s',
    init_loop (length classes) (Z.of_nat (i + length classes)) (Z.of_nat i)
              remaining start s = (true, s') /\
    sorted_block_size_arr s' = sorted_block_size_arr s /\
    block_size_count_var s' = block_size_count_var s /\
    g_pool_heap_start s' = g_pool_heap_start s /\
    length (freelist_head_arr s') = 255%nat /\
    (forall j, 0 <= j < Z.of_nat i ->
               aget (freelist_head_arr s') j = aget (freelist_head_arr s) j) /\
    (forall x, x < start -> g_pool_heap s' x = g_pool_heap s x) /\
    (forall m pt, nth_error L m = Some pt ->
                  class_ok (g_pool_heap s') (freelist_head_arr s') (i + m) pt).
Proof.
  induction classes as [|c rest IH];
    intros i remaining start s L Hcl Hval Hn Hlen Hbase Hs Hr Hs' Hlay.
  - simpl in Hlay. inversion Hlay; subst L. exists s. cbn [length init_loop].
    do 7 (split; [auto | ]).
    intros [|m] pt Hm; discriminate.
  - cbn [length] in *.
    apply firstn_skipn_cons in Hcl. destruct Hcl as [Hc Hrest].
    pose proof (Forall_inv Hval) as Hvc.
    pose proof (Forall_inv_tail Hval) as Hvr.
    set (count := Z.of_nat (i + S (length rest))).
    assert (Hleft : count - Z.of_nat i = Z.of_nat (S (length rest)))
      by (unfold count; lia).
    rewrite (init_loop_step _ count (Z.of_nat i) remaining start s c);
      try assumption; try lia;
      [ | unfold aget; rewrite Nat2Z.id; exact Hc].
    cbn [spec_layout length] in Hlay.
    rewrite Hleft.
    set (P := spec_partition_bytes c remaining (Z.of_nat (S (length rest))))
      in *.
    destruct (spec_partition_bytes_multiple c remaining
                (Z.of_nat (S (length rest))))
      as (m & Hm & HP & HPd); try assumption; try lia.
    fold P in HP, HPd.
    destruct (P >? remaining) eqn:E; [discriminate | ].
    unfold HEAP_SIZE in Hlay.
    destruct (spec_layout rest (65536 - (start + P)) (start + P))
      as [L'|] eqn:EL; [ | discriminate].
    inversion Hlay; subst L. clear Hlay.
    assert (HPr : P <= remaining) by lia.
    unfold valid_size, HEAP_SIZE in Hvc.
    (* the inner loop *)
    pose proof (write_headers_spec (Z.to_nat m) (Z.to_nat P) (g_pool_heap s)
                  start c (Z.of_nat i)) as Hwh.
    rewrite Z2Nat.id in Hwh by lia. rewrite <- HP in Hwh.
    destruct Hwh as (Hfr & Hch & Htag); try lia.
    set (h2 := write_headers (Z.to_nat P) (g_pool_heap s) (heap_ptr 0) start
                             (start + P) c (Z.of_nat i)) in *.
    set (s2 := with_heap
                 (with_heads s (aset (freelist_head_arr s) (Z.of_nat i)
                                     (start + 3))) h2).
    destruct (IH (S i) (65536 - (start + P)) (start + P) s2 L')
      as (s' & Hrun & Hsz & Hcnt & Hb & Hln & Hhd & Hhp & Hcls);
      try assumption; try lia.
    { cbn [s2 freelist_head_arr with_heap with_heads].
      rewrite length_aset. exact Hlen. }
    exists s'.
    replace (Z.of_nat i + 1) with (Z.of_nat (S i)) by lia.
    replace count with (Z.of_nat (S i + length rest)) by (unfold count; lia).
    split; [exact Hrun | ].
    cbn [s2 sorted_block_size_arr block_size_count_var g_pool_heap_start
            g_pool_heap freelist_head_arr with_heap with_heads] in *.
    do 4 (split; [assumption | ]). split; [ | split].
    + intros j Hj. rewrite Hhd by lia. apply aget_aset_other; lia.
    + intros x Hx. rewrite Hhp by lia. apply Hfr. lia.
    + assert (Hbc : block_count (mkPart start c P) = Z.to_nat m).
      { unfold block_count, stride. cbn [pt_psize pt_bsize].
        unfold METADATA_LENGTH. rewrite HPd. reflexivity. }
      assert (Hbl : blocks_of (mkPart start c P)
                    = blocks_from start (c + 3) (Z.to_nat m)).
      { unfold blocks_of. rewrite Hbc. reflexivity. }
      assert (Hin : forall p, In p (blocks_from start (c + 3) (Z.to_nat m)) ->
                              start + 3 <= p /\ p < start + P).
      { intros p Hp. apply blocks_from_In in Hp.
        destruct Hp as (k & Hk & ->). nia. }
      intros [|n] pt Hnth; cbn [nth_error] in Hnth.
      * inversion Hnth; subst pt. clear Hnth.
        rewrite Nat.add_0_r. unfold class_ok. cbn [pt_start].
        rewrite Hbl. split; [ | split].
        -- rewrite Hhd by lia. apply aget_aset_same. lia.
        -- destruct (Z.to_nat m) as [|m'] eqn:Em; [lia | ].
           eapply chain_frame; [exact Hch | ].
           intros p Hp. apply Hin in Hp. split; apply Hhp; lia.
        -- intros p Hp. rewrite Hhp by (apply Hin in Hp; lia).
           apply Htag. exact Hp.
      * replace (i + S n)%nat with (S i + n)%nat by lia.
        apply Hcls. exact Hnth.
Qed.

Lemma init_loop_true classes : forall i remaining start s,
  firstn (length classes) (skipn i (sorted_block_size_arr s)) = classes ->
  Forall (fun x => 0 <= x) classes ->
  (i + length classes <= 255)%nat ->
  g_pool_heap_start s = heap_ptr 0 ->
  0 <= start -> remaining = 65536 - start -> start <= 65536 ->
  fst (init_loop (length classes) (Z.of_nat (i + length classes)) (Z.of_nat i)
                 remaining start s) = true ->
  Forall valid_size classes /\
  exists L, spec_layout classes remaining start = Some L.
Proof.
  induction classes as [|c rest IH];
    intros i remaining start s Hcl Hpos Hn Hbase Hs Hr Hs' Hrun.
  - split; [constructor | exists []; reflexivity].
  - cbn [length] in *.
    apply firstn_skipn_cons in Hcl. destruct Hcl as [Hc Hrest].
    pose proof (Forall_inv Hpos) as Hc0. cbv beta in Hc0.
    pose proof (Forall_inv_tail Hpos) as Hpr.
    assert (Hget : aget (sorted_block_size_arr s) (Z.of_nat i) = c)
      by (unfold aget; rewrite Nat2Z.id; exact Hc).
    destruct (Z_le_gt_dec c 0) as [Hz | Hz];
      [ | destruct (Z_le_gt_dec c 65533) as [Hle | Hgt]].
    + exfalso. cbn [init_loop] in Hrun. rewrite Hget in Hrun.
      assert (Hc00 : c = 0) by lia. rewrite Hc00 in Hrun.
      cbn in Hrun. discriminate.
    + assert (Hvc : valid_size c) by (unfold valid_size, HEAP_SIZE; lia).
      set (count := Z.of_nat (i + S (length rest))) in *.
      assert (Hleft : count - Z.of_nat i = Z.of_nat (S (length rest)))
        by (unfold count; lia).
      rewrite (init_loop_step _ count (Z.of_nat i) remaining start s c)
        in Hrun; try assumption; try lia.
      rewrite Hleft in Hrun.
      cbn [spec_layout length].
      set (P := spec_partition_bytes c remaining (Z.of_nat (S (length rest))))
        in *.
      destruct (spec_partition_bytes_multiple c remaining
                  (Z.of_nat (S (length rest))))
        as (m & Hm & HP & HPd); try assumption; try lia.
      fold P in HP, HPd.
      destruct (P >? remaining) eqn:E; [discriminate | ].
      replace (Z.of_nat i + 1) with (Z.of_nat (S i)) in Hrun by lia.
      replace count with (Z.of_nat (S i + length rest)) in Hrun
        by (unfold count; lia).
      apply IH in Hrun; try assumption; try lia.
      destruct Hrun as (Hvr & L' & HL').
      split; [constructor; assumption | ].
      unfold HEAP_SIZE. rewrite HL'. eexists. reflexivity.
    + exfalso. cbn [init_loop] in Hrun. rewrite Hget in Hrun.
      unfold HEAP_SIZE, METADATA_LENGTH in Hrun.
      destruct (c =? 0); [discriminate | ].
      destruct (65536 - 3 <? c) eqn:E; [discriminate | ].
      apply Z.ltb_ge in E. lia.
Qed.

(** ** Geometry of a layout produced by the rule *)

Lemma spec_layout_facts classes : forall remaining cursor L,
  Forall valid_size classes ->
  0 <= cursor -> remaining = HEAP_SIZE - cursor -> cursor <= HEAP_SIZE ->
  spec_layout classes remaining cursor = Some L ->
  map pt_bsize L = classes /\
  Forall part_ok L /\
  Forall (fun pt => cursor <= pt_start pt) L /\
  StronglySorted before L.
Proof.
  induction classes as [|c rest IH];
    intros remaining cursor L Hval Hc Hr Hc' Hlay.
  - simpl in Hlay. inversion Hlay; subst L.
    repeat split; constructor.
  - cbn [spec_layout] in Hlay.
    pose proof (Forall_inv Hval) as Hvc.
    pose proof (Forall_inv_tail Hval) as Hvr.
    set (P := spec_partition_bytes c remaining (Z.of_nat (length (c :: rest))))
      in *.
    destruct (spec_partition_bytes_multiple c remaining
                (Z.of_nat (length (c :: rest))))
      as (m & Hm & HP & HPd); try assumption;
      try (cbn [length]; unfold HEAP_SIZE in *; lia).
    fold P in HP, HPd.
    destruct (P >? remaining) eqn:E; [discriminate | ].
    destruct (spec_layout rest (HEAP_SIZE - (cursor + P)) (cursor + P))
      as [L'|] eqn:EL; [ | discriminate].
    inversion Hlay; subst L. clear Hlay.
    unfold HEAP_SIZE in *.
    assert (HP4 : 4 <= P) by (unfold valid_size, HEAP_SIZE in Hvc; nia).
    destruct (IH (65536 - (cursor + P)) (cursor + P) L')
      as (Hb & Hok & Hge & Hss); try assumption; try lia.
    split; [cbn [map pt_bsize]; rewrite Hb; reflexivity | ].
    split; [ | split].
    + constructor; [ | exact Hok].
      unfold part_ok, stride, METADATA_LENGTH, HEAP_SIZE.
      cbn [pt_start pt_psize pt_bsize]. rewrite HPd.
      repeat split; try lia; apply Hvc.
    + constructor; [cbn [pt_start]; lia | ].
      eapply Forall_impl; [ | exact Hge]. simpl. intros; lia.
    + constructor; [exact Hss | ].
      eapply Forall_impl; [ | exact Hge].
      unfold before. cbn [pt_start pt_psize]. intros; lia.
Qed.

Lemma StronglySorted_nth_error (R : partition -> partition -> Prop) L :
  StronglySorted R L ->
  forall i j pa pb, (i < j)%nat ->
    nth_error L i = Some pa -> nth_error L j = Some pb -> R pa pb.
Proof.
  induction 1 as [|x t Ht IH Hx]; intros i j pa pb Hij Ha Hb.
  - destruct i; discriminate.
  - destruct j as [|j]; [lia | ]. cbn [nth_error] in Hb.
    destruct i as [|i]; cbn [nth_error] in Ha.
    + inversion Ha; subst pa. rewrite Forall_forall in Hx. apply Hx.
      eapply nth_error_In. exact Hb.
    + eapply IH; [ | exact Ha | exact Hb]. lia.
Qed.

Lemma blocks_of_bounds pt p :
  part_ok pt -> In p (blocks_of pt) ->
  pt_start pt + 3 <= p /\ p + pt_bsize pt <= pt_start pt + pt_psize pt.
Proof.
  unfold part_ok, blocks_of, block_count, valid_size, HEAP_SIZE.
  intros (Hs & He & Hv & Hm & HP) Hp.
  apply blocks_from_In in Hp. destruct Hp as (k & Hk & ->).
  rewrite Z2Nat.id in Hk by lia.
  unfold stride, METADATA_LENGTH in *. nia.
Qed.

Lemma blocks_of_NoDup pt : part_ok pt -> NoDup (blocks_of pt).
Proof.
  unfold part_ok, valid_size. intros (_ & _ & Hv & _).
  apply blocks_from_NoDup. unfold stride, METADATA_LENGTH. lia.
Qed.

Lemma blocks_of_length pt : length (blocks_of pt) = block_count pt.
Proof. apply blocks_from_length. Qed.

(** No two blocks overlap: the byte range of a block, header included,
    ends before the header of any other block begins. *)
Lemma blocks_separate L :
  Forall part_ok L -> StronglySorted before L ->
  forall i j pi pj p q,
    nth_error L i = Some pi -> nth_error L j = Some pj ->
    In p (blocks_of pi) -> In q (blocks_of pj) ->
    i <> j \/ p <> q ->
    p + pt_bsize pi + 3 <= q \/ q + pt_bsize pj + 3 <= p.
Proof.
  intros Hok Hss i j pi pj p q Hi Hj Hp Hq Hne.
  assert (Hoki : part_ok pi)
    by (rewrite Forall_forall in Hok; eapply Hok, nth_error_In; eauto).
  assert (Hokj : part_ok pj)
    by (rewrite Forall_forall in Hok; eapply Hok, nth_error_In; eauto).
  pose proof (blocks_of_bounds _ _ Hoki Hp) as Bp.
  pose proof (blocks_of_bounds _ _ Hokj Hq) as Bq.
  destruct (lt_eq_lt_dec i j) as [[Hlt | Heq] | Hgt].
  - pose proof (StronglySorted_nth_error _ _ Hss _ _ _ _ Hlt Hi Hj) as Hb.
    unfold before in Hb. lia.
  - subst j. rewrite Hi in Hj. inversion Hj; subst pj.
    destruct Hne as [Hne | Hne]; [congruence | ].
    unfold blocks_of in Hp, Hq.
    apply blocks_from_In in Hp. destruct Hp as (k1 & Hk1 & Hp).
    apply blocks_from_In in Hq. destruct Hq as (k2 & Hk2 & Hq).
    unfold stride, METADATA_LENGTH in *.
    destruct Hoki as (_ & _ & Hv & _).
    unfold valid_size in Hv.
    assert (k1 <> k2) by congruence. nia.
  - pose proof (StronglySorted_nth_error _ _ Hss _ _ _ _ Hgt Hj Hi) as Hb.
    unfold before in Hb. lia.
Qed.

(** * Well-formed states *)

Lemma wf_zero_state : wf_state zero_state.
Proof.
  unfold wf_state, zero_state. cbn [freelist_head_arr sorted_block_size_arr
                                     block_size_count_var g_pool_heap_start].
  rewrite repeat_length. unfold MAX_BLOCK_SIZE_COUNT.
  repeat split; try lia. left. reflexivity.
Qed.

Lemma init_loop_frame k : forall count i remaining start s,
  let s' := snd (init_loop k count i remaining start s) in
  length (freelist_head_arr s') = length (freelist_head_arr s) /\
  sorted_block_size_arr s' = sorted_block_size_arr s /\
  block_size_count_var s' = block_size_count_var s /\
  g_pool_heap_start s' = g_pool_heap_start s.
Proof.
  induction k as [|k IH]; intros count i remaining start s; cbn [init_loop].
  - cbn [snd]. auto.
  - destruct ((aget (sorted_block_size_arr s) i =? 0)
              || (HEAP_SIZE - METADATA_LENGTH <? aget (sorted_block_size_arr s) i));
      [cbn [snd]; auto | ].
    destruct (partition_size_of (aget (sorted_block_size_arr s) i) remaining
                                count i >? remaining);
      [cbn [snd]; auto | ].
    match goal with
    | |- context [init_loop k ?c ?j ?r ?st ?s2] =>
      destruct (IH c j r st s2) as (H1 & H2 & H3 & H4)
    end.
    cbn [with_heap with_heads freelist_head_arr sorted_block_size_arr
         block_size_count_var g_pool_heap_start] in *.
    rewrite length_aset in H1. auto.
Qed.

Lemma qsort_arr_length arr count cmp :
  length (qsort_arr arr count cmp) = length arr.
Proof.
  unfold qsort_arr.
  rewrite length_app, qsort_length, <- length_app, firstn_skipn.
  reflexivity.
Qed.

Lemma pool_init_wf s block_sizes count :
  wf_state s -> 0 <= count -> wf_state (snd (pool_init s block_sizes count)).
Proof.
  intros Hwf Hcount. pose proof Hwf as (Hh & Hs & Hc & Hb). unfold pool_init.
  destruct block_sizes as [sizes|]; [ | exact Hwf].
  unfold MAX_BLOCK_SIZE_COUNT.
  destruct (count =? 0) eqn:E0; [exact Hwf | ].
  destruct (count >? 255) eqn:E1; [exact Hwf | ].
  cbn [orb].
  match goal with
  | |- wf_state (snd (init_loop ?k ?c ?j ?r ?st ?s2)) =>
    destruct (init_loop_frame k c j r st s2) as (H1 & H2 & H3 & H4)
  end.
  unfold wf_state. rewrite H1, H2, H3, H4.
  cbn [with_sizes freelist_head_arr sorted_block_size_arr
       block_size_count_var g_pool_heap_start].
  rewrite qsort_arr_length, copy_sizes_length.
  repeat split; try assumption; try lia. right. reflexivity.
Qed.

Lemma pool_malloc_wf s n : wf_state s -> wf_state (snd (pool_malloc s n)).
Proof.
  intros Hwf. pose proof Hwf as (Hh & Hs & Hc & Hb). unfold pool_malloc.
  destruct ((n =? 0) || (n >? aget (sorted_block_size_arr s) 0));
    [exact Hwf | ].
  destruct (find_partition _ _ _ _); [ | exact Hwf].
  unfold wf_state.
  cbn [snd with_heads freelist_head_arr sorted_block_size_arr
       block_size_count_var g_pool_heap_start].
  rewrite length_aset. repeat split; try assumption; lia.
Qed.

Lemma pool_free_wf s p : wf_state s -> wf_state (pool_free s p).
Proof.
  intros Hwf. pose proof Hwf as (Hh & Hs & Hc & Hb). unfold pool_free, wf_state.
  cbn [with_heads with_heap freelist_head_arr sorted_block_size_arr
       block_size_count_var g_pool_heap_start].
  rewrite length_aset. repeat split; try assumption; lia.
Qed.

(** * pool_init against the layout rule *)

Lemma valid_size_int_range x : valid_size x -> int_range x.
Proof. unfold valid_size, int_range, HEAP_SIZE. lia. Qed.

Lemma classes_of_length sizes count :
  (Z.to_nat count <= length sizes)%nat ->
  length (classes_of sizes count) = Z.to_nat count.
Proof.
  intros H. unfold classes_of, sort_desc.
  rewrite qsort_length, length_firstn. lia.
Qed.

Lemma pool_init_ok s sizes count L :
  wf_state s -> 1 <= count <= 255 ->
  (Z.to_nat count <= length sizes)%nat ->
  Forall valid_size (firstn (Z.to_nat count) sizes) ->
  spec_layout (classes_of sizes count) HEAP_SIZE 0 = Some L ->
  exists s',
    pool_init s (Some sizes) count = (true, s') /\
    wf_state s' /\
    firstn (Z.to_nat count) (sorted_block_size_arr s') = classes_of sizes count /\
    block_size_count_var s' = count /\
    g_pool_heap_start s' = heap_ptr 0 /\
    (forall m pt, nth_error L m = Some pt ->
                  class_ok (g_pool_heap s') (freelist_head_arr s') m pt).
Proof.
  intros Hwf Hc Hlen Hval Hlay.
  pose proof (pool_init_wf s (Some sizes) count Hwf ltac:(lia)) as Hwf'.
  destruct Hwf as (Hh & Hs & Hcv & Hbs).
  unfold pool_init in *. unfold MAX_BLOCK_SIZE_COUNT in *.
  destruct (count =? 0) eqn:E0; [apply Z.eqb_eq in E0; lia | ].
  destruct (count >? 255) eqn:E1; [lia | ].
  cbn [orb] in *.
  set (k := Z.to_nat count) in *.
  set (s3 := with_sizes _ _) in *.
  assert (Hpre : firstn k (sorted_block_size_arr s3) = classes_of sizes count).
  { unfold s3. cbn [with_sizes sorted_block_size_arr].
    replace count with (Z.of_nat k) at 1 by (unfold k; lia).
    rewrite sorted_prefix by lia.
    unfold classes_of. fold k. apply qsort_int_range.
    eapply Forall_impl; [ | exact Hval].
    intros a. apply valid_size_int_range. }
  assert (Hk : length (classes_of sizes count) = k)
    by (apply classes_of_length; exact Hlen).
  assert (Hv' : Forall valid_size (classes_of sizes count)).
  { eapply Permutation_Forall; [ | exact Hval].
    apply Permutation_sym, sort_desc_perm. }
  destruct (init_loop_ok (classes_of sizes count) 0 HEAP_SIZE 0 s3 L)
    as (s' & Hrun & Hsz & Hcnt & Hb & Hln & _ & _ & Hcls);
    try (rewrite ?Hk; cbn [skipn]; assumption);
    try reflexivity; try (rewrite ?Hk; unfold k; lia).
  rewrite Hk in Hrun. cbn [Nat.add Z.of_nat] in Hrun.
  replace (Z.of_nat k) with count in Hrun by (unfold k; lia).
  unfold HEAP_SIZE in *.
  exists s'. rewrite Hrun in *. cbn [snd] in Hwf'.
  split; [reflexivity | ]. split; [exact Hwf' | ].
  rewrite Hsz, Hcnt, Hb.
  split; [exact Hpre | ]. split; [reflexivity | ]. split; [reflexivity | ].
  exact Hcls.
Qed.

Lemma Forall_firstn_Z (P : Z -> Prop) k : forall l,
  Forall P l -> Forall P (firstn k l).
Proof.
  induction k as [|k IH]; intros l H; simpl.
  - constructor.
  - destruct H; constructor; auto.
Qed.

Lemma pool_init_true s sizes count :
  wf_state s -> 0 <= count ->
  (Z.to_nat count <= length sizes)%nat ->
  Forall size_t sizes ->
  fst (pool_init s (Some sizes) count) = true ->
  1 <= count <= 255 /\
  Forall valid_size (firstn (Z.to_nat count) sizes) /\
  exists L, spec_layout (classes_of sizes count) HEAP_SIZE 0 = Some L.
Proof.
  intros (Hh & Hs & Hcv & Hbs) Hc Hlen Hsz Hrun.
  unfold pool_init in Hrun. unfold MAX_BLOCK_SIZE_COUNT in *.
  destruct (count =? 0) eqn:E0; [discriminate | ].
  destruct (count >? 255) eqn:E1; [discriminate | ].
  cbn [orb] in Hrun. apply Z.eqb_neq in E0.
  split; [lia | ].
  set (k := Z.to_nat count) in *.
  set (s3 := with_sizes _ _) in *.
  set (cl := qsort qsort_cmp (firstn k sizes)).
  assert (Hpre : firstn k (sorted_block_size_arr s3) = cl).
  { unfold s3. cbn [with_sizes sorted_block_size_arr].
    replace count with (Z.of_nat k) by (unfold k; lia).
    apply sorted_prefix; lia. }
  assert (Hk : length cl = k)
    by (unfold cl; rewrite qsort_length, length_firstn; lia).
  assert (Hperm : Permutation cl (firstn k sizes)) by apply qsort_perm.
  destruct (init_loop_true cl 0 HEAP_SIZE 0 s3) as (Hv & L & HL);
    try (rewrite ?Hk; cbn [skipn]; assumption);
    try reflexivity; try (rewrite ?Hk; unfold k; lia).
  - eapply Permutation_Forall; [apply Permutation_sym, Hperm | ].
    apply Forall_firstn_Z. eapply Forall_impl; [ | exact Hsz].
    unfold size_t. intros; lia.
  - rewrite Hk. cbn [Nat.add Z.of_nat].
    replace (Z.of_nat k) with count by (unfold k; lia). exact Hrun.
  - assert (Hv' : Forall valid_size (firstn k sizes))
      by (eapply Permutation_Forall; [exact Hperm | exact Hv]).
    split; [exact Hv' | ].
    exists L. unfold classes_of. fold k.
    rewrite <- qsort_int_range; [exact HL | ].
    eapply Forall_impl; [ | exact Hv'].
    intros a. apply valid_size_int_range.
Qed.

(** * pool_malloc: class selection *)

Lemma find_partition_some k heads sizes n i :
  find_partition k heads sizes n = Some i ->
  0 <= i < Z.of_nat k /\ aget heads i <> 0 /\ n <= aget sizes i /\
  forall j, i < j < Z.of_nat k -> aget heads j = 0 \/ aget sizes j < n.
Proof.
  induction k as [|k IH]; cbn [find_partition]; [discriminate | ].
  destruct (aget heads (Z.of_nat k) =? 0) eqn:E1; cbn [negb andb].
  - intros H. destruct (IH H) as (H1 & H2 & H3 & H4).
    repeat split; try assumption; try lia.
    intros j Hj. destruct (Z.eq_dec j (Z.of_nat k)) as [-> | Hne].
    + left. apply Z.eqb_eq. exact E1.
    + apply H4. lia.
  - destruct (aget sizes (Z.of_nat k) >=? n) eqn:E2.
    + intros H. inversion H; subst i. apply Z.eqb_neq in E1.
      repeat split; try assumption; try lia.
    + intros H. destruct (IH H) as (H1 & H2 & H3 & H4).
      repeat split; try assumption; try lia.
      intros j Hj. destruct (Z.eq_dec j (Z.of_nat k)) as [-> | Hne].
      * right. lia.
      * apply H4. lia.
Qed.

Lemma find_partition_none k heads sizes n :
  find_partition k heads sizes n = None <->
  forall j, 0 <= j < Z.of_nat k -> aget heads j = 0 \/ aget sizes j < n.
Proof.
  induction k as [|k IH]; cbn [find_partition].
  - split; [intros _ j Hj; lia | reflexivity].
  - destruct (aget heads (Z.of_nat k) =? 0) eqn:E1; cbn [negb andb].
    + rewrite IH. apply Z.eqb_eq in E1. split; intros H j Hj.
      * destruct (Z.eq_dec j (Z.of_nat k)) as [-> | Hne]; [auto | ].
        apply H. lia.
      * apply H. lia.
    + apply Z.eqb_neq in E1.
      destruct (aget sizes (Z.of_nat k) >=? n) eqn:E2.
      * split; [discriminate | ]. intros H.
        destruct (H (Z.of_nat k)); lia.
      * rewrite IH. split; intros H j Hj.
        -- destruct (Z.eq_dec j (Z.of_nat k)) as [-> | Hne]; [right; lia | ].
           apply H. lia.
        -- apply H. lia.
Qed.

Lemma malloc_class_bounds s n i :
  wf_state s -> malloc_class s n = Some i ->
  0 <= i < block_size_count_var s /\
  n <> 0 /\ n <= aget (sorted_block_size_arr s) 0 /\
  aget (freelist_head_arr s) i <> 0 /\
  n <= aget (sorted_block_size_arr s) i /\
  forall j, i < j < block_size_count_var s ->
            aget (freelist_head_arr s) j = 0 \/
            aget (sorted_block_size_arr s) j < n.
Proof.
  intros (_ & _ & Hc & _) H. unfold malloc_class in H.
  destruct (n =? 0) eqn:E0; [discriminate | ].
  destruct (n >? aget (sorted_block_size_arr s) 0) eqn:E1; [discriminate | ].
  cbn [orb] in H. rewrite to_int_small in H by lia.
  apply find_partition_some in H. rewrite Z2Nat.id in H by lia.
  destruct H as (H1 & H2 & H3 & H4). apply Z.eqb_neq in E0.
  repeat split; try assumption; lia.
Qed.

Lemma pool_malloc_class s n :
  wf_state s ->
  pool_malloc s n =
  match malloc_class s n with
  | None => (NULL, s)
  | Some i =>
    let head := aget (freelist_head_arr s) i in
    (ptr_add (g_pool_heap_start s) head,
     with_heads s
       (aset (freelist_head_arr s) i
             (get_next_freelist_offset (g_pool_heap s)
                (ptr_add (ptr_add (g_pool_heap_start s) head)
                         (- METADATA_LENGTH)))))
  end.
Proof.
  intros Hwf. destruct (malloc_class s n) as [i|] eqn:E.
  - pose proof (malloc_class_bounds s n i Hwf E) as (Hi & _).
    destruct Hwf as (_ & _ & Hc & _).
    unfold malloc_class in E. unfold pool_malloc.
    destruct ((n =? 0) || (n >? aget (sorted_block_size_arr s) 0));
      [discriminate | ].
    rewrite E. rewrite (to_u8_small i) by lia. reflexivity.
  - unfold malloc_class in E. unfold pool_malloc.
    destruct ((n =? 0) || (n >? aget (sorted_block_size_arr s) 0));
      [reflexivity | ].
    rewrite E. reflexivity.
Qed.

(** * The allocator invariant *)

Lemma held_of_cons i j p held :
  held_of j ((i, p) :: held)
  = if Nat.eqb i j then p :: held_of j held else held_of j held.
Proof.
  unfold held_of. cbn [filter fst]. destruct (Nat.eqb i j); reflexivity.
Qed.

Lemma In_held_of i p held : In p (held_of i held) <-> In (i, p) held.
Proof.
  unfold held_of. rewrite in_map_iff. split.
  - intros ([j q] & Hq & Hin). apply filter_In in Hin.
    cbn [fst snd] in *. destruct Hin as [Hin Hj].
    apply Nat.eqb_eq in Hj. subst. exact Hin.
  - intros H. exists (i, p). split; [reflexivity | ].
    apply filter_In. split; [exact H | ]. apply Nat.eqb_refl.
Qed.

Lemma held_of_release i p held :
  held_of i (release p held)
  = filter (fun q => negb (q =? p)) (held_of i held).
Proof.
  unfold held_of, release.
  induction held as [|[j q] t IH]; cbn [filter map fst snd].
  - reflexivity.
  - destruct (q =? p) eqn:E1; destruct (Nat.eqb j i) eqn:E2;
      cbn [negb filter map fst snd]; rewrite ?E1, ?E2; cbn [negb map snd];
      rewrite IH; reflexivity.
Qed.

Lemma filter_keep_all (f : Z -> bool) l :
  (forall x, In x l -> f x = true) -> filter f l = l.
Proof.
  intros H. apply forallb_filter_id. apply forallb_forall. exact H.
Qed.

Lemma NoDup_extract (p : Z) l :
  NoDup l -> In p l ->
  Permutation l (p :: filter (fun q => negb (q =? p)) l).
Proof.
  induction 1 as [|x t Hx Ht IH]; intros Hin; [destruct Hin | ].
  cbn [filter]. destruct Hin as [-> | Hin].
  - rewrite Z.eqb_refl. cbn [negb].
    rewrite filter_keep_all; [apply Permutation_refl | ].
    intros y Hy. destruct (y =? p) eqn:E; [ | reflexivity].
    apply Z.eqb_eq in E. subst. contradiction.
  - destruct (x =? p) eqn:E.
    + apply Z.eqb_eq in E. subst. contradiction.
    + cbn [negb]. eapply perm_trans; [apply perm_skip, IH, Hin | ].
      apply perm_swap.
Qed.

Lemma nth_part_ok L i pt :
  layout_ok L -> nth_error L i = Some pt -> part_ok pt.
Proof.
  intros HL Hi. pose proof (lo_parts L HL) as H.
  rewrite Forall_forall in H. eapply H, nth_error_In, Hi.
Qed.

Lemma nth_error_lt L (i : nat) :
  (i < length L)%nat -> exists pt : partition, nth_error L i = Some pt.
Proof.
  intros H. destruct (nth_error L i) as [pt|] eqn:E; [eauto | ].
  apply nth_error_None in E. lia.
Qed.

Lemma inv_held_block L s held i p pt :
  inv L s held -> In (i, p) held -> nth_error L i = Some pt ->
  In p (blocks_of pt).
Proof.
  intros I Hin Hi. destruct (inv_chain L s held I i pt Hi) as (l & _ & Hp).
  eapply Permutation_in; [exact Hp | ].
  apply in_or_app. right. apply In_held_of. exact Hin.
Qed.

Lemma block_range L i pt p :
  layout_ok L -> nth_error L i = Some pt -> In p (blocks_of pt) ->
  3 <= p < 65536.
Proof.
  intros HL Hi Hp. pose proof (nth_part_ok L i pt HL Hi) as Hok.
  pose proof (blocks_of_bounds pt p Hok Hp) as Hb.
  destruct Hok as (H0 & H1 & Hv & _).
  unfold valid_size, HEAP_SIZE in *. lia.
Qed.

(** Every block, header included, lies inside the heap array. *)
Lemma block_in_heap L i pt p :
  layout_ok L -> nth_error L i = Some pt -> In p (blocks_of pt) ->
  0 <= p - METADATA_LENGTH /\ p + pt_bsize pt <= HEAP_SIZE.
Proof.
  intros HL Hi Hp. pose proof (nth_part_ok L i pt HL Hi) as Hok.
  pose proof (blocks_of_bounds pt p Hok Hp) as Hb.
  destruct Hok as (H0 & H1 & _).
  unfold METADATA_LENGTH, HEAP_SIZE in *. lia.
Qed.

Lemma block_cases L i j pi pj p q :
  layout_ok L ->
  nth_error L i = Some pi -> nth_error L j = Some pj ->
  In p (blocks_of pi) -> In q (blocks_of pj) ->
  1 <= pt_bsize pi /\ 1 <= pt_bsize pj /\
  ((i = j /\ p = q) \/
   p + pt_bsize pi + 3 <= q \/ q + pt_bsize pj + 3 <= p).
Proof.
  intros HL Hi Hj Hp Hq.
  pose proof (nth_part_ok L i pi HL Hi) as (_ & _ & Hvi & _).
  pose proof (nth_part_ok L j pj HL Hj) as (_ & _ & Hvj & _).
  unfold valid_size in *.
  split; [lia | ]. split; [lia | ].
  destruct (Nat.eq_dec i j) as [Hij | Hij];
    [destruct (Z.eq_dec p q) as [Hpq | Hpq] | ].
  - left. auto.
  - right. eapply (blocks_separate L (lo_parts L HL) (lo_sorted L HL));
      eauto.
  - right. eapply (blocks_separate L (lo_parts L HL) (lo_sorted L HL));
      eauto.
Qed.

Lemma NoDup_app_disjoint (l1 l2 : list Z) x :
  NoDup (l1 ++ l2) -> In x l1 -> In x l2 -> False.
Proof.
  induction l1 as [|y t IH]; intros Hnd H1 H2; [destruct H1 | ].
  cbn [app] in Hnd. inversion Hnd as [|? ? Hy Ht]; subst.
  destruct H1 as [-> | H1].
  - apply Hy. apply in_or_app. right. exact H2.
  - apply IH; assumption.
Qed.

Lemma chain_head_in h off l : chain h off l -> off = 0 \/ In off l.
Proof. intros H. inversion H; subst; [left | right; left]; reflexivity. Qed.

(** ** A successful [pool_init] establishes the invariant *)

Lemma layout_ok_of_spec classes L :
  Forall valid_size classes -> (1 <= length classes <= 255)%nat ->
  desc classes ->
  spec_layout classes HEAP_SIZE 0 = Some L ->
  layout_ok L /\ map pt_bsize L = classes.
Proof.
  intros Hv Hlen Hd Hlay.
  destruct (spec_layout_facts classes HEAP_SIZE 0 L Hv)
    as (Hb & Hok & _ & Hss); try assumption; try reflexivity;
    try (unfold HEAP_SIZE; lia).
  split; [ | exact Hb].
  constructor; try assumption.
  - rewrite <- (length_map pt_bsize), Hb. exact Hlen.
  - rewrite Hb. exact Hd.
Qed.

Lemma inv_init s sizes count L s' :
  wf_state s -> 0 <= count ->
  (Z.to_nat count <= length sizes)%nat ->
  Forall size_t sizes ->
  pool_init s (Some sizes) count = (true, s') ->
  spec_layout (classes_of sizes count) HEAP_SIZE 0 = Some L ->
  layout_ok L /\ map pt_bsize L = classes_of sizes count /\
  inv L s' [] /\
  forall i pt, nth_error L i = Some pt ->
               class_ok (g_pool_heap s') (freelist_head_arr s') i pt.
Proof.
  intros Hwf Hc Hlen Hsz Hrun Hlay.
  destruct (pool_init_true s sizes count Hwf Hc Hlen Hsz)
    as (Hcount & Hval & _); [rewrite Hrun; reflexivity | ].
  destruct (pool_init_ok s sizes count L Hwf Hcount Hlen Hval Hlay)
    as (s2 & Hrun2 & Hwf' & Hpre & Hcv & Hbase & Hcls).
  rewrite Hrun in Hrun2. inversion Hrun2; subst s2. clear Hrun2.
  assert (Hk : length (classes_of sizes count) = Z.to_nat count)
    by (apply classes_of_length; exact Hlen).
  destruct (layout_ok_of_spec (classes_of sizes count) L) as (HL & Hb);
    try assumption; try (rewrite Hk; lia).
  { eapply Permutation_Forall; [ | exact Hval].
    apply Permutation_sym, sort_desc_perm. }
  { apply sort_desc_desc. }
  assert (HlenL : length L = Z.to_nat count)
    by (rewrite <- Hk, <- Hb, length_map; reflexivity).
  split; [exact HL | ]. split; [exact Hb | ]. split; [ | exact Hcls].
  constructor; try assumption.
  - rewrite Hcv, HlenL. lia.
  - intros i pt Hi.
    assert (Hlt : (i < Z.to_nat count)%nat).
    { rewrite <- HlenL. apply nth_error_Some. congruence. }
    unfold aget. rewrite Nat2Z.id.
    pose proof (nth_firstn (Z.to_nat count) (sorted_block_size_arr s') i 0)
      as Hn.
    destruct (Nat.ltb_spec i (Z.to_nat count)); [ | lia].
    rewrite <- Hn, Hpre, <- Hb.
    change 0 with (pt_bsize (mkPart 0 0 0)). rewrite map_nth.
    f_equal. apply nth_error_nth. exact Hi.
  - intros i pt Hi. destruct (Hcls i pt Hi) as (Hh & Hch & _).
    exists (blocks_of pt). rewrite Hh. split; [exact Hch | ].
    cbn. rewrite app_nil_r. apply Permutation_refl.
  - intros i pt p Hi Hp. destruct (Hcls i pt Hi) as (_ & _ & Ht).
    apply Ht. exact Hp.
  - intros i p [].
Qed.

(** ** [pool_malloc] preserves the invariant *)

Lemma inv_malloc L s held n i :
  layout_ok L -> inv L s held -> malloc_class s n = Some i ->
  exists off l pt,
    nth_error L (Z.to_nat i) = Some pt /\
    off = aget (freelist_head_arr s) i /\
    chain (g_pool_heap s) off (off :: l) /\
    pool_malloc s n
    = (heap_ptr off,
       with_heads s (aset (freelist_head_arr s) i
                          (rd16 (g_pool_heap s) (off - 3)))) /\
    inv L (snd (pool_malloc s n)) ((Z.to_nat i, off) :: held).
Proof.
  intros HL I Hcls.
  pose proof (inv_wf L s held I) as Hwf.
  pose proof (malloc_class_bounds s n i Hwf Hcls) as (Hi & _ & _ & Hne & _).
  rewrite (inv_count L s held I) in Hi.
  destruct (nth_error_lt L (Z.to_nat i)) as (pt & Hpt); [lia | ].
  destruct (inv_chain L s held I _ pt Hpt) as (l0 & Hch & Hperm).
  rewrite Z2Nat.id in Hch by lia.
  inversion Hch as [Hz | off l Hoff Hrest Ho]; [congruence | ].
  subst off l0.
  set (off := aget (freelist_head_arr s) i) in *.
  assert (Hrun : pool_malloc s n
    = (heap_ptr off,
       with_heads s (aset (freelist_head_arr s) i
                          (rd16 (g_pool_heap s) (off - 3))))).
  { rewrite pool_malloc_class by exact Hwf. rewrite Hcls.
    rewrite (inv_base L s held I). reflexivity. }
  exists off, l, pt.
  split; [exact Hpt | ]. split; [reflexivity | ]. split; [exact Hch | ].
  split; [exact Hrun | ].
  pose proof (pool_malloc_wf s n Hwf) as Hwf'.
  rewrite Hrun in *. cbn [snd] in *.
  destruct Hwf as (Hlh & _ & _ & _).
  constructor;
    cbn [with_heads g_pool_heap freelist_head_arr sorted_block_size_arr
         block_size_count_var g_pool_heap_start].
  - apply (inv_count L s held I).
  - apply (inv_base L s held I).
  - exact Hwf'.
  - apply (inv_sizes L s held I).
  - intros j ptj Hj. rewrite held_of_cons.
    destruct (Nat.eqb_spec (Z.to_nat i) j) as [Heq | Hneq].
    + subst j. rewrite Hpt in Hj. inversion Hj; subst ptj.
      rewrite Z2Nat.id by lia.
      pose proof (lo_len L HL) as HlenL.
      rewrite aget_aset_same by lia.
      exists l. split; [exact Hrest | ].
      eapply perm_trans; [ | exact Hperm].
      apply Permutation_sym, Permutation_middle.
    + rewrite aget_aset_other by lia.
      apply (inv_chain L s held I). exact Hj.
  - apply (inv_tag L s held I).
  - intros j p [Hjp | Hin].
    + inversion Hjp; subst. lia.
    + eapply (inv_held L s held I). exact Hin.
Qed.

(** ** [pool_free] preserves the invariant *)

Lemma pool_free_heap s p :
  g_pool_heap_start s = heap_ptr 0 ->
  pool_free s (heap_ptr p) =
  let pn := g_pool_heap s (p - 1) in
  mkState (wr16 (g_pool_heap s) (p - 3) (aget (freelist_head_arr s) pn))
          (aset (freelist_head_arr s) pn (to_u16 p))
          (sorted_block_size_arr s) (block_size_count_var s)
          (g_pool_heap_start s).
Proof.
  intros Hbase. unfold pool_free, with_heads, with_heap.
  cbn [g_pool_heap freelist_head_arr sorted_block_size_arr
       block_size_count_var g_pool_heap_start].
  rewrite Hbase.
  change (ptr_add (heap_ptr p) (- METADATA_LENGTH)) with (heap_ptr (p - 3)).
  unfold get_partition_number, set_next_freelist_offset.
  change (ptr_add (heap_ptr (p - 3)) 2) with (heap_ptr (p - 3 + 2)).
  replace (p - 3 + 2) with (p - 1) by lia.
  unfold ptr_diff. cbn [p_ofs heap_ptr]. rewrite Z.sub_0_r.
  reflexivity.
Qed.

Lemma inv_free L s held i p :
  layout_ok L -> inv L s held -> In (i, p) held ->
  inv L (pool_free s (heap_ptr p)) (release p held).
Proof.
  intros HL I Hin.
  pose proof (inv_wf L s held I) as Hwf.
  pose proof (pool_free_wf s (heap_ptr p) Hwf) as Hwf'.
  pose proof (inv_held L s held I i p Hin) as Hi.
  pose proof (lo_len L HL) as HlenL.
  destruct (nth_error_lt L i Hi) as (pt & Hpt).
  pose proof (inv_held_block L s held i p pt I Hin Hpt) as Hp.
  pose proof (block_range L i pt p HL Hpt Hp) as Hpr.
  pose proof (inv_tag L s held I i pt p Hpt Hp) as Htag.
  rewrite pool_free_heap in * by apply (inv_base L s held I).
  cbv zeta in *. rewrite Htag in *. rewrite (to_u16_small p) in * by lia.
  destruct Hwf as (Hlh & _ & _ & _).
  set (hd := aget (freelist_head_arr s) (Z.of_nat i)) in *.
  set (h' := wr16 (g_pool_heap s) (p - 3) hd) in *.
  (* bytes of the heap outside the rewritten link field are unchanged *)
  assert (Hother : forall j ptj q, nth_error L j = Some ptj ->
            In q (blocks_of ptj) -> (j <> i \/ q <> p) ->
            h' (q - 3) = g_pool_heap s (q - 3) /\
            h' (q - 2) = g_pool_heap s (q - 2)).
  { intros j ptj q Hj Hq Hne.
    destruct (block_cases L j i ptj pt q p HL Hj Hpt Hq Hp)
      as (B1 & B2 & [[-> ->] | Hsep]); [tauto | ].
    unfold h'. split; apply wr16_other; lia. }
  assert (Htags : forall j ptj q, nth_error L j = Some ptj ->
            In q (blocks_of ptj) -> h' (q - 1) = g_pool_heap s (q - 1)).
  { intros j ptj q Hj Hq.
    destruct (block_cases L j i ptj pt q p HL Hj Hpt Hq Hp)
      as (B1 & B2 & [[-> ->] | Hsep]);
      unfold h'; apply wr16_other; lia. }
  constructor;
    cbn [g_pool_heap freelist_head_arr sorted_block_size_arr
         block_size_count_var g_pool_heap_start].
  - apply (inv_count L s held I).
  - apply (inv_base L s held I).
  - exact Hwf'.
  - apply (inv_sizes L s held I).
  - intros j ptj Hj. rewrite held_of_release.
    destruct (inv_chain L s held I j ptj Hj) as (l & Hch & Hperm).
    assert (Hnd : NoDup (l ++ held_of j held)).
    { eapply Permutation_NoDup; [apply Permutation_sym, Hperm | ].
      apply blocks_of_NoDup. eapply nth_part_ok; eauto. }
    destruct (Nat.eq_dec j i) as [-> | Hne].
    + rewrite Hpt in Hj. inversion Hj; subst ptj. clear Hj.
      fold hd in Hch.
      rewrite aget_aset_same by lia.
      assert (Hph : In p (held_of i held)) by (apply In_held_of; exact Hin).
      assert (Hpl : ~ In p l)
        by (intros Hc; exact (NoDup_app_disjoint _ _ _ Hnd Hc Hph)).
      assert (Hhd : 0 <= hd < 65536).
      { destruct (chain_head_in _ _ _ Hch) as [-> | Hhin]; [lia | ].
        assert (3 <= hd < 65536); [ | lia].
        eapply (block_range L i pt); eauto.
        eapply Permutation_in; [exact Hperm | ].
        apply in_or_app. left. exact Hhin. }
      exists (p :: l). split.
      * constructor; [lia | ].
        unfold METADATA_LENGTH. unfold h' at 2.
        rewrite rd16_wr16_same by exact Hhd.
        eapply chain_frame; [exact Hch | ].
        intros q Hq. apply (Hother i pt q Hpt).
        -- eapply Permutation_in; [exact Hperm | ].
           apply in_or_app. left. exact Hq.
        -- right. intros ->. contradiction.
      * cbn [app].
        eapply perm_trans; [apply Permutation_middle | ].
        eapply perm_trans; [ | exact Hperm].
        apply Permutation_app_head. apply Permutation_sym.
        apply NoDup_extract; [ | exact Hph].
        apply (NoDup_app_remove_l _ _ Hnd).
    + rewrite aget_aset_other by lia.
      rewrite filter_keep_all.
      * exists l. split; [ | exact Hperm].
        eapply chain_frame; [exact Hch | ].
        intros q Hq. apply (Hother j ptj q Hj); [ | left; exact Hne].
        eapply Permutation_in; [exact Hperm | ].
        apply in_or_app. left. exact Hq.
      * intros q Hq.
        assert (Hqb : In q (blocks_of ptj)).
        { eapply Permutation_in; [exact Hperm | ].
          apply in_or_app. right. exact Hq. }
        destruct (block_cases L j i ptj pt q p HL Hj Hpt Hqb Hp)
          as (B1 & B2 & [[-> ->] | Hsep]); [contradiction | ].
        destruct (q =? p) eqn:E; [apply Z.eqb_eq in E; lia | reflexivity].
  - intros j ptj q Hj Hq. rewrite (Htags j ptj q Hj Hq).
    apply (inv_tag L s held I j ptj q Hj Hq).
  - intros j q Hjq. apply filter_In in Hjq. destruct Hjq as [Hjq _].
    eapply (inv_held L s held I). exact Hjq.
Qed.

(** ** Stores by a caller into a block it holds preserve the invariant *)

Lemma inv_store L s held i p pt k v :
  layout_ok L -> inv L s held -> In (i, p) held ->
  nth_error L i = Some pt -> 0 <= k < pt_bsize pt ->
  inv L (caller_store s p k v) held.
Proof.
  intros HL I Hin Hpt Hk.
  pose proof (inv_held_block L s held i p pt I Hin Hpt) as Hp.
  assert (Hhdr : forall j ptj q d, nth_error L j = Some ptj ->
            In q (blocks_of ptj) -> 1 <= d <= 3 ->
            upd (g_pool_heap s) (p + k) (to_u8 v) (q - d)
            = g_pool_heap s (q - d)).
  { intros j ptj q d Hj Hq Hd.
    destruct (block_cases L j i ptj pt q p HL Hj Hpt Hq Hp)
      as (B1 & B2 & [[-> ->] | Hsep]); apply upd_other; lia. }
  unfold caller_store.
  constructor;
    cbn [with_heap g_pool_heap freelist_head_arr sorted_block_size_arr
         block_size_count_var g_pool_heap_start].
  - apply (inv_count L s held I).
  - apply (inv_base L s held I).
  - apply (inv_wf L s held I).
  - apply (inv_sizes L s held I).
  - intros j ptj Hj.
    destruct (inv_chain L s held I j ptj Hj) as (l & Hch & Hperm).
    exists l. split; [ | exact Hperm].
    eapply chain_frame; [exact Hch | ].
    intros q Hq.
    assert (Hqb : In q (blocks_of ptj)).
    { eapply Permutation_in; [exact Hperm | ].
      apply in_or_app. left. exact Hq. }
    split; eapply Hhdr; eauto; lia.
  - intros j ptj q Hj Hq. rewrite (Hhdr j ptj q 1 Hj Hq) by lia.
    apply (inv_tag L s held I j ptj q Hj Hq).
  - apply (inv_held L s held I).
Qed.

(** * Runs of the allocator *)

Lemma reach_inv L s0 s held :
  reach L s0 s held ->
  layout_ok L /\ inv L s held /\
  (forall i pt, nth_error L i = Some pt ->
                class_ok (g_pool_heap s0) (freelist_head_arr s0) i pt).
Proof.
  induction 1 as [pre sizes count Hwf Hc Hlen Hsz Hrun Hlay
                 | s held n i Hr IH Hcl
                 | s held n Hr IH Hcl
                 | s held i p Hr IH Hin
                 | s held i p pt k v Hr IH Hin Hpt Hk].
  - destruct (inv_init pre sizes count L s0 Hwf Hc Hlen Hsz Hrun Hlay)
      as (HL & _ & I & Hcls).
    auto.
  - destruct IH as (HL & I & H0). split; [exact HL | ]. split; [ | exact H0].
    destruct (inv_malloc L s held n i HL I Hcl)
      as (off & l & pt & _ & _ & _ & Hrun & I').
    rewrite Hrun in *. exact I'.
  - destruct IH as (HL & I & H0). split; [exact HL | ]. split; [ | exact H0].
    rewrite pool_malloc_class by apply (inv_wf L s held I).
    rewrite Hcl. exact I.
  - destruct IH as (HL & I & H0). split; [exact HL | ]. split; [ | exact H0].
    eapply inv_free; eauto.
  - destruct IH as (HL & I & H0). split; [exact HL | ]. split; [ | exact H0].
    eapply inv_store; eauto.
Qed.

(** * The scenarios of the test suite

    The embedding, run on the inputs of the repository's tests, returns
    what the tests assert. *)

Example test_pool_init_unsorted : fst (run_init [34; 12; 23; 4; 105]) = true.
Proof. vm_compute. reflexivity. Qed.

Example test_pool_init_max_length : fst (run_init (sizes_1_to 255)) = true.
Proof. vm_compute. reflexivity. Qed.

Example test_pool_init_null : fst (pool_init zero_state None 0) = false.
Proof. reflexivity. Qed.

Example test_pool_init_length_too_large :
  fst (run_init (sizes_1_to 256)) = false.
Proof. vm_compute. reflexivity. Qed.

Example test_pool_init_blocksize_0 : fst (run_init [1; 4; 3; 0; 2]) = false.
Proof. vm_compute. reflexivity. Qed.

Example test_pool_init_total_blocksize_too_large :
  fst (run_init [1; 5000; 35300; 29500; 2]) = false.
Proof. vm_compute. reflexivity. Qed.

Example test_malloc_check_heap_addr :
  fst (malloc_n 4 (snd (run_init [8; 4])) 8)
  = [heap_ptr 3; heap_ptr 14; heap_ptr 25; heap_ptr (3 - 3 + 36)].
Proof. vm_compute. reflexivity. Qed.

Example test_malloc_not_in_blocksizes :
  fst (pool_malloc (snd (run_init [1; 2; 6])) 4) <> NULL.
Proof. vm_compute. discriminate. Qed.

Example test_malloc_too_large :
  fst (pool_malloc (snd (run_init [1; 2; 5])) 8) = NULL.
Proof. vm_compute. reflexivity. Qed.

Example test_malloc_with_duplicate_sizes :
  let r := pool_init zero_state (Some (repeat 509 128)) 1 in
  fst r = true /\
  Forall (fun p => p <> NULL) (fst (malloc_n 128 (snd r) 1)) /\
  fst (pool_malloc (snd (malloc_n 128 (snd r) 1)) 1) = NULL.
Proof.
  cbv zeta. split; [vm_compute; reflexivity | ]. split.
  - assert (H : forallb (fun p => match p_base p with
                                  | HeapBase => true
                                  | NullBase => false
                                  end)
                  (fst (malloc_n 128
                          (snd (pool_init zero_state (Some (repeat 509 128)) 1))
                          1)) = true) by (vm_compute; reflexivity).
    rewrite forallb_forall in H. apply Forall_forall.
    intros p Hp Hnull. specialize (H p Hp). clear Hp.
    rewrite Hnull in H. exact (Bool.diff_false_true H).
  - vm_compute. reflexivity.
Qed.

Example test_malloc_start_and_end_of_heap :
  let s0 := snd (run_init [65529; 1]) in
  let m1 := fst (pool_malloc s0 65529) in
  let m2 := fst (pool_malloc (snd (pool_malloc s0 65529)) 1) in
  fst (run_init [65529; 1]) = true /\ ptr_diff m2 m1 = 65532.
Proof. vm_compute. split; reflexivity. Qed.

Example test_free_max_size_block :
  let s0 := snd (run_init [65533]) in
  let m1 := fst (pool_malloc s0 30) in
  let s1 := snd (pool_malloc s0 30) in
  fst (pool_malloc (pool_free s1 m1) 644) = m1.
Proof. vm_compute. reflexivity. Qed.

Example test_malloc_multiple_then_free :
  fst multiple_then_free = snd multiple_then_free.
Proof. vm_compute. reflexivity. Qed.

(** * The properties of the specification *)

(** ** Block conservation *)

(** C1. After a successful [pool_init] and any sequence of
    [pool_malloc]/[pool_free] calls within the contracts (interleaved with
    stores into held payloads), for every class [i] the payload offsets on
    the free list of class [i] together with the offsets held from class [i]
    are exactly the blocks laid out for class [i] at initialisation, without
    duplicates, and no block of another class is on the list. *)
Theorem block_conservation L s0 s held :
  reach L s0 s held ->
  block_size_count_var s = Z.of_nat (length L) /\
  forall i pt, nth_error L i = Some pt -> conserved L s0 s held i pt.
Proof.
  intros Hr. destruct (reach_inv L s0 s held Hr) as (HL & I & H0).
  split; [apply (inv_count L s held I) | ].
  intros i pt Hi. unfold conserved.
  assert (Hnd : NoDup (blocks_of pt))
    by (apply blocks_of_NoDup; eapply nth_part_ok; eauto).
  destruct (H0 i pt Hi) as (Hh & Hch0 & _).
  split; [rewrite Hh; exact Hch0 | ]. split; [exact Hnd | ].
  destruct (inv_chain L s held I i pt Hi) as (l & Hch & Hperm).
  exists l. split; [exact Hch | ]. split; [exact Hperm | ]. split.
  - eapply Permutation_NoDup; [apply Permutation_sym, Hperm | exact Hnd].
  - intros j ptj p Hj Hne Hp Hpj.
    assert (Hpi : In p (blocks_of pt)).
    { eapply Permutation_in; [exact Hperm | ].
      apply in_or_app. left. exact Hp. }
    destruct (block_cases L j i ptj pt p p HL Hj Hi Hpj Hpi)
      as (B1 & B2 & [[Hji _] | Hsep]); [contradiction | lia].
Qed.

(** ** The allocation contract *)

Lemma inv_sizes_desc L s held a b :
  layout_ok L -> inv L s held ->
  (a <= b)%nat -> (b < length L)%nat ->
  aget (sorted_block_size_arr s) (Z.of_nat b)
  <= aget (sorted_block_size_arr s) (Z.of_nat a).
Proof.
  intros HL I Hab Hb.
  destruct (nth_error_lt L a) as (pa & Ha); [lia | ].
  destruct (nth_error_lt L b) as (pb & Hpb); [lia | ].
  rewrite (inv_sizes L s held I a pa Ha), (inv_sizes L s held I b pb Hpb).
  pose proof (desc_nth (map pt_bsize L) a b (lo_desc L HL) Hab) as Hd.
  rewrite length_map in Hd. specialize (Hd Hb).
  change 0 with (pt_bsize (mkPart 0 0 0)) in Hd. rewrite !map_nth in Hd.
  rewrite (nth_error_nth L a _ Ha), (nth_error_nth L b _ Hpb) in Hd.
  exact Hd.
Qed.

(** C2. In every state reached after a successful [pool_init],
    [pool_malloc(n)] returns NULL exactly when [n] is 0, or [n] exceeds
    [sorted_block_size_arr[0]], or every class whose block size is at least
    [n] has an empty free list.  Otherwise it returns the payload pointer at
    the head of the free list of the first class, scanning from index
    [N - 1] down to 0, that fits and is not empty; that class has the
    smallest block size among the non-empty classes that fit; and the block
    is unlinked by setting the head to its stored [next_freelist_offset]. *)
Theorem malloc_contract L s0 s held n :
  reach L s0 s held ->
  let N := block_size_count_var s in
  let sz := aget (sorted_block_size_arr s) in
  let hd := aget (freelist_head_arr s) in
  (fst (pool_malloc s n) = NULL <->
   n = 0 \/ n > sz 0 \/ (forall i, 0 <= i < N -> sz i >= n -> hd i = 0)) /\
  (fst (pool_malloc s n) <> NULL ->
   exists i,
     0 <= i < N /\ sz i >= n /\ hd i <> 0 /\
     (forall j, i < j < N -> ~ (sz j >= n /\ hd j <> 0)) /\
     (forall j, 0 <= j < N -> sz j >= n -> hd j <> 0 -> sz i <= sz j) /\
     pool_malloc s n
     = (heap_ptr (hd i),
        with_heads s (aset (freelist_head_arr s) i
                           (rd16 (g_pool_heap s) (hd i - 3))))).
Proof.
  intros Hr N sz hd.
  destruct (reach_inv L s0 s held Hr) as (HL & I & _).
  pose proof (inv_wf L s held I) as Hwf.
  destruct (malloc_class s n) as [i|] eqn:Hcl.
  - pose proof (malloc_class_bounds s n i Hwf Hcl)
      as (Hi & Hn0 & Hn1 & Hhd & Hsz & Hscan).
    destruct (inv_malloc L s held n i HL I Hcl)
      as (off & l & pt & Hpt & Hoff & Hch & Hrun & _).
    rewrite Hrun. cbn [fst]. fold N in Hi, Hscan. split.
    + split; [discriminate | ].
      intros [H | [H | H]]; [contradiction | unfold sz in H; lia | ].
      exfalso. apply Hhd. apply H; [exact Hi | unfold sz; lia].
    + intros _. exists i. subst off. fold hd in Hhd.
      split; [exact Hi | ]. split; [unfold sz; lia | ].
      split; [exact Hhd | ]. split; [ | split; [ | reflexivity]].
      * intros j Hj [H1 H2]. destruct (Hscan j Hj); unfold sz, hd in *; lia.
      * intros j Hj H1 H2.
        destruct (Z_le_gt_dec j i) as [Hle | Hgt].
        -- unfold N in *. rewrite (inv_count L s held I) in *.
           pose proof (inv_sizes_desc L s held (Z.to_nat j) (Z.to_nat i) HL I)
             as Hd.
           rewrite !Z2Nat.id in Hd by lia. apply Hd; lia.
        -- exfalso. destruct (Hscan j ltac:(lia)); unfold sz, hd in *; lia.
  - rewrite pool_malloc_class by exact Hwf. rewrite Hcl. cbn [fst]. split.
    + split; [ | reflexivity]. intros _.
      unfold malloc_class in Hcl. fold sz in Hcl.
      destruct (n =? 0) eqn:E0; [left; apply Z.eqb_eq; exact E0 | ].
      destruct (n >? sz 0) eqn:E1; [right; left; lia | ].
      cbn [orb] in Hcl. right. right. intros i Hi Hs.
      destruct Hwf as (_ & _ & Hc & _).
      rewrite to_int_small in Hcl by lia.
      rewrite find_partition_none in Hcl. rewrite Z2Nat.id in Hcl by lia.
      destruct (Hcl i Hi) as [H | H]; [exact H | unfold sz in Hs; lia].
    + intros H. contradiction.
Qed.

(** ** Frame of [pool_malloc] *)

(** C10. [pool_malloc] never writes the heap.  When it returns NULL the
    state is unchanged; otherwise the only change is the free-list head of
    the selected class, which becomes the [next_freelist_offset] stored in
    the header of the popped block; every other head keeps its value. *)
Theorem malloc_frame s n :
  wf_state s ->
  let p := fst (pool_malloc s n) in
  let s' := snd (pool_malloc s n) in
  g_pool_heap s' = g_pool_heap s /\
  sorted_block_size_arr s' = sorted_block_size_arr s /\
  block_size_count_var s' = block_size_count_var s /\
  g_pool_heap_start s' = g_pool_heap_start s /\
  (p = NULL -> s' = s) /\
  (p <> NULL ->
   exists i, malloc_class s n = Some i /\
     let header := ptr_add p (- METADATA_LENGTH) in
     freelist_head_arr s'
     = aset (freelist_head_arr s) i
            (get_next_freelist_offset (g_pool_heap s) header) /\
     (forall j, 0 <= j -> j <> i ->
                aget (freelist_head_arr s') j = aget (freelist_head_arr s) j)).
Proof.
  intros Hwf p s'. subst p s'.
  rewrite pool_malloc_class by exact Hwf.
  destruct (malloc_class s n) as [i|] eqn:Hcl.
  - pose proof (malloc_class_bounds s n i Hwf Hcl)
      as (Hi & _ & _ & Hhd & _).
    cbv zeta.
    cbn [fst snd with_heads g_pool_heap sorted_block_size_arr
         block_size_count_var g_pool_heap_start freelist_head_arr].
    do 4 (split; [reflexivity | ]). split.
    + intros Hnull. exfalso.
      destruct Hwf as (_ & _ & _ & [Hb | Hb]); rewrite Hb in Hnull;
        unfold ptr_add, NULL, heap_ptr in Hnull; cbn [p_base p_ofs] in Hnull;
        inversion Hnull. contradiction.
    + intros _. exists i. split; [reflexivity | ]. split; [reflexivity | ].
      intros j Hj Hne. apply aget_aset_other; lia.
  - cbn [fst snd]. do 4 (split; [reflexivity | ]).
    split; [reflexivity | ]. intros H. contradiction.
Qed.

(** ** Allocation before any initialisation *)

(** C9. Before any call of [pool_init] the statics are all zero, and
    [pool_malloc(n)] returns NULL for every [n], leaving the state as it
    is. *)
Theorem malloc_before_init n : pool_malloc zero_state n = (NULL, zero_state).
Proof.
  unfold pool_malloc.
  change (aget (sorted_block_size_arr zero_state) 0) with 0.
  change (block_size_count_var zero_state) with 0.
  destruct ((n =? 0) || (n >? 0)); reflexivity.
Qed.

(** ** The initialisation contract *)

(** C3. [pool_init(sizes, count)] returns true exactly when [sizes] is not
    null, [1 <= count <= 255], every size is between 1 and
    [HEAP_SIZE - 3 = 65533], and the layout rule places all [count] classes
    without a partition exceeding the remaining bytes.  For a single class,
    size 65533 is accepted and size 65534 is rejected. *)
Theorem init_contract s block_sizes count :
  wf_state s -> 0 <= count ->
  (forall l, block_sizes = Some l ->
             (Z.to_nat count <= length l)%nat /\ Forall size_t l) ->
  (fst (pool_init s block_sizes count) = true <->
   exists sizes L,
     block_sizes = Some sizes /\
     1 <= count <= 255 /\
     Forall (fun x => 1 <= x <= 65533) (firstn (Z.to_nat count) sizes) /\
     spec_layout (classes_of sizes count) HEAP_SIZE 0 = Some L) /\
  fst (pool_init s (Some [65533]) 1) = true /\
  fst (pool_init s (Some [65534]) 1) = false.
Proof.
  intros Hwf Hc Hin.
  assert (Hvs : forall l, Forall (fun x => 1 <= x <= 65533) l <->
                          Forall valid_size l).
  { intros l. split; apply Forall_impl; unfold valid_size, HEAP_SIZE;
      intros; lia. }
  split; [ | split].
  - split.
    + intros Hrun. destruct block_sizes as [sizes|]; [ | discriminate].
      destruct (Hin sizes eq_refl) as (Hlen & Hsz).
      destruct (pool_init_true s sizes count Hwf Hc Hlen Hsz Hrun)
        as (Hcount & Hval & L & HL).
      exists sizes, L. rewrite Hvs. auto.
    + intros (sizes & L & -> & Hcount & Hval & HL).
      destruct (Hin sizes eq_refl) as (Hlen & Hsz).
      rewrite Hvs in Hval.
      destruct (pool_init_ok s sizes count L Hwf Hcount Hlen Hval HL)
        as (s' & Hrun & _).
      rewrite Hrun. reflexivity.
  - destruct (pool_init_ok s [65533] 1
                [mkPart 0 65533 65536] Hwf) as (s' & Hrun & _);
      try (cbn; lia); try reflexivity.
    + repeat constructor; unfold HEAP_SIZE; lia.
    + rewrite Hrun. reflexivity.
  - destruct (fst (pool_init s (Some [65534]) 1)) eqn:E; [ | reflexivity].
    apply pool_init_true in E; try assumption; try (cbn; lia).
    + destruct E as (_ & Hval & _). cbn in Hval.
      apply Forall_inv in Hval. unfold valid_size, HEAP_SIZE in Hval. lia.
    + repeat constructor; unfold size_t; lia.
Qed.

(** ** The sort *)

(** C8. After a successful [pool_init(sizes, count)] the first [count]
    entries of [sorted_block_size_arr] are a permutation of the caller's
    sizes and are non-increasing.  Every accepted size is at most 65533,
    hence read back unchanged through [int*], so that the sort driven by
    [qsort_cmp] coincides with the sort by the true keys. *)
Theorem sorted_after_init s sizes count s' :
  wf_state s -> 0 <= count ->
  (Z.to_nat count <= length sizes)%nat -> Forall size_t sizes ->
  pool_init s (Some sizes) count = (true, s') ->
  let given := firstn (Z.to_nat count) sizes in
  let arr := firstn (Z.to_nat count) (sorted_block_size_arr s') in
  Permutation arr given /\
  desc arr /\
  (forall i j, 0 <= i -> i < j -> j < count ->
     aget (sorted_block_size_arr s') i >= aget (sorted_block_size_arr s') j) /\
  Forall (fun x => 1 <= x <= 65533) given /\
  arr = qsort qsort_cmp given /\
  qsort qsort_cmp given = sort_desc given.
Proof.
  intros Hwf Hc Hlen Hsz Hrun given arr.
  destruct (pool_init_true s sizes count Hwf Hc Hlen Hsz)
    as (Hcount & Hval & L & HL); [rewrite Hrun; reflexivity | ].
  destruct (pool_init_ok s sizes count L Hwf Hcount Hlen Hval HL)
    as (s2 & Hrun2 & _ & Hpre & _).
  rewrite Hrun in Hrun2. inversion Hrun2; subst s2. clear Hrun2.
  unfold classes_of in Hpre. fold given in Hpre, Hval. fold arr in Hpre.
  assert (Hq : qsort qsort_cmp given = sort_desc given).
  { apply qsort_int_range. eapply Forall_impl; [ | exact Hval].
    intros a. apply valid_size_int_range. }
  assert (Hd : desc arr) by (rewrite Hpre; apply sort_desc_desc).
  split; [rewrite Hpre; apply sort_desc_perm | ].
  split; [exact Hd | ]. split; [ | split; [ | split]].
  - intros i j Hi Hij Hj.
    assert (Hlarr : length arr = Z.to_nat count).
    { rewrite Hpre. unfold sort_desc, given.
      rewrite qsort_length, length_firstn. lia. }
    pose proof (desc_nth arr (Z.to_nat i) (Z.to_nat j) Hd) as Hn.
    unfold arr in Hn at 2 3. rewrite !nth_firstn in Hn.
    destruct (Nat.ltb_spec (Z.to_nat i) (Z.to_nat count)); [ | lia].
    destruct (Nat.ltb_spec (Z.to_nat j) (Z.to_nat count)); [ | lia].
    unfold aget. apply Z.le_ge. apply Hn; lia.
  - eapply Forall_impl; [ | exact Hval].
    unfold valid_size, HEAP_SIZE. intros; lia.
  - rewrite Hq. exact Hpre.
  - exact Hq.
Qed.

(** ** Layout arithmetic *)

Lemma spec_layout_length classes : forall rem cur L,
  spec_layout classes rem cur = Some L -> length L = length classes.
Proof.
  induction classes as [|c rest IH]; intros rem cur L H; cbn [spec_layout] in H.
  - inversion H. reflexivity.
  - destruct (_ >? rem); [discriminate | ].
    destruct (spec_layout rest _ _) as [L'|] eqn:E; [ | discriminate].
    inversion H. cbn [length]. f_equal. eapply IH. exact E.
Qed.

Lemma spec_layout_nth classes : forall rem cur L,
  spec_layout classes rem cur = Some L -> rem = HEAP_SIZE - cur ->
  forall i pt, nth_error L i = Some pt ->
    pt_start pt = cur + bytes_before L i /\
    pt_psize pt = spec_partition_bytes (pt_bsize pt) (HEAP_SIZE - pt_start pt)
                                       (Z.of_nat (length L) - Z.of_nat i).
Proof.
  induction classes as [|c rest IH]; intros rem cur L H Hrem i pt Hi.
  - cbn [spec_layout] in H. inversion H; subst L. destruct i; discriminate.
  - pose proof (spec_layout_length _ _ _ _ H) as Hlen.
    cbn [spec_layout] in H.
    set (P := spec_partition_bytes c rem (Z.of_nat (length (c :: rest)))) in *.
    destruct (P >? rem); [discriminate | ].
    destruct (spec_layout rest _ _) as [L'|] eqn:E; [ | discriminate].
    inversion H; subst L. clear H.
    destruct i as [|i]; cbn [nth_error] in Hi.
    + inversion Hi; subst pt. cbn [pt_start pt_psize pt_bsize].
      unfold bytes_before. cbn [firstn fold_right].
      split; [lia | ].
      rewrite Hlen, <- Hrem, Z.sub_0_r. reflexivity.
    + destruct (IH _ _ _ E eq_refl i pt Hi) as (H1 & H2).
      split.
      * rewrite H1. unfold bytes_before. cbn [firstn fold_right pt_psize].
        lia.
      * rewrite H2. f_equal. cbn [length]. lia.
Qed.

Lemma chain_blocks_next h T m : forall idx,
  chain h (match m with O => 0 | S _ => idx + 3 end) (blocks_from idx T m) ->
  forall k, 0 <= k < Z.of_nat m ->
    rd16 h (idx + k * T)
    = if k + 1 <? Z.of_nat m then idx + (k + 1) * T + 3 else 0.
Proof.
  induction m as [|m IH]; intros idx Hch k Hk; [lia | ].
  cbn [blocks_from] in Hch. unfold METADATA_LENGTH in Hch.
  inversion Hch as [|off l Hoff Hrest]; subst.
  unfold METADATA_LENGTH in Hrest.
  replace (idx + 3 - 3) with idx in Hrest by lia.
  assert (Hnext : rd16 h idx
                  = match m with O => 0 | S _ => idx + T + 3 end).
  { destruct m as [|m]; cbn [blocks_from] in Hrest;
      inversion Hrest; subst; try congruence.
    unfold METADATA_LENGTH in *. congruence. }
  destruct (Z.eq_dec k 0) as [-> | Hne].
  - rewrite Z.mul_0_l, Z.add_0_r, Hnext.
    destruct m as [|m].
    + reflexivity.
    + destruct (0 + 1 <? Z.of_nat (S (S m))) eqn:E;
        [f_equal; lia | apply Z.ltb_ge in E; lia].
  - rewrite Hnext in Hrest.
    pose proof (IH (idx + T) Hrest (k - 1) ltac:(lia)) as Hk1.
    replace (idx + T + (k - 1) * T) with (idx + k * T) in Hk1 by ring.
    rewrite Hk1.
    replace (k - 1 + 1) with k by lia.
    replace (idx + T + k * T + 3) with (idx + (k + 1) * T + 3) by ring.
    destruct (k <? Z.of_nat m) eqn:E1; destruct (k + 1 <? Z.of_nat (S m)) eqn:E2;
      try reflexivity; exfalso.
    + apply Z.ltb_lt in E1. apply Z.ltb_ge in E2. lia.
    + apply Z.ltb_ge in E1. apply Z.ltb_lt in E2. lia.
Qed.

(** C4. In a successful [pool_init], class [i] (in descending size order)
    with size [s], stride [T = s + 3] and equal share
    [E = remaining / (N - i)] receives exactly [P = max(T, E - (E mod T))]
    bytes starting at the cursor; its free-list head is [cursor + 3]; and
    the headers of its [P / T] blocks, at stride [T], carry the class index
    and link each block to the payload of the next, the last one to 0.
    After [pool_init([53360, 1], 2)], if the first [pool_malloc(2)] returns
    payload offset [H], the next three [pool_malloc(1)] return [H + 53363],
    [H + 53367] and [H + 53371]. *)
Theorem layout_arithmetic :
  (forall s sizes count s' L,
     wf_state s -> 0 <= count ->
     (Z.to_nat count <= length sizes)%nat -> Forall size_t sizes ->
     pool_init s (Some sizes) count = (true, s') ->
     spec_layout (classes_of sizes count) HEAP_SIZE 0 = Some L ->
     Z.of_nat (length L) = count /\
     forall i pt, nth_error L i = Some pt ->
       let sz := aget (sorted_block_size_arr s') (Z.of_nat i) in
       let T := sz + 3 in
       let cursor := bytes_before L i in
       let remaining := HEAP_SIZE - cursor in
       let E := remaining / (count - Z.of_nat i) in
       let P := Z.max T (E - (E mod T)) in
       pt_bsize pt = sz /\ pt_start pt = cursor /\ pt_psize pt = P /\
       cursor + P <= HEAP_SIZE /\
       aget (freelist_head_arr s') (Z.of_nat i) = cursor + 3 /\
       forall k, 0 <= k < P / T ->
         let header := heap_ptr (cursor + k * T) in
         get_partition_number (g_pool_heap s') header = Z.of_nat i /\
         get_next_freelist_offset (g_pool_heap s') header
         = if k + 1 <? P / T then cursor + (k + 1) * T + 3 else 0) /\
  fst (pool_init zero_state (Some [53360; 1]) 2) = true /\
  fst (pool_malloc uneven_state 2) = heap_ptr 3 /\
  (forall H, fst (pool_malloc uneven_state 2) = heap_ptr H ->
     fst (malloc_n 3 (snd (pool_malloc uneven_state 2)) 1)
     = [heap_ptr (H + 53363); heap_ptr (H + 53367); heap_ptr (H + 53371)]).
Proof.
  split; [ | split; [ | split]].
  - intros s sizes count s' L Hwf Hc Hlen Hsz Hrun Hlay.
    destruct (inv_init s sizes count L s' Hwf Hc Hlen Hsz Hrun Hlay)
      as (HL & Hb & I & Hcls).
    assert (HlenL : Z.of_nat (length L) = count).
    { rewrite <- (length_map pt_bsize), Hb, classes_of_length by exact Hlen.
      lia. }
    split; [exact HlenL | ].
    intros i pt Hi sz T cursor remaining E P.
    destruct (spec_layout_nth _ _ _ _ Hlay eq_refl i pt Hi) as (Hst & Hps).
    pose proof (inv_sizes L s' [] I i pt Hi) as Hsize. fold sz in Hsize.
    rewrite Z.add_0_l in Hst. fold cursor in Hst.
    rewrite Hst, <- Hsize, HlenL in Hps.
    fold remaining in Hps. unfold spec_partition_bytes in Hps.
    fold T in Hps. fold E in Hps. cbv zeta in Hps. fold P in Hps.
    pose proof (nth_part_ok L i pt HL Hi) as (_ & Hend & _ & Hm & _).
    destruct (Hcls i pt Hi) as (Hhd & Hch & Htag).
    split; [symmetry; exact Hsize | ]. split; [exact Hst | ].
    split; [exact Hps | ]. split; [lia | ].
    split; [rewrite Hhd, Hst; reflexivity | ].
    assert (HT : stride pt = T)
      by (unfold stride, METADATA_LENGTH, T; rewrite Hsize; reflexivity).
    unfold blocks_of, block_count in Hch, Htag.
    rewrite HT, Hps, Hst in Hch, Htag. rewrite HT, Hps in Hm.
    intros k Hk header. split.
    + unfold get_partition_number, header.
      change (load8 (g_pool_heap s') (ptr_add (heap_ptr (cursor + k * T)) 2))
        with (g_pool_heap s' (cursor + k * T + 2)).
      replace (cursor + k * T + 2) with (cursor + 3 + k * T - 1) by lia.
      apply Htag. apply blocks_from_In. exists k.
      rewrite Z2Nat.id by lia. split; [lia | reflexivity].
    + unfold get_next_freelist_offset, header. rewrite load16_heap.
      pose proof (chain_blocks_next (g_pool_heap s') T (Z.to_nat (P / T))
                                    cursor) as Hn.
      rewrite Z2Nat.id in Hn by lia. apply Hn; [ | exact Hk].
      destruct (Z.to_nat (P / T)) eqn:Em; [lia | exact Hch].
  - vm_compute. reflexivity.
  - vm_compute. reflexivity.
  - intros H HH.
    assert (H3 : fst (pool_malloc uneven_state 2) = heap_ptr 3)
      by (vm_compute; reflexivity).
    rewrite H3 in HH. inversion HH; subst H.
    vm_compute. reflexivity.
Qed.

(** ** Exhaustion *)

Lemma avail_from_nil L n : forall i, avail_from L i [] n = fit_count L n.
Proof.
  induction L as [|pt L IH]; intros i; cbn [avail_from fit_count fold_right].
  - reflexivity.
  - rewrite IH. unfold held_of. cbn [filter map length].
    rewrite Nat.sub_0_r. reflexivity.
Qed.

Lemma avail_from_pos L n held : forall i0,
  (0 < avail_from L i0 held n)%nat ->
  exists j pt, nth_error L j = Some pt /\ n <= pt_bsize pt /\
               (length (held_of (i0 + j) held) < block_count pt)%nat.
Proof.
  induction L as [|pt L IH]; intros i0 H; cbn [avail_from] in H; [lia | ].
  destruct (n <=? pt_bsize pt) eqn:E.
  - destruct (Nat.eq_dec (block_count pt - length (held_of i0 held)) 0)
      as [Hz | Hnz].
    + rewrite Hz in H. destruct (IH (S i0) H) as (j & ptj & Hj & Hn & Hl).
      exists (S j), ptj. replace (i0 + S j)%nat with (S i0 + j)%nat by lia.
      auto.
    + exists 0%nat, pt. rewrite Nat.add_0_r. apply Z.leb_le in E.
      repeat split; [exact E | lia].
  - destruct (IH (S i0) H) as (j & ptj & Hj & Hn & Hl).
    exists (S j), ptj. replace (i0 + S j)%nat with (S i0 + j)%nat by lia.
    auto.
Qed.

Lemma avail_from_other L n held i off : forall i0,
  (i < i0)%nat ->
  avail_from L i0 ((i, off) :: held) n = avail_from L i0 held n.
Proof.
  induction L as [|pt L IH]; intros i0 Hlt; cbn [avail_from]; [reflexivity | ].
  rewrite IH by lia. rewrite held_of_cons.
  destruct (Nat.eqb_spec i i0); [lia | reflexivity].
Qed.

Lemma avail_from_step L n held off : forall i0 j pt,
  nth_error L j = Some pt -> n <= pt_bsize pt ->
  (length (held_of (i0 + j) held) < block_count pt)%nat ->
  S (avail_from L i0 ((i0 + j, off)%nat :: held) n) = avail_from L i0 held n.
Proof.
  induction L as [|pt0 L IH]; intros i0 j pt Hj Hn Hl; [destruct j; discriminate | ].
  cbn [avail_from]. destruct j as [|j]; cbn [nth_error] in Hj.
  - inversion Hj; subst pt0. rewrite Nat.add_0_r in *.
    rewrite avail_from_other by lia.
    rewrite held_of_cons, Nat.eqb_refl. cbn [length].
    destruct (n <=? pt_bsize pt) eqn:E; [lia | apply Z.leb_gt in E; lia].
  - replace (i0 + S j)%nat with (S i0 + j)%nat in * by lia.
    rewrite <- (IH (S i0) j pt Hj Hn Hl).
    rewrite held_of_cons.
    destruct (Nat.eqb_spec (S i0 + j) i0); [lia | ]. lia.
Qed.

Lemma malloc_n_S k s n :
  fst (malloc_n (S k) s n)
  = fst (pool_malloc s n) :: fst (malloc_n k (snd (pool_malloc s n)) n) /\
  snd (malloc_n (S k) s n) = snd (malloc_n k (snd (pool_malloc s n)) n).
Proof.
  cbn [malloc_n]. destruct (pool_malloc s n) as [p s1]. cbn [fst snd].
  destruct (malloc_n k s1 n) as [l s2]. auto.
Qed.

Lemma inv_free_length L s held i pt :
  layout_ok L -> inv L s held -> nth_error L i = Some pt ->
  exists l, chain (g_pool_heap s) (aget (freelist_head_arr s) (Z.of_nat i)) l /\
            (length l + length (held_of i held) = block_count pt)%nat.
Proof.
  intros HL I Hi. destruct (inv_chain L s held I i pt Hi) as (l & Hch & Hp).
  exists l. split; [exact Hch | ].
  apply Permutation_length in Hp.
  rewrite length_app, blocks_of_length in Hp. exact Hp.
Qed.

Lemma malloc_class_avail L s held n :
  layout_ok L -> inv L s held -> 1 <= n ->
  (malloc_class s n = None <-> avail_from L 0 held n = 0%nat).
Proof.
  intros HL I Hn.
  pose proof (inv_wf L s held I) as Hwf.
  pose proof (inv_count L s held I) as Hcnt.
  split.
  - intros Hnone.
    destruct (Nat.eq_dec (avail_from L 0 held n) 0) as [ | Hpos]; [assumption | ].
    exfalso.
    destruct (avail_from_pos L n held 0%nat ltac:(lia))
      as (j & pt & Hj & Hfit & Hl).
    cbn [Nat.add] in Hl.
    destruct (inv_free_length L s held j pt HL I Hj) as (l & Hch & Hlen).
    assert (Hjlt : (j < length L)%nat) by (apply nth_error_Some; congruence).
    assert (Hhd : aget (freelist_head_arr s) (Z.of_nat j) <> 0).
    { intros Hz. apply (chain_head_zero _ _ _ Hch) in Hz. subst l.
      cbn [length] in Hlen. lia. }
    pose proof (inv_sizes L s held I j pt Hj) as Hsz.
    pose proof (inv_sizes_desc L s held 0 j HL I ltac:(lia) Hjlt) as Hd.
    cbn [Z.of_nat] in Hd.
    unfold malloc_class in Hnone.
    destruct (n =? 0) eqn:E0; [apply Z.eqb_eq in E0; lia | ].
    destruct (n >? aget (sorted_block_size_arr s) 0) eqn:E1; [lia | ].
    cbn [orb] in Hnone.
    destruct Hwf as (_ & _ & Hc & _).
    rewrite to_int_small in Hnone by lia.
    rewrite find_partition_none in Hnone. rewrite Z2Nat.id in Hnone by lia.
    destruct (Hnone (Z.of_nat j)); lia.
  - intros Hz. destruct (malloc_class s n) as [i|] eqn:Hcl; [ | reflexivity].
    exfalso.
    pose proof (malloc_class_bounds s n i Hwf Hcl)
      as (Hi & _ & _ & Hhd & Hfit & _).
    destruct (inv_malloc L s held n i HL I Hcl)
      as (off & l & pt & Hpt & Hoff & Hch & _ & _).
    destruct (inv_free_length L s held _ pt HL I Hpt) as (l' & Hch' & Hlen).
    rewrite Z2Nat.id in Hch' by lia. rewrite <- Hoff in Hch'.
    rewrite (chain_fun _ _ _ Hch' _ Hch) in Hlen. cbn [length] in Hlen.
    pose proof (inv_sizes L s held I _ pt Hpt) as Hsz.
    rewrite Z2Nat.id in Hsz by lia.
    pose proof (avail_from_step L n held off 0%nat (Z.to_nat i) pt Hpt
                  ltac:(lia) ltac:(cbn [Nat.add]; lia)) as Hstep.
    lia.
Qed.

Lemma malloc_n_exhaust L n K : forall s held,
  layout_ok L -> inv L s held -> 1 <= n ->
  avail_from L 0 held n = K ->
  Forall (fun p => p <> NULL) (fst (malloc_n K s n)) /\
  length (fst (malloc_n K s n)) = K /\
  fst (pool_malloc (snd (malloc_n K s n)) n) = NULL.
Proof.
  induction K as [|K IH]; intros s held HL I Hn Hav.
  - cbn [malloc_n fst snd length]. split; [constructor | ].
    split; [reflexivity | ].
    rewrite pool_malloc_class by apply (inv_wf L s held I).
    apply (malloc_class_avail L s held n HL I Hn) in Hav.
    rewrite Hav. reflexivity.
  - destruct (malloc_class s n) as [i|] eqn:Hcl.
    + pose proof (malloc_class_bounds s n i (inv_wf L s held I) Hcl)
        as (Hi & _ & _ & Hhd & Hfit & _).
      destruct (inv_malloc L s held n i HL I Hcl)
        as (off & l & pt & Hpt & Hoff & Hch & Hrun & I').
      destruct (inv_free_length L s held _ pt HL I Hpt) as (l' & Hch' & Hlen).
      rewrite (inv_count L s held I) in Hi.
      rewrite Z2Nat.id in Hch' by lia. rewrite <- Hoff in Hch'.
      rewrite (chain_fun _ _ _ Hch' _ Hch) in Hlen. cbn [length] in Hlen.
      pose proof (inv_sizes L s held I _ pt Hpt) as Hsz.
      rewrite Z2Nat.id in Hsz by lia.
      pose proof (avail_from_step L n held off 0%nat (Z.to_nat i) pt Hpt
                    ltac:(lia) ltac:(cbn [Nat.add]; lia)) as Hstep.
      cbn [Nat.add] in Hstep.
      destruct (malloc_n_S K s n) as (Hf & Hs). rewrite Hf, Hs.
      rewrite Hrun in *. cbn [fst snd p_ofs heap_ptr] in *.
      destruct (IH _ _ HL I' Hn ltac:(lia)) as (Hall & Hl & Hnull).
      split; [constructor; [discriminate | exact Hall] | ].
      split; [cbn [length]; rewrite Hl; reflexivity | exact Hnull].
    + apply (malloc_class_avail L s held n HL I Hn) in Hcl. lia.
Qed.

(** C5, as amended.  Starting from a fresh successful [pool_init], for every
    request size [n >= 1], in particular the block size of any class, the
    number of successful [pool_malloc(n)] calls before the next one returns
    NULL is the number of blocks laid out for all the classes whose block
    size is at least [n]: requests spill into the larger classes and into
    the classes of equal size.  With a single class this is the number of
    blocks of that class; after [pool_init([1], 1)] exactly 16384 calls
    return non-null and the 16385th returns NULL. *)
Theorem exhaustion_precision :
  (forall pre sizes count s0 L,
     wf_state pre -> 0 <= count ->
     (Z.to_nat count <= length sizes)%nat -> Forall size_t sizes ->
     pool_init pre (Some sizes) count = (true, s0) ->
     spec_layout (classes_of sizes count) HEAP_SIZE 0 = Some L ->
     (forall i, 0 <= i < count -> 1 <= aget (sorted_block_size_arr s0) i) /\
     forall n, 1 <= n ->
       let K := fit_count L n in
       Forall (fun p => p <> NULL) (fst (malloc_n K s0 n)) /\
       length (fst (malloc_n K s0 n)) = K /\
       fst (pool_malloc (snd (malloc_n K s0 n)) n) = NULL) /\
  (forall pt, fit_count [pt] (pt_bsize pt) = block_count pt) /\
  fst (pool_init zero_state (Some [1]) 1) = true /\
  Forall (fun p => p <> NULL) (fst (malloc_n (Z.to_nat 16384) single_state 1)) /\
  length (fst (malloc_n (Z.to_nat 16384) single_state 1)) = Z.to_nat 16384 /\
  fst (pool_malloc (snd (malloc_n (Z.to_nat 16384) single_state 1)) 1) = NULL.
Proof.
  assert (Hgen : forall pre sizes count s0 L,
     wf_state pre -> 0 <= count ->
     (Z.to_nat count <= length sizes)%nat -> Forall size_t sizes ->
     pool_init pre (Some sizes) count = (true, s0) ->
     spec_layout (classes_of sizes count) HEAP_SIZE 0 = Some L ->
     (forall i, 0 <= i < count -> 1 <= aget (sorted_block_size_arr s0) i) /\
     forall n, 1 <= n ->
       let K := fit_count L n in
       Forall (fun p => p <> NULL) (fst (malloc_n K s0 n)) /\
       length (fst (malloc_n K s0 n)) = K /\
       fst (pool_malloc (snd (malloc_n K s0 n)) n) = NULL).
  { intros pre sizes count s0 L Hwf Hc Hlen Hsz Hrun Hlay.
    destruct (inv_init pre sizes count L s0 Hwf Hc Hlen Hsz Hrun Hlay)
      as (HL & Hb & I & _).
    split.
    - intros i Hi.
      assert (HlenL : Z.of_nat (length L) = count).
      { rewrite <- (length_map pt_bsize), Hb, classes_of_length by exact Hlen.
        lia. }
      destruct (nth_error_lt L (Z.to_nat i)) as (pt & Hpt); [lia | ].
      pose proof (inv_sizes L s0 [] I _ pt Hpt) as Hs.
      rewrite Z2Nat.id in Hs by lia. rewrite Hs.
      pose proof (nth_part_ok L _ pt HL Hpt) as (_ & _ & Hv & _).
      apply Hv.
    - intros n Hn K.
      apply (malloc_n_exhaust L n K s0 [] HL I Hn).
      apply avail_from_nil. }
  assert (Hinit : fst (pool_init zero_state (Some [1]) 1) = true)
    by (vm_compute; reflexivity).
  split; [exact Hgen | ]. split; [ | split; [exact Hinit | ]].
  - intros pt. unfold fit_count. cbn [fold_right].
    rewrite Z.leb_refl. lia.
  - assert (Hrun : pool_init zero_state (Some [1]) 1 = (true, single_state)).
    { unfold single_state.
      rewrite (surjective_pairing (pool_init zero_state (Some [1]) 1)) at 1.
      rewrite Hinit. reflexivity. }
    assert (HK : fit_count [mkPart 0 1 65536] 1 = Z.to_nat 16384)
      by (vm_compute; reflexivity).
    rewrite <- HK.
    apply (Hgen zero_state [1] 1 single_state [mkPart 0 1 65536]);
      try exact Hrun; try reflexivity; try lia.
    + apply wf_zero_state.
    + repeat constructor; unfold size_t; lia.
Qed.

(** C5 as stated fails: with the classes [30000] and [20000], one block is
    laid out for the class of size 20000, yet two successive
    [pool_malloc(20000)] succeed (the second one is served from the class
    of size 30000) before the third returns NULL. *)
Lemma exhaustion_counterexample :
  pool_init zero_state (Some two_sizes) 2 = (true, two_state) /\
  spec_layout (classes_of two_sizes 2) HEAP_SIZE 0 = Some two_layout /\
  aget (sorted_block_size_arr two_state) 1 = 20000 /\
  length (blocks_of (mkPart 30003 20000 20003)) = 1%nat /\
  fst (malloc_n 3 two_state 20000) = [heap_ptr 30006; heap_ptr 3; NULL].
Proof.
  split; [ | split; [ | split; [ | split]]].
  - unfold two_state.
    rewrite (surjective_pairing (pool_init zero_state (Some two_sizes) 2)) at 1.
    f_equal.
  - reflexivity.
  - vm_compute. reflexivity.
  - reflexivity.
  - vm_compute. reflexivity.
Qed.

(** ** LIFO recycling *)

Lemma pool_free_held L s held i p :
  layout_ok L -> inv L s held -> In (i, p) held ->
  let hd := aget (freelist_head_arr s) (Z.of_nat i) in
  pool_free s (heap_ptr p)
  = mkState (wr16 (g_pool_heap s) (p - 3) hd)
            (aset (freelist_head_arr s) (Z.of_nat i) p)
            (sorted_block_size_arr s) (block_size_count_var s)
            (g_pool_heap_start s) /\
  0 <= hd < 65536 /\ 3 <= p < 65536.
Proof.
  intros HL I Hin hd.
  pose proof (inv_held L s held I i p Hin) as Hi.
  destruct (nth_error_lt L i Hi) as (pt & Hpt).
  pose proof (inv_held_block L s held i p pt I Hin Hpt) as Hp.
  pose proof (block_range L i pt p HL Hpt Hp) as Hpr.
  pose proof (inv_tag L s held I i pt p Hpt Hp) as Htag.
  rewrite pool_free_heap by apply (inv_base L s held I).
  cbv zeta. rewrite Htag. rewrite (to_u16_small p) by lia.
  split; [reflexivity | ]. split; [ | exact Hpr].
  destruct (inv_chain L s held I i pt Hpt) as (l & Hch & Hperm).
  destruct (chain_head_in _ _ _ Hch) as [Hz | Hhin];
    [unfold hd; rewrite Hz; lia | ].
  assert (3 <= hd < 65536); [ | lia].
  eapply (block_range L i pt); eauto.
  eapply Permutation_in; [exact Hperm | ].
  apply in_or_app. left. exact Hhin.
Qed.



(** ** Failed initialisation *)






(** * The theorems at concrete inputs *)

Lemma two_init : pool_init zero_state (Some two_sizes) 2 = (true, two_state).
Proof.
  unfold two_state.
  rewrite (surjective_pairing (pool_init zero_state (Some two_sizes) 2)) at 1.
  f_equal.
Qed.

Lemma two_sizes_size_t : Forall size_t two_sizes.
Proof. repeat constructor; unfold size_t; lia. Qed.

Lemma two_reach0 : reach two_layout two_state two_state [].
Proof.
  apply (reach_init two_layout two_state zero_state two_sizes 2).
  - apply wf_zero_state.
  - lia.
  - cbn. lia.
  - apply two_sizes_size_t.
  - apply two_init.
  - reflexivity.
Qed.

Lemma two_reach1 : reach two_layout two_state two_held_state two_held.
Proof.
  assert (Hc : malloc_class two_state 20000 = Some 1)
    by (vm_compute; reflexivity).
  pose proof (reach_malloc two_layout two_state two_state [] 20000 1
                           two_reach0 Hc) as H.
  assert (Ho : p_ofs (fst (pool_malloc two_state 20000)) = 30006)
    by (vm_compute; reflexivity).
  rewrite Ho in H. exact H.
Qed.

Lemma block_conservation_witness :
  reach two_layout two_state two_held_state two_held /\
  (block_size_count_var two_held_state = Z.of_nat (length two_layout) /\
   forall i pt, nth_error two_layout i = Some pt ->
                conserved two_layout two_state two_held_state two_held i pt).
Proof.
  split; [exact two_reach1 | ].
  exact (block_conservation two_layout two_state two_held_state two_held
                            two_reach1).
Defined.

Lemma malloc_contract_witness :
  reach two_layout two_state two_held_state two_held /\
  let s := two_held_state in
  let n := 20000 in
  let N := block_size_count_var s in
  let sz := aget (sorted_block_size_arr s) in
  let hd := aget (freelist_head_arr s) in
  (fst (pool_malloc s n) = NULL <->
   n = 0 \/ n > sz 0 \/ (forall i, 0 <= i < N -> sz i >= n -> hd i = 0)) /\
  (fst (pool_malloc s n) <> NULL ->
   exists i,
     0 <= i < N /\ sz i >= n /\ hd i <> 0 /\
     (forall j, i < j < N -> ~ (sz j >= n /\ hd j <> 0)) /\
     (forall j, 0 <= j < N -> sz j >= n -> hd j <> 0 -> sz i <= sz j) /\
     pool_malloc s n
     = (heap_ptr (hd i),
        with_heads s (aset (freelist_head_arr s) i
                           (rd16 (g_pool_heap s) (hd i - 3))))).
Proof.
  split; [exact two_reach1 | ].
  exact (malloc_contract two_layout two_state two_held_state two_held 20000
                         two_reach1).
Defined.

Lemma five_sizes_ok l :
  Some five_sizes = Some l -> (Z.to_nat 5 <= length l)%nat /\ Forall size_t l.
Proof.
  intros H. inversion H; subst l. split; [cbn; lia | ].
  repeat constructor; unfold size_t; lia.
Qed.

Lemma init_contract_witness :
  wf_state zero_state /\ 0 <= 5 /\
  (forall l, Some five_sizes = Some l ->
             (Z.to_nat 5 <= length l)%nat /\ Forall size_t l) /\
  ((fst (pool_init zero_state (Some five_sizes) 5) = true <->
    exists sizes L,
      Some five_sizes = Some sizes /\
      1 <= 5 <= 255 /\
      Forall (fun x => 1 <= x <= 65533) (firstn (Z.to_nat 5) sizes) /\
      spec_layout (classes_of sizes 5) HEAP_SIZE 0 = Some L) /\
   fst (pool_init zero_state (Some [65533]) 1) = true /\
   fst (pool_init zero_state (Some [65534]) 1) = false).
Proof.
  split; [exact wf_zero_state | ]. split; [lia | ].
  split; [exact five_sizes_ok | ].
  apply (init_contract zero_state (Some five_sizes) 5 wf_zero_state);
    [lia | exact five_sizes_ok].
Defined.

Lemma five_init : pool_init zero_state (Some five_sizes) 5 = (true, five_state).
Proof.
  unfold five_state.
  rewrite (surjective_pairing (pool_init zero_state (Some five_sizes) 5)) at 1.
  f_equal.
Qed.

Lemma five_sizes_size_t : Forall size_t five_sizes.
Proof. repeat constructor; unfold size_t; lia. Qed.

Lemma sorted_after_init_witness :
  wf_state zero_state /\ 0 <= 5 /\
  (Z.to_nat 5 <= length five_sizes)%nat /\ Forall size_t five_sizes /\
  pool_init zero_state (Some five_sizes) 5 = (true, five_state) /\
  let given := firstn (Z.to_nat 5) five_sizes in
  let arr := firstn (Z.to_nat 5) (sorted_block_size_arr five_state) in
  Permutation arr given /\
  desc arr /\
  (forall i j, 0 <= i -> i < j -> j < 5 ->
     aget (sorted_block_size_arr five_state) i
     >= aget (sorted_block_size_arr five_state) j) /\
  Forall (fun x => 1 <= x <= 65533) given /\
  arr = qsort qsort_cmp given /\
  qsort qsort_cmp given = sort_desc given.
Proof.
  assert (Hlen : (Z.to_nat 5 <= length five_sizes)%nat) by (cbn; lia).
  split; [exact wf_zero_state | ]. split; [lia | ].
  split; [exact Hlen | ]. split; [exact five_sizes_size_t | ].
  split; [exact five_init | ].
  apply (sorted_after_init zero_state five_sizes 5 five_state wf_zero_state);
    [lia | exact Hlen | exact five_sizes_size_t | exact five_init].
Defined.

Lemma wf_two_state : wf_state two_state.
Proof.
  unfold two_state. apply pool_init_wf; [apply wf_zero_state | lia].
Qed.

Lemma malloc_frame_witness :
  wf_state two_state /\
  let s := two_state in
  let n := 20000 in
  let p := fst (pool_malloc s n) in
  let s' := snd (pool_malloc s n) in
  g_pool_heap s' = g_pool_heap s /\
  sorted_block_size_arr s' = sorted_block_size_arr s /\
  block_size_count_var s' = block_size_count_var s /\
  g_pool_heap_start s' = g_pool_heap_start s /\
  (p = NULL -> s' = s) /\
  (p <> NULL ->
   exists i, malloc_class s n = Some i /\
     let header := ptr_add p (- METADATA_LENGTH) in
     freelist_head_arr s'
     = aset (freelist_head_arr s) i
            (get_next_freelist_offset (g_pool_heap s) header) /\
     (forall j, 0 <= j -> j <> i ->
                aget (freelist_head_arr s') j = aget (freelist_head_arr s) j)).
Proof.
  split; [exact wf_two_state | ].
  exact (malloc_frame two_state 20000 wf_two_state).
Defined.

Lemma uneven_init :
  pool_init zero_state (Some uneven_sizes) 2 = (true, uneven_state).
Proof.
  unfold uneven_state.
  rewrite (surjective_pairing (pool_init zero_state (Some uneven_sizes) 2)) at 1.
  f_equal.
Qed.

Lemma uneven_size_t : Forall size_t uneven_sizes.
Proof. repeat constructor; unfold size_t; lia. Qed.

Lemma layout_arithmetic_witness :
  wf_state zero_state /\ 0 <= 2 /\
  (Z.to_nat 2 <= length uneven_sizes)%nat /\ Forall size_t uneven_sizes /\
  pool_init zero_state (Some uneven_sizes) 2 = (true, uneven_state) /\
  spec_layout (classes_of uneven_sizes 2) HEAP_SIZE 0 = Some uneven_layout /\
  Z.of_nat (length uneven_layout) = 2 /\
  forall i pt, nth_error uneven_layout i = Some pt ->
    let sz := aget (sorted_block_size_arr uneven_state) (Z.of_nat i) in
    let T := sz + 3 in
    let cursor := bytes_before uneven_layout i in
    let remaining := HEAP_SIZE - cursor in
    let E := remaining / (2 - Z.of_nat i) in
    let P := Z.max T (E - (E mod T)) in
    pt_bsize pt = sz /\ pt_start pt = cursor /\ pt_psize pt = P /\
    cursor + P <= HEAP_SIZE /\
    aget (freelist_head_arr uneven_state) (Z.of_nat i) = cursor + 3 /\
    forall k, 0 <= k < P / T ->
      let header := heap_ptr (cursor + k * T) in
      get_partition_number (g_pool_heap uneven_state) header = Z.of_nat i /\
      get_next_freelist_offset (g_pool_heap uneven_state) header
      = if k + 1 <? P / T then cursor + (k + 1) * T + 3 else 0.
Proof.
  assert (Hlen : (Z.to_nat 2 <= length uneven_sizes)%nat) by (cbn; lia).
  assert (Hlay : spec_layout (classes_of uneven_sizes 2) HEAP_SIZE 0
                 = Some uneven_layout) by reflexivity.
  split; [exact wf_zero_state | ]. split; [lia | ].
  split; [exact Hlen | ]. split; [exact uneven_size_t | ].
  split; [exact uneven_init | ]. split; [exact Hlay | ].
  apply (proj1 layout_arithmetic zero_state uneven_sizes 2 uneven_state
               uneven_layout wf_zero_state);
    [lia | exact Hlen | exact uneven_size_t | exact uneven_init | exact Hlay].
Defined.

Lemma exhaustion_precision_witness :
  wf_state zero_state /\ 0 <= 2 /\
  (Z.to_nat 2 <= length two_sizes)%nat /\ Forall size_t two_sizes /\
  pool_init zero_state (Some two_sizes) 2 = (true, two_state) /\
  spec_layout (classes_of two_sizes 2) HEAP_SIZE 0 = Some two_layout /\
  1 <= 20000 /\
  (forall i, 0 <= i < 2 -> 1 <= aget (sorted_block_size_arr two_state) i) /\
  let K := fit_count two_layout 20000 in
  Forall (fun p => p <> NULL) (fst (malloc_n K two_state 20000)) /\
  length (fst (malloc_n K two_state 20000)) = K /\
  fst (pool_malloc (snd (malloc_n K two_state 20000)) 20000) = NULL.
Proof.
  assert (Hlen : (Z.to_nat 2 <= length two_sizes)%nat) by (cbn; lia).
  assert (Hlay : spec_layout (classes_of two_sizes 2) HEAP_SIZE 0
                 = Some two_layout) by reflexivity.
  split; [exact wf_zero_state | ]. split; [lia | ].
  split; [exact Hlen | ]. split; [exact two_sizes_size_t | ].
  split; [exact two_init | ]. split; [exact Hlay | ]. split; [lia | ].
  destruct (proj1 exhaustion_precision zero_state two_sizes 2 two_state
                  two_layout wf_zero_state) as [Hsizes Hcount];
    [lia | exact Hlen | exact two_sizes_size_t | exact two_init | exact Hlay
     | ].
  split; [exact Hsizes | ]. apply Hcount. lia.
Defined.

Lemma two_held_in : In (1%nat, 30006) two_held.
Proof. left. reflexivity. Qed.





(** * Further properties of the three operations *)

(** ** Auxiliary facts *)

Lemma list_set_twice l i x y : list_set (list_set l i x) i y = list_set l i y.
Proof.
  revert i. induction l as [|a t IH]; intros [|i]; simpl; try reflexivity.
  f_equal. apply IH.
Qed.

Lemma list_set_nth l i : list_set l i (nth i l 0) = l.
Proof.
  revert i. induction l as [|a t IH]; intros [|i]; simpl; try reflexivity.
  f_equal. apply IH.
Qed.

Lemma aset_twice a i x y : aset (aset a i x) i y = aset a i y.
Proof. apply list_set_twice. Qed.

Lemma aset_aget a i : aset a i (aget a i) = a.
Proof. apply list_set_nth. Qed.

Lemma chain_frame_rd16 h h' off l :
  chain h off l ->
  (forall q, In q l -> rd16 h' (q - 3) = rd16 h (q - 3)) ->
  chain h' off l.
Proof.
  induction 1 as [|off l Hoff Hc IH]; intros Hfr.
  - constructor.
  - constructor; [exact Hoff | ].
    unfold METADATA_LENGTH in *.
    rewrite (Hfr off (or_introl eq_refl)).
    apply IH. intros q Hq. apply Hfr. right. exact Hq.
Qed.

Lemma chain_cyclic h p :
  p <> 0 -> rd16 h (p - METADATA_LENGTH) = p -> forall l, ~ chain h p l.
Proof.
  intros Hp Hcyc l. induction l as [|x t IH]; intros Hch.
  - inversion Hch. congruence.
  - inversion Hch as [|off l' Hoff Hrest]; subst.
    rewrite Hcyc in Hrest. exact (IH Hrest).
Qed.

Lemma malloc_class_iff s n i :
  wf_state s ->
  (malloc_class s n = Some i <->
   0 <= i < block_size_count_var s /\
   n <> 0 /\ n <= aget (sorted_block_size_arr s) 0 /\
   aget (freelist_head_arr s) i <> 0 /\
   n <= aget (sorted_block_size_arr s) i /\
   forall j, i < j < block_size_count_var s ->
             aget (freelist_head_arr s) j = 0 \/
             aget (sorted_block_size_arr s) j < n).
Proof.
  intros Hwf. split; [apply malloc_class_bounds; exact Hwf | ].
  intros (Hi & Hn0 & Hn1 & Hhd & Hfit & Hscan).
  destruct Hwf as (_ & _ & Hc & _).
  unfold malloc_class.
  destruct (n =? 0) eqn:E0; [apply Z.eqb_eq in E0; contradiction | ].
  destruct (n >? aget (sorted_block_size_arr s) 0) eqn:E1; [lia | ].
  cbn [orb]. rewrite to_int_small by lia.
  destruct (find_partition _ _ _ n) as [i'|] eqn:Ef.
  - apply find_partition_some in Ef. rewrite Z2Nat.id in Ef by lia.
    destruct Ef as (Hi' & Hh' & Hs' & Hsc'). f_equal.
    destruct (Z.lt_trichotomy i' i) as [Hlt | [Heq | Hgt]].
    + exfalso. destruct (Hsc' i ltac:(lia)); lia.
    + exact Heq.
    + exfalso. destruct (Hscan i' ltac:(lia)); lia.
  - exfalso. rewrite find_partition_none in Ef.
    rewrite Z2Nat.id in Ef by lia. destruct (Ef i Hi); lia.
Qed.

Lemma in_held_offsets p held :
  In p (held_offsets held) <-> exists i, In (i, p) held.
Proof.
  unfold held_offsets. rewrite in_map_iff. split.
  - intros ([i q] & Hq & Hin). cbn in Hq. subst q. eauto.
  - intros (i & Hin). exists (i, p). auto.
Qed.

(** The block a successful [pool_malloc] hands out is one that no caller
    holds. *)
Lemma malloc_block_fresh L s held n i :
  layout_ok L -> inv L s held -> malloc_class s n = Some i ->
  ~ In (aget (freelist_head_arr s) i) (held_offsets held).
Proof.
  intros HL I Hcl Hin.
  destruct (inv_malloc L s held n i HL I Hcl)
    as (off & l & pt & Hpt & Hoff & Hch & _ & _).
  rewrite <- Hoff in Hin.
  pose proof (malloc_class_bounds s n i (inv_wf L s held I) Hcl) as (Hi & _).
  destruct (inv_chain L s held I _ pt Hpt) as (l0 & Hch0 & Hperm).
  rewrite Z2Nat.id in Hch0 by lia. rewrite <- Hoff in Hch0.
  rewrite (chain_fun _ _ _ Hch0 _ Hch) in Hperm.
  assert (Hnd : NoDup ((off :: l) ++ held_of (Z.to_nat i) held)).
  { eapply Permutation_NoDup; [apply Permutation_sym, Hperm | ].
    apply blocks_of_NoDup. eapply nth_part_ok; eauto. }
  assert (Hob : In off (blocks_of pt)).
  { eapply Permutation_in; [exact Hperm | ]. left. reflexivity. }
  apply in_held_offsets in Hin. destruct Hin as (j & Hj).
  pose proof (inv_held L s held I j off Hj) as Hjl.
  destruct (nth_error_lt L j Hjl) as (ptj & Hptj).
  pose proof (inv_held_block L s held j off ptj I Hj Hptj) as Hjb.
  destruct (block_cases L j (Z.to_nat i) ptj pt off off HL Hptj Hpt Hjb Hob)
    as (B1 & B2 & [[Hji _] | Hsep]); [ | lia].
  subst j.
  eapply (NoDup_app_disjoint _ _ off Hnd); [left; reflexivity | ].
  apply In_held_of. exact Hj.
Qed.


(** ** Live pointers *)


(** X2. In every reachable state a non-null result of [pool_malloc(n)]
    points at the payload of a block laid out by [pool_init] whose class
    size is at least [n]; the [n] bytes lie inside the heap; the block is
    not held by any caller; and its header carries the index of its
    class. *)
Theorem malloc_returns_free_block L s0 s held n :
  reach L s0 s held -> fst (pool_malloc s n) <> NULL ->
  exists i pt p,
    nth_error L i = Some pt /\
    malloc_class s n = Some (Z.of_nat i) /\
    fst (pool_malloc s n) = heap_ptr p /\
    In p (blocks_of pt) /\
    n <= pt_bsize pt /\
    METADATA_LENGTH <= p /\ p + n <= HEAP_SIZE /\
    ~ In p (held_offsets held) /\
    get_partition_number (g_pool_heap (snd (pool_malloc s n)))
                         (ptr_add (fst (pool_malloc s n)) (- METADATA_LENGTH))
    = Z.of_nat i.
Proof.
  intros Hr Hnn.
  destruct (reach_inv L s0 s held Hr) as (HL & I & _).
  pose proof (inv_wf L s held I) as Hwf.
  destruct (malloc_class s n) as [i|] eqn:Hcl.
  - pose proof (malloc_class_bounds s n i Hwf Hcl)
      as (Hi & _ & _ & _ & Hfit & _).
    pose proof (malloc_block_fresh L s held n i HL I Hcl) as Hfresh.
    destruct (inv_malloc L s held n i HL I Hcl)
      as (off & l & pt & Hpt & Hoff & Hch & Hrun & I').
    destruct (inv_chain L s held I _ pt Hpt) as (l0 & Hch0 & Hperm).
    rewrite Z2Nat.id in Hch0 by lia. rewrite <- Hoff in Hch0.
    rewrite (chain_fun _ _ _ Hch0 _ Hch) in Hperm.
    assert (Hob : In off (blocks_of pt)).
    { eapply Permutation_in; [exact Hperm | ]. left. reflexivity. }
    destruct (block_in_heap L _ pt off HL Hpt Hob) as (Hlo & Hhi).
    pose proof (inv_sizes L s held I _ pt Hpt) as Hsz.
    rewrite Z2Nat.id in Hsz by lia.
    exists (Z.to_nat i), pt, off. rewrite Z2Nat.id by lia.
    rewrite Hrun. cbn [fst snd].
    split; [exact Hpt | ]. split; [reflexivity | ]. split; [reflexivity | ].
    split; [exact Hob | ]. split; [lia | ]. split; [lia | ].
    split; [lia | ]. split; [rewrite Hoff; exact Hfresh | ].
    cbn [with_heads g_pool_heap].
    change (get_partition_number (g_pool_heap s)
              (ptr_add (heap_ptr off) (- METADATA_LENGTH)))
      with (g_pool_heap s (off - 3 + 2)).
    replace (off - 3 + 2) with (off - 1) by lia.
    pose proof (inv_tag L s held I _ pt off Hpt Hob) as Ht.
    rewrite Z2Nat.id in Ht by lia. exact Ht.
  - exfalso. apply Hnn. rewrite pool_malloc_class by exact Hwf.
    rewrite Hcl. reflexivity.
Qed.

(** X3. [pool_free] does not clear data.  Freeing a held pointer [p] of
    class [i] writes only the two [next_freelist_offset] bytes in front of
    [p]: every payload byte of every block, that of [p] included, and the
    class index in every header keep their values; the head of class [i]
    becomes [p], linked to the previous head; no other class is touched. *)
Theorem free_frame L s0 s held i p :
  reach L s0 s held -> In (i, p) held ->
  let s' := pool_free s (heap_ptr p) in
  (forall x, x <> p - 3 -> x <> p - 2 -> g_pool_heap s' x = g_pool_heap s x) /\
  (forall j ptj q k, nth_error L j = Some ptj -> In q (blocks_of ptj) ->
     0 <= k < pt_bsize ptj ->
     g_pool_heap s' (q + k) = g_pool_heap s (q + k)) /\
  (forall j ptj q, nth_error L j = Some ptj -> In q (blocks_of ptj) ->
     get_partition_number (g_pool_heap s') (heap_ptr (q - METADATA_LENGTH))
     = Z.of_nat j) /\
  aget (freelist_head_arr s') (Z.of_nat i) = p /\
  get_next_freelist_offset (g_pool_heap s') (heap_ptr (p - METADATA_LENGTH))
  = aget (freelist_head_arr s) (Z.of_nat i) /\
  (forall j, 0 <= j -> j <> Z.of_nat i ->
     aget (freelist_head_arr s') j = aget (freelist_head_arr s) j) /\
  sorted_block_size_arr s' = sorted_block_size_arr s /\
  block_size_count_var s' = block_size_count_var s /\
  g_pool_heap_start s' = g_pool_heap_start s.
Proof.
  intros Hr Hin s'.
  destruct (reach_inv L s0 s held Hr) as (HL & I & _).
  destruct (reach_inv L s0 s' (release p held)
              (reach_free L s0 s held i p Hr Hin)) as (_ & I' & _).
  destruct (pool_free_held L s held i p HL I Hin) as (Hfree & Hhd & Hp).
  fold s' in Hfree.
  pose proof (inv_held L s held I i p Hin) as Hi.
  pose proof (lo_len L HL) as HlenL.
  destruct (nth_error_lt L i Hi) as (pt & Hpt).
  pose proof (inv_held_block L s held i p pt I Hin Hpt) as Hpb.
  pose proof (inv_wf L s held I) as (Hlh & _ & _ & _).
  assert (Hheap : forall x, x <> p - 3 -> x <> p - 2 ->
                            g_pool_heap s' x = g_pool_heap s x).
  { intros x H1 H2. rewrite Hfree. cbn [g_pool_heap].
    apply wr16_other; lia. }
  split; [exact Hheap | ]. split; [ | split; [ | split; [ | split]]].
  - intros j ptj q k Hj Hq Hk.
    destruct (block_cases L j i ptj pt q p HL Hj Hpt Hq Hpb)
      as (B1 & B2 & [[-> ->] | Hsep]); apply Hheap; lia.
  - intros j ptj q Hj Hq.
    change (get_partition_number (g_pool_heap s')
              (heap_ptr (q - METADATA_LENGTH)))
      with (g_pool_heap s' (q - 3 + 2)).
    replace (q - 3 + 2) with (q - 1) by lia.
    apply (inv_tag L s' _ I' j ptj q Hj Hq).
  - rewrite Hfree. cbn [freelist_head_arr]. apply aget_aset_same. lia.
  - unfold get_next_freelist_offset, METADATA_LENGTH. rewrite load16_heap.
    rewrite Hfree. cbn [g_pool_heap]. apply rd16_wr16_same. exact Hhd.
  - rewrite Hfree.
    cbn [freelist_head_arr sorted_block_size_arr block_size_count_var
         g_pool_heap_start].
    split; [ | auto]. intros j Hj Hne. apply aget_aset_other; lia.
Qed.

(** X4. In every reachable state the free-list head of a class is 0
    exactly when every block of the class is held; otherwise it is the
    payload offset of a block of that class that no caller holds.  The
    number of held blocks of a class never exceeds its block count. *)
Theorem head_zero_iff_exhausted L s0 s held i pt :
  reach L s0 s held -> nth_error L i = Some pt ->
  let hd := aget (freelist_head_arr s) (Z.of_nat i) in
  (hd = 0 <-> length (held_of i held) = block_count pt) /\
  (length (held_of i held) <= block_count pt)%nat /\
  (hd <> 0 -> In hd (blocks_of pt) /\ ~ In hd (held_offsets held)).
Proof.
  intros Hr Hi hd.
  destruct (reach_inv L s0 s held Hr) as (HL & I & _).
  destruct (inv_free_length L s held i pt HL I Hi) as (l & Hch & Hlen).
  fold hd in Hch.
  pose proof (chain_head_zero _ _ _ Hch) as Hz.
  split; [ | split; [lia | ]].
  - split.
    + intros H0. apply Hz in H0. subst l. cbn [length] in Hlen. lia.
    + intros Hfull. apply Hz. destruct l; [reflexivity | ].
      cbn [length] in Hlen. lia.
  - intros Hne.
    destruct (inv_chain L s held I i pt Hi) as (l' & Hch' & Hperm).
    fold hd in Hch'. rewrite (chain_fun _ _ _ Hch' _ Hch) in Hperm.
    destruct (chain_head_in _ _ _ Hch) as [H0 | Hin]; [contradiction | ].
    assert (Hb : In hd (blocks_of pt)).
    { eapply Permutation_in; [exact Hperm | ].
      apply in_or_app. left. exact Hin. }
    split; [exact Hb | ].
    intros Hheld. apply in_held_offsets in Hheld. destruct Hheld as (j & Hj).
    destruct (nth_error_lt L j (inv_held L s held I j hd Hj)) as (ptj & Hptj).
    pose proof (inv_held_block L s held j hd ptj I Hj Hptj) as Hjb.
    destruct (block_cases L j i ptj pt hd hd HL Hptj Hi Hjb Hb)
      as (B1 & B2 & [[Hji _] | Hsep]); [ | lia].
    subst j.
    assert (Hnd : NoDup (l ++ held_of i held)).
    { eapply Permutation_NoDup; [apply Permutation_sym, Hperm | ].
      apply blocks_of_NoDup. eapply nth_part_ok; eauto. }
    eapply (NoDup_app_disjoint _ _ hd Hnd); [exact Hin | ].
    apply In_held_of. exact Hj.
Qed.

(** ** Round trips *)

Lemma release_fresh i p held :
  ~ In p (held_offsets held) -> release p ((i, p) :: held) = held.
Proof.
  intros Hfresh. unfold release. cbn [filter snd].
  rewrite Z.eqb_refl. cbn [negb].
  induction held as [|[j q] t IH]; cbn [filter snd]; [reflexivity | ].
  unfold held_offsets in *. cbn [map snd] in Hfresh.
  destruct (q =? p) eqn:E.
  - apply Z.eqb_eq in E. subst q. exfalso. apply Hfresh. left. reflexivity.
  - cbn [negb]. f_equal. apply IH. intros H. apply Hfresh. right. exact H.
Qed.

(** X5. Allocating a block and freeing it at once puts the allocator back
    where it was: all free-list heads have their old values, every free
    list visits the same blocks in the same order, the heap differs at most
    in the two link bytes of the block, and the set of held pointers is
    unchanged. *)
Theorem malloc_free_roundtrip L s0 s held n :
  reach L s0 s held -> fst (pool_malloc s n) <> NULL ->
  let p := fst (pool_malloc s n) in
  let s2 := pool_free (snd (pool_malloc s n)) p in
  freelist_head_arr s2 = freelist_head_arr s /\
  sorted_block_size_arr s2 = sorted_block_size_arr s /\
  block_size_count_var s2 = block_size_count_var s /\
  g_pool_heap_start s2 = g_pool_heap_start s /\
  (forall x, x <> p_ofs p - 3 -> x <> p_ofs p - 2 ->
             g_pool_heap s2 x = g_pool_heap s x) /\
  (forall j ptj l, nth_error L j = Some ptj ->
     chain (g_pool_heap s) (aget (freelist_head_arr s) (Z.of_nat j)) l ->
     chain (g_pool_heap s2) (aget (freelist_head_arr s2) (Z.of_nat j)) l) /\
  reach L s0 s2 held.
Proof.
  intros Hr Hnn p s2.
  destruct (reach_inv L s0 s held Hr) as (HL & I & _).
  pose proof (inv_wf L s held I) as Hwf.
  pose proof (lo_len L HL) as HlenL.
  destruct (malloc_class s n) as [i|] eqn:Hcl;
    [ | exfalso; apply Hnn; rewrite pool_malloc_class by exact Hwf;
        rewrite Hcl; reflexivity].
  pose proof (malloc_class_bounds s n i Hwf Hcl) as (Hi & _).
  rewrite (inv_count L s held I) in Hi.
  pose proof (malloc_block_fresh L s held n i HL I Hcl) as Hfresh.
  pose proof (reach_malloc L s0 s held n i Hr Hcl) as Hr1.
  destruct (inv_malloc L s held n i HL I Hcl)
    as (off & l & pt & Hpt & Hoff & Hch & Hrun & I1).
  subst p s2. rewrite Hrun in *. cbn [fst snd p_ofs heap_ptr] in *.
  set (next := rd16 (g_pool_heap s) (off - 3)) in *.
  set (s1 := with_heads s (aset (freelist_head_arr s) i next)) in *.
  assert (Hin1 : In (Z.to_nat i, off) ((Z.to_nat i, off) :: held))
    by (left; reflexivity).
  pose proof (reach_free L s0 s1 _ _ _ Hr1 Hin1) as Hr2.
  rewrite release_fresh in Hr2 by (rewrite Hoff; exact Hfresh).
  destruct (pool_free_held L s1 _ _ off HL I1 Hin1) as (Hfree & Hhd & Hp).
  rewrite Z2Nat.id in Hfree, Hhd by lia.
  destruct Hwf as (Hlh & _ & _ & _).
  assert (Hh1 : aget (freelist_head_arr s1) i = next).
  { unfold s1. cbn [with_heads freelist_head_arr].
    apply aget_aset_same. lia. }
  rewrite Hh1 in Hfree, Hhd.
  assert (Hheads : aset (freelist_head_arr s1) i off = freelist_head_arr s).
  { unfold s1. cbn [with_heads freelist_head_arr].
    rewrite aset_twice, Hoff. apply aset_aget. }
  rewrite Hheads in Hfree.
  rewrite Hfree in *.
  cbn [g_pool_heap freelist_head_arr sorted_block_size_arr
       block_size_count_var g_pool_heap_start s1 with_heads].
  do 4 (split; [reflexivity | ]). split; [ | split; [ | exact Hr2]].
  - intros x H1 H2. apply wr16_other; lia.
  - intros j ptj lj Hj Hlj.
    eapply chain_frame_rd16; [exact Hlj | ].
    intros q Hq.
    assert (Hqb : In q (blocks_of ptj)).
    { destruct (inv_chain L s held I j ptj Hj) as (l' & Hch' & Hperm).
      rewrite (chain_fun _ _ _ Hch' _ Hlj) in Hperm.
      eapply Permutation_in; [exact Hperm | ].
      apply in_or_app. left. exact Hq. }
    assert (Hob : In off (blocks_of pt)).
    { destruct (inv_chain L s held I _ pt Hpt) as (l' & Hch' & Hperm).
      rewrite Z2Nat.id in Hch' by lia. rewrite <- Hoff in Hch'.
      rewrite (chain_fun _ _ _ Hch' _ Hch) in Hperm.
      eapply Permutation_in; [exact Hperm | ]. left. reflexivity. }
    destruct (block_cases L j _ ptj pt q off HL Hj Hpt Hqb Hob)
      as (B1 & B2 & [[_ ->] | Hsep]).
    + apply rd16_wr16_same. exact Hhd.
    + apply rd16_frame; apply wr16_other; lia.
Qed.

(** ** Misuse: freeing a pointer twice *)

(** X6. [pool_free] does not detect a double free.  Freeing a held pointer
    [p] of class [i] twice links the block to itself: the free list of the
    class never reaches its end, and every later [pool_malloc] that selects
    class [i] returns [p] again and leaves the state as it is, so that any
    number of successive allocations receive the same block. *)
Theorem double_free_repeats L s0 s held i p :
  reach L s0 s held -> In (i, p) held ->
  let s2 := pool_free (pool_free s (heap_ptr p)) (heap_ptr p) in
  aget (freelist_head_arr s2) (Z.of_nat i) = p /\
  get_next_freelist_offset (g_pool_heap s2) (heap_ptr (p - METADATA_LENGTH)) = p /\
  (forall l, ~ chain (g_pool_heap s2) p l) /\
  forall m, malloc_class s2 m = Some (Z.of_nat i) ->
    forall k, malloc_n k s2 m = (repeat (heap_ptr p) k, s2).
Proof.
  intros Hr Hin s2.
  destruct (reach_inv L s0 s held Hr) as (HL & I & _).
  pose proof (inv_wf L s held I) as Hwf.
  pose proof (pool_free_wf _ (heap_ptr p)
                (pool_free_wf s (heap_ptr p) Hwf)) as Hwf2.
  fold s2 in Hwf2.
  pose proof (inv_held L s held I i p Hin) as Hi.
  pose proof (lo_len L HL) as HlenL.
  destruct (nth_error_lt L i Hi) as (pt & Hpt).
  pose proof (inv_held_block L s held i p pt I Hin Hpt) as Hpb.
  pose proof (inv_tag L s held I i pt p Hpt Hpb) as Htag.
  destruct (pool_free_held L s held i p HL I Hin) as (Hfree & Hhd & Hp).
  destruct Hwf as (Hlh & _ & _ & _).
  set (h1 := wr16 (g_pool_heap s) (p - 3)
                  (aget (freelist_head_arr s) (Z.of_nat i))) in *.
  set (a1 := aset (freelist_head_arr s) (Z.of_nat i) p) in *.
  assert (Hs2 : s2 = mkState (wr16 h1 (p - 3) p) a1
                             (sorted_block_size_arr s)
                             (block_size_count_var s) (g_pool_heap_start s)).
  { unfold s2. rewrite Hfree.
    rewrite pool_free_heap
      by (cbn [g_pool_heap_start]; apply (inv_base L s held I)).
    cbv zeta.
    cbn [g_pool_heap freelist_head_arr sorted_block_size_arr
         block_size_count_var g_pool_heap_start].
    assert (Ht1 : h1 (p - 1) = Z.of_nat i).
    { unfold h1. rewrite wr16_other by lia. exact Htag. }
    rewrite Ht1, (to_u16_small p) by lia.
    assert (Ha : aget a1 (Z.of_nat i) = p)
      by (unfold a1; apply aget_aset_same; lia).
    rewrite Ha. unfold a1 at 1. rewrite aset_twice. reflexivity. }
  assert (Hhead : aget (freelist_head_arr s2) (Z.of_nat i) = p).
  { rewrite Hs2. cbn [freelist_head_arr]. unfold a1.
    apply aget_aset_same. lia. }
  assert (Hnext : rd16 (g_pool_heap s2) (p - 3) = p).
  { rewrite Hs2. cbn [g_pool_heap]. apply rd16_wr16_same. lia. }
  split; [exact Hhead | ]. split; [exact Hnext | ]. split.
  - apply chain_cyclic; [lia | exact Hnext].
  - intros m Hcl.
    assert (Hone : pool_malloc s2 m = (heap_ptr p, s2)).
    { rewrite pool_malloc_class by exact Hwf2. rewrite Hcl. cbv zeta.
      rewrite Hhead.
      assert (Hb : g_pool_heap_start s2 = heap_ptr 0)
        by (rewrite Hs2; cbn [g_pool_heap_start]; apply (inv_base L s held I)).
      rewrite Hb.
      change (ptr_add (heap_ptr 0) p) with (heap_ptr p).
      change (get_next_freelist_offset (g_pool_heap s2)
                (ptr_add (heap_ptr p) (- METADATA_LENGTH)))
        with (rd16 (g_pool_heap s2) (p - 3)).
      rewrite Hnext. rewrite <- Hhead at 2. rewrite aset_aget.
      f_equal. }
    intros k. induction k as [|k IH]; [reflexivity | ].
    cbn [malloc_n repeat]. rewrite Hone, IH. reflexivity.
Qed.

(** ** Capacity *)

(** X7. In every reachable state, for every request size [n >= 1], exactly
    as many successive [pool_malloc(n)] succeed as there are blocks not
    held in the classes of block size at least [n]; the next one returns
    NULL.  [pool_malloc(n)] returns NULL exactly when that number is 0, and
    once every pointer has been freed the number is again the full block
    count of those classes. *)
Theorem capacity_in_any_state L s0 s held n :
  reach L s0 s held -> 1 <= n ->
  let K := avail_from L 0 held n in
  Forall (fun p => p <> NULL) (fst (malloc_n K s n)) /\
  length (fst (malloc_n K s n)) = K /\
  fst (pool_malloc (snd (malloc_n K s n)) n) = NULL /\
  (fst (pool_malloc s n) = NULL <-> K = 0%nat) /\
  (held = [] -> K = fit_count L n).
Proof.
  intros Hr Hn K.
  destruct (reach_inv L s0 s held Hr) as (HL & I & _).
  destruct (malloc_n_exhaust L n K s held HL I Hn eq_refl) as (H1 & H2 & H3).
  do 3 (split; [assumption | ]). split.
  - unfold K. rewrite <- (malloc_class_avail L s held n HL I Hn).
    rewrite pool_malloc_class by apply (inv_wf L s held I).
    destruct (malloc_class s n) as [i|] eqn:Hcl; cbn [fst].
    + split; [ | discriminate].
      rewrite (inv_base L s held I). intros Hnull. inversion Hnull.
    + split; reflexivity.
  - intros ->. apply avail_from_nil.
Qed.

Lemma block_count_pos pt : part_ok pt -> (1 <= block_count pt)%nat.
Proof.
  intros (_ & _ & _ & Hm & _). unfold block_count. lia.
Qed.

(** X8. Right after a successful [pool_init] every class has a free block:
    [pool_malloc(n)] succeeds exactly for the requests with
    [1 <= n <= sorted_block_size_arr[0]]. *)
Theorem first_malloc_succeeds pre sizes count s0 n :
  wf_state pre -> 0 <= count ->
  (Z.to_nat count <= length sizes)%nat -> Forall size_t sizes ->
  pool_init pre (Some sizes) count = (true, s0) ->
  0 <= n ->
  (fst (pool_malloc s0 n) <> NULL <->
   1 <= n <= aget (sorted_block_size_arr s0) 0) /\
  (forall i, 0 <= i < count -> aget (freelist_head_arr s0) i <> 0).
Proof.
  intros Hwf Hc Hlen Hsz Hrun Hn.
  destruct (pool_init_true pre sizes count Hwf Hc Hlen Hsz)
    as (Hcount & _ & L & Hlay); [rewrite Hrun; reflexivity | ].
  destruct (inv_init pre sizes count L s0 Hwf Hc Hlen Hsz Hrun Hlay)
    as (HL & Hb & I & Hcls).
  pose proof (inv_wf L s0 [] I) as Hwf0.
  split.
  - rewrite pool_malloc_class by exact Hwf0. split.
    + intros Hnn. destruct (malloc_class s0 n) as [i|] eqn:Hcl;
        [ | exfalso; apply Hnn; reflexivity].
      pose proof (malloc_class_bounds s0 n i Hwf0 Hcl) as (_ & H0 & H1 & _).
      lia.
    + intros Hrange.
      destruct (malloc_class s0 n) as [i|] eqn:Hcl.
      * cbv zeta. cbn [fst]. rewrite (inv_base L s0 [] I).
        intros Hnull. inversion Hnull.
      * exfalso.
        apply (malloc_class_avail L s0 [] n HL I ltac:(lia)) in Hcl.
        rewrite avail_from_nil in Hcl.
        pose proof (lo_len L HL) as HlenL.
        destruct L as [|pt0 L']; [cbn in HlenL; lia | ].
        pose proof (inv_sizes _ s0 [] I 0%nat pt0) as Hs.
        cbn [nth_error Z.of_nat] in Hs. specialize (Hs eq_refl).
        pose proof (block_count_pos pt0
                      (nth_part_ok _ 0%nat pt0 HL eq_refl)) as Hpos.
        unfold fit_count in Hcl. cbn [fold_right] in Hcl.
        destruct (n <=? pt_bsize pt0) eqn:E; [lia | ].
        apply Z.leb_gt in E. lia.
  - intros i Hi.
    assert (HlenL : Z.of_nat (length L) = count).
    { rewrite <- (length_map pt_bsize), Hb, classes_of_length by exact Hlen.
      lia. }
    destruct (nth_error_lt L (Z.to_nat i)) as (pt & Hpt); [lia | ].
    destruct (Hcls _ pt Hpt) as (Hh & _).
    rewrite Z2Nat.id in Hh by lia. rewrite Hh.
    pose proof (nth_part_ok L _ pt HL Hpt) as (H0 & _). lia.
Qed.

(** ** Order of allocation *)

Lemma malloc_n_pops L s0 k : forall s held l i pt n,
  reach L s0 s held -> nth_error L i = Some pt ->
  chain (g_pool_heap s) (aget (freelist_head_arr s) (Z.of_nat i)) l ->
  n <> 0 -> n <= pt_bsize pt ->
  (forall j ptj, (i < j)%nat -> nth_error L j = Some ptj -> pt_bsize ptj < n) ->
  (k <= length l)%nat ->
  fst (malloc_n k s n) = map heap_ptr (firstn k l) /\
  chain (g_pool_heap (snd (malloc_n k s n)))
        (aget (freelist_head_arr (snd (malloc_n k s n))) (Z.of_nat i))
        (skipn k l).
Proof.
  induction k as [|k IH]; intros s held l i pt n Hr Hpt Hch Hn0 Hfit Hbest Hk;
    [split; [reflexivity | exact Hch] | ].
  destruct (reach_inv L s0 s held Hr) as (HL & I & _).
  pose proof (inv_wf L s held I) as Hwf.
  pose proof (lo_len L HL) as HlenL.
  assert (Hi : (i < length L)%nat) by (apply nth_error_Some; congruence).
  destruct l as [|off l']; [cbn [length] in Hk; lia | ].
  inversion Hch as [|? ? Hoff Hrest Ho]; subst.
  assert (Hcl : malloc_class s n = Some (Z.of_nat i)).
  { apply malloc_class_iff; [exact Hwf | ].
    rewrite (inv_count L s held I).
    pose proof (inv_sizes L s held I i pt Hpt) as Hsz.
    pose proof (inv_sizes_desc L s held 0 i HL I ltac:(lia) Hi) as Hd.
    cbn [Z.of_nat] in Hd.
    repeat split; try lia.
    intros j Hj. right.
    destruct (nth_error_lt L (Z.to_nat j)) as (ptj & Hptj); [lia | ].
    pose proof (inv_sizes L s held I _ ptj Hptj) as Hsj.
    rewrite Z2Nat.id in Hsj by lia. rewrite Hsj.
    apply (Hbest (Z.to_nat j) ptj); [lia | exact Hptj]. }
  pose proof (reach_malloc L s0 s held n _ Hr Hcl) as Hr1.
  destruct (inv_malloc L s held n _ HL I Hcl)
    as (off' & l0 & pt' & _ & Hoff' & _ & Hrun & _).
  destruct (malloc_n_S k s n) as (Hf & Hs). rewrite Hf, Hs.
  rewrite Hrun in *. cbn [fst snd firstn skipn map] in *. subst off'.
  destruct (Hwf) as (Hlh & _ & _ & _).
  destruct (IH _ _ l' i pt n Hr1 Hpt) as (IH1 & IH2); try assumption;
    [ | cbn [length] in Hk; lia | ].
  - cbn [with_heads g_pool_heap freelist_head_arr].
    rewrite aget_aset_same by lia. exact Hrest.
  - split; [f_equal; exact IH1 | exact IH2].
Qed.

(** X9. Allocation pops the free list from its head.  If class [i] is
    the best fit for [n] (its blocks fit and those of every class of higher
    index are too small) and its free list visits the blocks [l], then [k]
    successive [pool_malloc(n)], for [k] up to the length of [l], return
    the first [k] blocks of [l] in list order and leave the remaining
    blocks of [l] on the free list, in the same order. *)
Theorem malloc_follows_free_list L s0 s held l i pt n k :
  reach L s0 s held -> nth_error L i = Some pt ->
  chain (g_pool_heap s) (aget (freelist_head_arr s) (Z.of_nat i)) l ->
  n <> 0 -> n <= pt_bsize pt ->
  (forall j ptj, (i < j)%nat -> nth_error L j = Some ptj -> pt_bsize ptj < n) ->
  (k <= length l)%nat ->
  fst (malloc_n k s n) = map heap_ptr (firstn k l) /\
  chain (g_pool_heap (snd (malloc_n k s n)))
        (aget (freelist_head_arr (snd (malloc_n k s n))) (Z.of_nat i))
        (skipn k l).
Proof.
  intros Hr Hpt Hch Hn0 Hfit Hbest Hk.
  exact (malloc_n_pops L s0 k s held l i pt n Hr Hpt Hch Hn0 Hfit Hbest Hk).
Qed.

Lemma blocks_from_firstn T k : forall idx m,
  (k <= m)%nat ->
  firstn k (blocks_from idx T m)
  = map (fun j => idx + 3 + Z.of_nat j * T) (seq 0 k).
Proof.
  induction k as [|k IH]; intros idx m Hk; [reflexivity | ].
  destruct m as [|m]; [lia | ].
  cbn [blocks_from firstn seq map]. unfold METADATA_LENGTH. f_equal; [lia | ].
  rewrite IH by lia. rewrite <- seq_shift, map_map.
  apply map_ext. intros j. lia.
Qed.

(** X10. On a freshly initialised pool the blocks of a class are handed
    out in ascending address order, one stride apart: if class [i] is the
    best fit for [n], the [j]-th of the first [k] calls [pool_malloc(n)]
    returns the payload at [start + 3 + j * (size + 3)], for [k] up to the
    number of blocks of the class. *)
Theorem fresh_allocations_ascending pre sizes count s0 L i pt n k :
  wf_state pre -> 0 <= count ->
  (Z.to_nat count <= length sizes)%nat -> Forall size_t sizes ->
  pool_init pre (Some sizes) count = (true, s0) ->
  spec_layout (classes_of sizes count) HEAP_SIZE 0 = Some L ->
  nth_error L i = Some pt ->
  n <> 0 -> n <= pt_bsize pt ->
  (forall j ptj, (i < j)%nat -> nth_error L j = Some ptj -> pt_bsize ptj < n) ->
  (k <= block_count pt)%nat ->
  fst (malloc_n k s0 n)
  = map (fun j => heap_ptr (pt_start pt + METADATA_LENGTH
                            + Z.of_nat j * (pt_bsize pt + METADATA_LENGTH)))
        (seq 0 k).
Proof.
  intros Hwf Hc Hlen Hsz Hrun Hlay Hpt Hn0 Hfit Hbest Hk.
  pose proof (reach_init L s0 pre sizes count Hwf Hc Hlen Hsz Hrun Hlay) as Hr.
  destruct (reach_inv L s0 s0 [] Hr) as (_ & _ & Hcls).
  destruct (Hcls i pt Hpt) as (Hh & Hch & _).
  rewrite <- Hh in Hch.
  destruct (malloc_n_pops L s0 k s0 [] (blocks_of pt) i pt n) as (Hfst & _);
    try assumption; [rewrite blocks_of_length; exact Hk | ].
  rewrite Hfst.
  unfold blocks_of. rewrite blocks_from_firstn by exact Hk.
  rewrite map_map. unfold stride, METADATA_LENGTH. reflexivity.
Qed.

(** ** The comparator *)

Lemma to_int_periodic x k : to_int (x + k * 4294967296) = to_int x.
Proof. unfold to_int. rewrite Z_mod_plus_full. reflexivity. Qed.

(** X11. [qsort_cmp] sees only the low 32 bits of its arguments.  On values
    below [2^31] its sign is that of [b - a], so that it orders larger
    values first; values that differ by a multiple of [2^32] are never told
    apart from one another. *)
Theorem qsort_cmp_low_bits :
  (forall a b, int_range a -> int_range b ->
     qsort_cmp a b = b - a /\
     (qsort_cmp a b < 0 <-> b < a) /\
     (qsort_cmp a b = 0 <-> a = b) /\
     (0 < qsort_cmp a b <-> a < b)) /\
  (forall a b j k,
     qsort_cmp (a + j * 4294967296) (b + k * 4294967296) = qsort_cmp a b) /\
  (forall a k, qsort_cmp a (a + k * 4294967296) = 0).
Proof.
  assert (Hper : forall a b j k,
     qsort_cmp (a + j * 4294967296) (b + k * 4294967296) = qsort_cmp a b).
  { intros a b j k. unfold qsort_cmp. rewrite !to_int_periodic. reflexivity. }
  split; [ | split; [exact Hper | ]].
  - intros a b Ha Hb.
    assert (Heq : qsort_cmp a b = b - a).
    { unfold int_range, qsort_cmp in *.
      rewrite (to_int_small a), (to_int_small b) by assumption.
      destruct (Z_lt_le_dec (b - a) 0).
      - apply to_int_signed. lia.
      - apply to_int_small. lia. }
    rewrite Heq. repeat split; lia.
  - intros a k.
    replace a with (a + 0 * 4294967296) at 1 by lia.
    rewrite Hper. unfold qsort_cmp.
    rewrite Z.sub_diag. reflexivity.
Qed.

(** ** Initialisation *)

(** X12. [pool_init] starts afresh whatever state it is called in: its
    result, the class count, the class sizes, the free-list heads and the
    blocks on every free list are the same for any two prior states.  In
    particular a second initialisation gives all blocks back, whatever was
    allocated before. *)
Theorem init_ignores_prior_state pre1 pre2 sizes count :
  wf_state pre1 -> wf_state pre2 -> 0 <= count ->
  (Z.to_nat count <= length sizes)%nat -> Forall size_t sizes ->
  let r1 := pool_init pre1 (Some sizes) count in
  let r2 := pool_init pre2 (Some sizes) count in
  fst r1 = fst r2 /\
  (fst r1 = true ->
   block_size_count_var (snd r1) = block_size_count_var (snd r2) /\
   forall i, 0 <= i < count ->
     aget (sorted_block_size_arr (snd r1)) i
     = aget (sorted_block_size_arr (snd r2)) i /\
     aget (freelist_head_arr (snd r1)) i = aget (freelist_head_arr (snd r2)) i /\
     forall l,
       chain (g_pool_heap (snd r1)) (aget (freelist_head_arr (snd r1)) i) l <->
       chain (g_pool_heap (snd r2)) (aget (freelist_head_arr (snd r2)) i) l).
Proof.
  intros Hwf1 Hwf2 Hc Hlen Hsz r1 r2.
  assert (Himp : forall pa pb, wf_state pa -> wf_state pb ->
            fst (pool_init pa (Some sizes) count) = true ->
            fst (pool_init pb (Some sizes) count) = true).
  { intros pa pb Ha Hb Hrun.
    destruct (pool_init_true pa sizes count Ha Hc Hlen Hsz Hrun)
      as (Hcount & Hval & L & HL).
    destruct (pool_init_ok pb sizes count L Hb Hcount Hlen Hval HL)
      as (s' & Hrun' & _).
    rewrite Hrun'. reflexivity. }
  assert (Hfst : fst r1 = fst r2).
  { unfold r1, r2.
    destruct (fst (pool_init pre1 (Some sizes) count)) eqn:E1;
      destruct (fst (pool_init pre2 (Some sizes) count)) eqn:E2;
      try reflexivity.
    - rewrite (Himp pre1 pre2 Hwf1 Hwf2 E1) in E2. discriminate.
    - rewrite (Himp pre2 pre1 Hwf2 Hwf1 E2) in E1. discriminate. }
  split; [exact Hfst | ].
  intros H1. assert (H2 : fst r2 = true) by congruence.
  destruct (pool_init_true pre1 sizes count Hwf1 Hc Hlen Hsz H1)
    as (Hcount & Hval & L & HL).
  assert (Hr1 : pool_init pre1 (Some sizes) count = (true, snd r1))
    by (unfold r1; rewrite (surjective_pairing (pool_init pre1 _ _)) at 1;
        fold r1; rewrite H1; reflexivity).
  assert (Hr2 : pool_init pre2 (Some sizes) count = (true, snd r2))
    by (unfold r2; rewrite (surjective_pairing (pool_init pre2 _ _)) at 1;
        fold r2; rewrite H2; reflexivity).
  destruct (inv_init pre1 sizes count L _ Hwf1 Hc Hlen Hsz Hr1 HL)
    as (HLok & Hb & I1 & Hcls1).
  destruct (inv_init pre2 sizes count L _ Hwf2 Hc Hlen Hsz Hr2 HL)
    as (_ & _ & I2 & Hcls2).
  split; [rewrite (inv_count _ _ _ I1), (inv_count _ _ _ I2); reflexivity | ].
  intros i Hi.
  assert (HlenL : Z.of_nat (length L) = count).
  { rewrite <- (length_map pt_bsize), Hb, classes_of_length by exact Hlen.
    lia. }
  destruct (nth_error_lt L (Z.to_nat i)) as (pt & Hpt); [lia | ].
  pose proof (inv_sizes _ _ _ I1 _ pt Hpt) as S1.
  pose proof (inv_sizes _ _ _ I2 _ pt Hpt) as S2.
  destruct (Hcls1 _ pt Hpt) as (Hh1 & Hch1 & _).
  destruct (Hcls2 _ pt Hpt) as (Hh2 & Hch2 & _).
  rewrite Z2Nat.id in * by lia.
  split; [congruence | ]. split; [congruence | ].
  rewrite <- Hh1 in Hch1. rewrite <- Hh2 in Hch2.
  intros l. split; intros Hl.
  - rewrite (chain_fun _ _ _ Hl _ Hch1). exact Hch2.
  - rewrite (chain_fun _ _ _ Hl _ Hch2). exact Hch1.
Qed.

Lemma spec_layout_room M classes : forall remaining cursor,
  Forall (fun s => valid_size s /\ s + 3 <= M) classes ->
  0 <= cursor -> remaining = HEAP_SIZE - cursor ->
  Z.of_nat (length classes) * M <= remaining ->
  exists L, spec_layout classes remaining cursor = Some L.
Proof.
  induction classes as [|c rest IH]; intros remaining cursor Hall Hc Hr Hroom.
  - exists []. reflexivity.
  - pose proof (Forall_inv Hall) as (Hv & HM). cbv beta in Hv, HM.
    pose proof (Forall_inv_tail Hall) as Hrest.
    cbn [spec_layout].
    set (left := Z.of_nat (length (c :: rest))) in *.
    assert (Hleft : left = Z.of_nat (length rest) + 1)
      by (unfold left; cbn [length]; lia).
    unfold spec_partition_bytes.
    set (E := remaining / left). set (T := c + 3).
    unfold valid_size, HEAP_SIZE in *.
    assert (HT : 4 <= T) by (unfold T; lia).
    assert (HM4 : 4 <= M) by lia.
    assert (Hrm : 0 <= remaining) by nia.
    assert (HEM : M <= E).
    { unfold E. apply Z.div_le_lower_bound; lia. }
    assert (HEr : left * E <= remaining).
    { unfold E. apply Z.mul_div_le. lia. }
    pose proof (Z.mod_pos_bound E T ltac:(lia)) as Hmod.
    pose proof (Z.div_mod E T ltac:(lia)) as Hdm.
    assert (Hq : 1 <= E / T).
    { apply Z.div_le_lower_bound; lia. }
    assert (HP : T <= E - E mod T) by nia.
    rewrite Z.max_r by exact HP.
    set (P := E - E mod T) in *.
    assert (HPE : P <= E) by (unfold P; lia).
    destruct (P >? remaining) eqn:Egt; [nia | ].
    destruct (IH (65536 - (cursor + P)) (cursor + P)) as (L' & HL');
      try assumption; try lia; [nia | ].
    rewrite HL'. eexists. reflexivity.
Qed.

(** X13. A sufficient condition for [pool_init] to succeed: with valid
    arguments and sizes, if [count] blocks of the largest stride fit into
    the heap, that is [count * (s + 3) <= HEAP_SIZE] for every size [s] (so
    that every stride is within every equal share), the layout places all
    classes. *)
Theorem init_succeeds_with_room s sizes count :
  wf_state s -> 1 <= count <= MAX_BLOCK_SIZE_COUNT ->
  (Z.to_nat count <= length sizes)%nat ->
  Forall (fun x => 1 <= x /\ count * (x + METADATA_LENGTH) <= HEAP_SIZE)
         (firstn (Z.to_nat count) sizes) ->
  fst (pool_init s (Some sizes) count) = true.
Proof.
  unfold MAX_BLOCK_SIZE_COUNT, METADATA_LENGTH, HEAP_SIZE.
  intros Hwf Hc Hlen Hall.
  set (given := firstn (Z.to_nat count) sizes) in *.
  assert (Hval : Forall valid_size given).
  { eapply Forall_impl; [ | exact Hall]. unfold valid_size, HEAP_SIZE.
    intros a (H1 & H2). nia. }
  assert (Hcl : Forall (fun x => valid_size x /\ x + 3 <= 65536 / count)
                       (classes_of sizes count)).
  { unfold classes_of. fold given.
    eapply Permutation_Forall; [apply Permutation_sym, sort_desc_perm | ].
    rewrite Forall_forall in *. intros x Hx.
    split; [apply Hval; exact Hx | ].
    destruct (Hall x Hx) as (H1 & H2).
    apply Z.div_le_lower_bound; lia. }
  destruct (spec_layout_room (65536 / count) (classes_of sizes count)
                             HEAP_SIZE 0 Hcl) as (L & HL);
    try reflexivity; try lia.
  { rewrite classes_of_length by exact Hlen. rewrite Z2Nat.id by lia.
    unfold HEAP_SIZE. apply Z.mul_div_le. lia. }
  destruct (pool_init_ok s sizes count L Hwf Hc Hlen Hval HL)
    as (s' & Hrun & _).
  rewrite Hrun. reflexivity.
Qed.

(** ** The partitions are tiled by blocks *)

Lemma bytes_before_S (L : list partition) : forall i pt,
  nth_error L i = Some pt ->
  bytes_before L (S i) = bytes_before L i + pt_psize pt.
Proof.
  unfold bytes_before.
  induction L as [|a L IH]; intros i pt Hi.
  - destruct i; discriminate.
  - destruct i as [|i]; cbn [nth_error] in Hi.
    + inversion Hi; subst a. cbn [firstn fold_right]. destruct L; simpl; lia.
    + change (firstn (S (S i)) (a :: L)) with (a :: firstn (S i) L).
      change (firstn (S i) (a :: L)) with (a :: firstn i L).
      cbn [fold_right]. rewrite (IH i pt Hi). lia.
Qed.

Lemma bytes_before_find (L : list partition) :
  Forall (fun pt => 0 < pt_psize pt) L ->
  forall x, 0 <= x < bytes_before L (length L) ->
  exists i pt, nth_error L i = Some pt /\
               bytes_before L i <= x < bytes_before L i + pt_psize pt.
Proof.
  induction L as [|a L IH]; intros Hpos x Hx.
  - unfold bytes_before in Hx. simpl in Hx. lia.
  - pose proof (Forall_inv Hpos) as Ha. cbv beta in Ha.
    pose proof (Forall_inv_tail Hpos) as HL.
    destruct (Z_lt_le_dec x (pt_psize a)) as [Hlt | Hge].
    + exists 0%nat, a. split; [reflexivity | ].
      unfold bytes_before. simpl. lia.
    + destruct (IH HL (x - pt_psize a)) as (i & pt & Hi & Hr).
      { unfold bytes_before in *. cbn [length] in Hx.
        change (firstn (S (length L)) (a :: L))
          with (a :: firstn (length L) L) in Hx.
        cbn [fold_right] in Hx. lia. }
      exists (S i), pt. split; [exact Hi | ].
      unfold bytes_before in *.
      change (firstn (S i) (a :: L)) with (a :: firstn i L).
      cbn [fold_right]. lia.
Qed.

(** X14. After a successful [pool_init] the blocks on the free lists tile
    the partitioned part of the heap: every byte below the end of the last
    partition lies in the header or the payload of exactly one block of
    exactly one class, no block reaches beyond that end, and the bytes left
    over behind the last partition are fewer than one block (header
    included) of the last, smallest class. *)
Theorem blocks_tile_partitions pre sizes count s0 L :
  wf_state pre -> 0 <= count ->
  (Z.to_nat count <= length sizes)%nat -> Forall size_t sizes ->
  pool_init pre (Some sizes) count = (true, s0) ->
  spec_layout (classes_of sizes count) HEAP_SIZE 0 = Some L ->
  let used := bytes_before L (length L) in
  let h := g_pool_heap s0 in
  let head i := aget (freelist_head_arr s0) (Z.of_nat i) in
  let size i := aget (sorted_block_size_arr s0) (Z.of_nat i) in
  let block_at i p x :=
    (i < length L)%nat /\ (exists l, chain h (head i) l /\ In p l) /\
    p - METADATA_LENGTH <= x < p + size i in
  (forall x, 0 <= x < used ->
     exists i p, block_at i p x /\
       forall j q, block_at j q x -> j = i /\ q = p) /\
  (forall i p x, block_at i p x -> 0 <= x < used) /\
  0 <= HEAP_SIZE - used
  < size (length L - 1)%nat + METADATA_LENGTH.
Proof.
  intros Hwf Hc Hlen Hsz Hrun Hlay used h head size block_at.
  destruct (inv_init pre sizes count L s0 Hwf Hc Hlen Hsz Hrun Hlay)
    as (HLok & Hb & I & Hcls).
  pose proof (lo_parts L HLok) as Hparts.
  pose proof (lo_sorted L HLok) as Hsorted.
  pose proof (lo_len L HLok) as HLlen.
  assert (Hblk : forall i p x, block_at i p x ->
            exists pt, nth_error L i = Some pt /\ In p (blocks_of pt) /\
                       p - 3 <= x < p + pt_bsize pt).
  { intros i p x (Hi & (l & Hl & Hp) & Hx).
    destruct (nth_error_lt L i Hi) as (pt & Hpt).
    destruct (Hcls i pt Hpt) as (Hh & Hch & _).
    unfold head, h in Hl. rewrite Hh in Hl.
    rewrite (chain_fun _ _ _ Hl _ Hch) in Hp.
    unfold size in Hx. rewrite (inv_sizes _ _ _ I i pt Hpt) in Hx.
    unfold METADATA_LENGTH in Hx. eauto. }
  assert (Hstart : forall i pt, nth_error L i = Some pt ->
            pt_start pt = bytes_before L i).
  { intros i pt Hpt.
    destruct (spec_layout_nth _ _ _ _ Hlay eq_refl i pt Hpt) as (H1 & _).
    lia. }
  assert (Hend : forall i pt, nth_error L i = Some pt ->
            pt_start pt + pt_psize pt <= used).
  { intros i pt Hpt.
    destruct (nth_error_lt L (length L - 1)) as (pl & Hpl); [lia | ].
    assert (Hu : used = pt_start pl + pt_psize pl).
    { unfold used. replace (length L) with (S (length L - 1)) at 1 by lia.
      rewrite (bytes_before_S L _ pl Hpl), (Hstart _ _ Hpl). reflexivity. }
    destruct (Nat.eq_dec i (length L - 1)) as [-> | Hne].
    - rewrite Hpl in Hpt. inversion Hpt; subst pl. lia.
    - assert (Hlt : (i < length L - 1)%nat).
      { assert (i < length L)%nat
          by (apply nth_error_Some; rewrite Hpt; discriminate).
        lia. }
      pose proof (StronglySorted_nth_error _ _ Hsorted _ _ _ _ Hlt Hpt Hpl)
        as Hbef.
      unfold before in Hbef.
      pose proof (nth_part_ok L _ pl HLok Hpl) as (_ & _ & Hv & Hm & HP).
      unfold valid_size, stride, METADATA_LENGTH in *. nia. }
  split; [ | split].
  - intros x Hx.
    destruct (bytes_before_find L) with (x := x) as (i & pt & Hpt & Hr);
      [ | exact Hx | ].
    { eapply Forall_impl; [ | exact Hparts].
      intros a (_ & _ & Hv & Hm & HP).
      unfold valid_size, stride, METADATA_LENGTH in *. nia. }
    rewrite <- (Hstart i pt Hpt) in Hr.
    pose proof (nth_part_ok L i pt HLok Hpt) as Hok.
    destruct Hok as (Hs0 & Hs1 & Hv & Hm & HP).
    unfold valid_size, HEAP_SIZE in Hv.
    set (T := stride pt) in *.
    assert (HT : T = pt_bsize pt + 3) by reflexivity.
    set (k := (x - pt_start pt) / T).
    pose proof (Z.div_mod (x - pt_start pt) T ltac:(lia)) as Hdm.
    pose proof (Z.mod_pos_bound (x - pt_start pt) T ltac:(lia)) as Hmb.
    fold k in Hdm.
    assert (Hk0 : 0 <= k) by (apply Z.div_pos; lia).
    assert (Hk1 : k < pt_psize pt / T).
    { apply Z.div_lt_upper_bound; [lia | ]. rewrite Z.mul_comm. lia. }
    set (p := pt_start pt + 3 + k * T).
    assert (Hp : In p (blocks_of pt)).
    { unfold blocks_of. apply blocks_from_In. exists k.
      split; [ | reflexivity].
      unfold block_count. fold T. rewrite Z2Nat.id by lia. lia. }
    assert (Hi : (i < length L)%nat)
      by (apply nth_error_Some; rewrite Hpt; discriminate).
    destruct (Hcls i pt Hpt) as (Hh & Hch & _).
    assert (Hin : p - 3 <= x < p + pt_bsize pt) by (unfold p; nia).
    exists i, p. split.
    + split; [exact Hi | ]. split.
      * exists (blocks_of pt). split; [ | exact Hp].
        unfold head, h. rewrite Hh. exact Hch.
      * unfold size. rewrite (inv_sizes _ _ _ I i pt Hpt).
        unfold METADATA_LENGTH. exact Hin.
    + intros j q Hjq.
      destruct (Hblk j q x Hjq) as (pj & Hpj & Hq & Hxq).
      destruct (Nat.eq_dec j i) as [-> | Hji].
      * split; [reflexivity | ].
        destruct (Z.eq_dec q p) as [ | Hqp]; [assumption | exfalso].
        destruct (blocks_separate L Hparts Hsorted i i pj pt q p Hpj Hpt Hq Hp)
          as [H | H]; [right; exact Hqp | | ]; lia.
      * exfalso.
        destruct (blocks_separate L Hparts Hsorted j i pj pt q p Hpj Hpt Hq Hp)
          as [H | H]; [left; exact Hji | | ]; lia.
  - intros i p x Hb3.
    destruct (Hblk i p x Hb3) as (pt & Hpt & Hp & Hx).
    pose proof (nth_part_ok L i pt HLok Hpt) as Hok.
    pose proof (blocks_of_bounds pt p Hok Hp) as Hbd.
    pose proof (Hend i pt Hpt) as He.
    destruct Hok as (Hs0 & _). lia.
  - destruct (nth_error_lt L (length L - 1)) as (pl & Hpl); [lia | ].
    unfold size. rewrite (inv_sizes _ _ _ I _ pl Hpl).
    assert (Hu : used = pt_start pl + pt_psize pl).
    { unfold used. replace (length L) with (S (length L - 1)) at 1 by lia.
      rewrite (bytes_before_S L _ pl Hpl), (Hstart _ _ Hpl). reflexivity. }
    destruct (spec_layout_nth _ _ _ _ Hlay eq_refl _ pl Hpl) as (_ & HP).
    replace (Z.of_nat (length L) - Z.of_nat (length L - 1)) with 1 in HP
      by lia.
    unfold spec_partition_bytes in HP. rewrite Z.div_1_r in HP.
    pose proof (nth_part_ok L _ pl HLok Hpl) as (Hs0 & Hs1 & Hv & Hm & _).
    unfold valid_size, HEAP_SIZE, METADATA_LENGTH in *.
    set (R := 65536 - pt_start pl) in *.
    set (T := pt_bsize pl + 3) in *.
    pose proof (Z.mod_pos_bound R T ltac:(lia)) as Hmb.
    pose proof (Z.div_mod R T ltac:(lia)) as Hdm.
    assert (HTR : T <= R) by lia.
    assert (Hq : 1 <= R / T) by (apply Z.div_le_lower_bound; lia).
    rewrite Z.max_r in HP by nia.
    rewrite Hu. lia.
Qed.

(** ** What [pool_init] writes *)

Lemma write_headers_only_headers m : forall fuel h idx bs i,
  (m <= fuel)%nat -> 0 <= idx ->
  idx + Z.of_nat m * (bs + 3) <= 65536 ->
  1 <= bs <= 65533 -> 0 <= i < 256 ->
  forall x,
    (forall p, In p (blocks_from idx (bs + 3) m) -> ~ (p - 3 <= x < p)) ->
    write_headers fuel h (heap_ptr 0) idx (idx + Z.of_nat m * (bs + 3)) bs i x
    = h x.
Proof.
  induction m as [|m IH]; intros fuel h idx bs i Hf Hidx Hup Hbs Hi x Hx.
  - rewrite write_headers_done by lia. reflexivity.
  - destruct fuel as [|fuel]; [lia | ].
    rewrite write_headers_step by nia.
    replace (idx + Z.of_nat (S m) * (bs + 3))
      with ((idx + (bs + 3)) + Z.of_nat m * (bs + 3)) by lia.
    rewrite IH; try lia.
    + assert (Hn : ~ (idx + 3 - 3 <= x < idx + 3)).
      { apply Hx. cbn [blocks_from]. left. reflexivity. }
      rewrite upd_other by lia. apply wr16_other; lia.
    + intros p Hp. apply Hx. cbn [blocks_from]. right. exact Hp.
Qed.

Lemma init_loop_only_headers classes : forall i remaining start s L,
  firstn (length classes) (skipn i (sorted_block_size_arr s)) = classes ->
  Forall valid_size classes ->
  (i + length classes <= 255)%nat ->
  g_pool_heap_start s = heap_ptr 0 ->
  0 <= start -> remaining = 65536 - start -> start <= 65536 ->
  spec_layout classes remaining start = Some L ->
  forall x,
    (forall pt p, In pt L -> In p (blocks_of pt) -> ~ (p - 3 <= x < p)) ->
    g_pool_heap
      (snd (init_loop (length classes) (Z.of_nat (i + length classes))
                      (Z.of_nat i) remaining start s)) x
    = g_pool_heap s x.
Proof.
  induction classes as [|c rest IH];
    intros i remaining start s L Hcl Hval Hn Hbase Hs Hr Hs' Hlay x Hx.
  - reflexivity.
  - cbn [length] in *.
    apply firstn_skipn_cons in Hcl. destruct Hcl as [Hc Hrest].
    pose proof (Forall_inv Hval) as Hvc.
    pose proof (Forall_inv_tail Hval) as Hvr.
    set (count := Z.of_nat (i + S (length rest))).
    assert (Hleft : count - Z.of_nat i = Z.of_nat (S (length rest)))
      by (unfold count; lia).
    rewrite (init_loop_step _ count (Z.of_nat i) remaining start s c);
      try assumption; try lia;
      [ | unfold aget; rewrite Nat2Z.id; exact Hc].
    cbn [spec_layout length] in Hlay.
    rewrite Hleft.
    set (P := spec_partition_bytes c remaining (Z.of_nat (S (length rest))))
      in *.
    destruct (spec_partition_bytes_multiple c remaining
                (Z.of_nat (S (length rest))))
      as (m & Hm & HP & HPd); try assumption; try lia.
    fold P in HP, HPd.
    destruct (P >? remaining) eqn:E; [discriminate | ].
    unfold HEAP_SIZE in Hlay.
    destruct (spec_layout rest (65536 - (start + P)) (start + P))
      as [L'|] eqn:EL; [ | discriminate].
    inversion Hlay; subst L. clear Hlay.
    assert (HPr : P <= remaining) by lia.
    unfold valid_size, HEAP_SIZE in Hvc.
    set (h2 := write_headers (Z.to_nat P) (g_pool_heap s) (heap_ptr 0) start
                             (start + P) c (Z.of_nat i)).
    set (s2 := with_heap
                 (with_heads s (aset (freelist_head_arr s) (Z.of_nat i)
                                     (start + 3))) h2).
    replace (Z.of_nat i + 1) with (Z.of_nat (S i)) by lia.
    replace count with (Z.of_nat (S i + length rest)) by (unfold count; lia).
    rewrite (IH (S i) (65536 - (start + P)) (start + P) s2 L');
      try assumption; try lia.
    + cbn [s2 g_pool_heap with_heap]. unfold h2.
      assert (Hbl : blocks_of (mkPart start c P)
                    = blocks_from start (c + 3) (Z.to_nat m)).
      { unfold blocks_of, block_count, stride. cbn [pt_psize pt_bsize pt_start].
        unfold METADATA_LENGTH. rewrite HPd. reflexivity. }
      pose proof (write_headers_only_headers (Z.to_nat m) (Z.to_nat P)
                    (g_pool_heap s) start c (Z.of_nat i)) as Hw.
      rewrite Z2Nat.id in Hw by lia. rewrite <- HP in Hw.
      apply Hw; try lia; try (apply Z2Nat.inj_le; nia).
      intros p Hp. apply (Hx (mkPart start c P)); [left; reflexivity | ].
      rewrite Hbl. exact Hp.
    + intros pt p Hpt Hp. apply (Hx pt p); [right; exact Hpt | exact Hp].
Qed.

(** X15. A successful [pool_init] writes into the heap nothing but the
    three header bytes in front of every block: every other byte of the
    heap, in particular every payload byte of every block and every byte
    behind the last partition, keeps the value it had before the call. *)
Theorem init_writes_only_headers pre sizes count s0 L :
  wf_state pre -> 0 <= count ->
  (Z.to_nat count <= length sizes)%nat -> Forall size_t sizes ->
  pool_init pre (Some sizes) count = (true, s0) ->
  spec_layout (classes_of sizes count) HEAP_SIZE 0 = Some L ->
  (forall x,
     (forall i pt p, nth_error L i = Some pt -> In p (blocks_of pt) ->
                     ~ (p - METADATA_LENGTH <= x < p)) ->
     g_pool_heap s0 x = g_pool_heap pre x) /\
  (forall i pt p k, nth_error L i = Some pt -> In p (blocks_of pt) ->
     0 <= k < pt_bsize pt ->
     g_pool_heap s0 (p + k) = g_pool_heap pre (p + k)) /\
  (forall x, bytes_before L (length L) <= x ->
     g_pool_heap s0 x = g_pool_heap pre x).
Proof.
  intros Hwf Hc Hlen Hsz Hrun Hlay.
  destruct (inv_init pre sizes count L s0 Hwf Hc Hlen Hsz Hrun Hlay)
    as (HLok & Hb & I & Hcls).
  pose proof (lo_parts L HLok) as Hparts.
  pose proof (lo_sorted L HLok) as Hsorted.
  pose proof (lo_len L HLok) as HLlen.
  assert (Hrun' : fst (pool_init pre (Some sizes) count) = true)
    by (rewrite Hrun; reflexivity).
  destruct (pool_init_true pre sizes count Hwf Hc Hlen Hsz Hrun')
    as (Hcount & Hval & _).
  assert (Hmain : forall x,
     (forall i pt p, nth_error L i = Some pt -> In p (blocks_of pt) ->
                     ~ (p - METADATA_LENGTH <= x < p)) ->
     g_pool_heap s0 x = g_pool_heap pre x).
  { intros x Hx.
    replace s0 with (snd (pool_init pre (Some sizes) count))
      by (rewrite Hrun; reflexivity).
    clear Hrun Hrun' I Hcls.
    destruct Hwf as (Hh & Hs & Hcv & Hbs).
    unfold pool_init. unfold MAX_BLOCK_SIZE_COUNT in *.
    destruct (count =? 0) eqn:E0; [apply Z.eqb_eq in E0; lia | ].
    destruct (count >? 255) eqn:E1; [lia | ].
    cbn [orb].
    set (k := Z.to_nat count) in *.
    set (s3 := with_sizes _ _).
    assert (Hpre : firstn k (sorted_block_size_arr s3) = classes_of sizes count).
    { unfold s3. cbn [with_sizes sorted_block_size_arr].
      replace count with (Z.of_nat k) at 1 by (unfold k; lia).
      rewrite sorted_prefix by lia.
      unfold classes_of. fold k. apply qsort_int_range.
      eapply Forall_impl; [ | exact Hval].
      intros a. apply valid_size_int_range. }
    assert (Hk : length (classes_of sizes count) = k)
      by (apply classes_of_length; exact Hlen).
    assert (Hv' : Forall valid_size (classes_of sizes count)).
    { eapply Permutation_Forall; [ | exact Hval].
      apply Permutation_sym, sort_desc_perm. }
    pose proof (init_loop_only_headers (classes_of sizes count) 0 HEAP_SIZE 0
                  s3 L) as Hl.
    rewrite Hk in Hl. cbn [Nat.add Z.of_nat skipn] in Hl.
    replace (Z.of_nat k) with count in Hl by (unfold k; lia).
    rewrite Hl; try assumption; try reflexivity; try (unfold k; lia).
    intros pt p Hpt Hp. apply In_nth_error in Hpt.
    destruct Hpt as (i & Hi). apply (Hx i pt p Hi Hp). }
  split; [exact Hmain | ]. split.
  - intros i pt p k Hpt Hp Hk. apply Hmain.
    intros j pj q Hpj Hq. unfold METADATA_LENGTH.
    pose proof (nth_part_ok L j pj HLok Hpj) as (_ & _ & Hvj & _).
    unfold valid_size in Hvj.
    destruct (Nat.eq_dec j i) as [-> | Hji].
    + destruct (Z.eq_dec q p) as [-> | Hqp]; [lia | ].
      assert (pj = pt) by congruence. subst pj.
      destruct (blocks_separate L Hparts Hsorted i i pt pt q p Hpj Hpt Hq Hp)
        as [H | H]; [right; exact Hqp | | ]; lia.
    + destruct (blocks_separate L Hparts Hsorted j i pj pt q p Hpj Hpt Hq Hp)
        as [H | H]; [left; exact Hji | | ]; lia.
  - intros x Hx. apply Hmain.
    intros i pt p Hpt Hp. unfold METADATA_LENGTH.
    pose proof (nth_part_ok L i pt HLok Hpt) as Hok.
    pose proof (blocks_of_bounds pt p Hok Hp) as Hbd.
    destruct (spec_layout_nth _ _ _ _ Hlay eq_refl i pt Hpt) as (Hst & _).
    assert (Hle : bytes_before L (S i) <= bytes_before L (length L)).
    { assert (Hi : (i < length L)%nat)
        by (apply nth_error_Some; rewrite Hpt; discriminate).
      clear - Hi Hparts.
      assert (Hmono : forall n m, (n <= m)%nat ->
                bytes_before L n <= bytes_before L m).
      { assert (Hpos : Forall (fun pt => 0 <= pt_psize pt) L).
        { eapply Forall_impl; [ | exact Hparts].
          intros a (_ & _ & Hv & Hm & HP).
          unfold valid_size, stride, METADATA_LENGTH in *. nia. }
        clear Hi Hparts. unfold bytes_before.
        induction L as [|a L' IH]; intros n m Hnm.
        - rewrite !firstn_nil. lia.
        - pose proof (Forall_inv Hpos) as Ha. cbv beta in Ha.
          pose proof (Forall_inv_tail Hpos) as HL'.
          assert (Hnn : forall n, 0 <= fold_right
                     (fun pt acc => pt_psize pt + acc) 0 (firstn n L')).
          { intros n0. specialize (IH HL' 0%nat n0 ltac:(lia)).
            cbn [firstn fold_right] in IH. exact IH. }
          destruct n as [|n]; destruct m as [|m]; cbn [firstn fold_right];
            try lia.
          + specialize (Hnn m). lia.
          + specialize (IH HL' n m ltac:(lia)). lia. }
      apply Hmono. lia. }
    rewrite (bytes_before_S L i pt Hpt) in Hle.
    destruct Hok as (_ & _ & Hv & _). unfold valid_size in Hv. lia.
Qed.

(** ** Stores by callers *)

(** X16. A caller writing inside the payload of a block it holds cannot
    disturb the allocator: the header of every block and the payload of
    every other block keep their values, every free list visits the same
    blocks, and every [pool_malloc] returns the same pointer and makes the
    same change to the free-list heads as it would have without the
    store. *)
Theorem store_leaves_allocator_intact L s0 s held i p pt k v :
  reach L s0 s held -> In (i, p) held ->
  nth_error L i = Some pt -> 0 <= k < pt_bsize pt ->
  let s' := caller_store s p k v in
  g_pool_heap s' (p + k) = to_u8 v /\
  (forall j ptj q, nth_error L j = Some ptj -> In q (blocks_of ptj) ->
     get_next_freelist_offset (g_pool_heap s') (heap_ptr (q - METADATA_LENGTH))
     = get_next_freelist_offset (g_pool_heap s) (heap_ptr (q - METADATA_LENGTH)) /\
     get_partition_number (g_pool_heap s') (heap_ptr (q - METADATA_LENGTH))
     = get_partition_number (g_pool_heap s) (heap_ptr (q - METADATA_LENGTH)) /\
     (q <> p -> forall k', 0 <= k' < pt_bsize ptj ->
        g_pool_heap s' (q + k') = g_pool_heap s (q + k'))) /\
  (forall j ptj l, nth_error L j = Some ptj ->
     chain (g_pool_heap s) (aget (freelist_head_arr s) (Z.of_nat j)) l ->
     chain (g_pool_heap s') (aget (freelist_head_arr s') (Z.of_nat j)) l) /\
  forall n,
    pool_malloc s' n
    = (fst (pool_malloc s n), caller_store (snd (pool_malloc s n)) p k v).
Proof.
  intros Hr Hin Hpt Hk s'.
  destruct (reach_inv L s0 s held Hr) as (HL & I & _).
  pose proof (inv_wf _ _ _ I) as Hwf.
  pose proof (inv_held_block L s held i p pt I Hin Hpt) as Hp.
  assert (Hhdr : forall j ptj q d, nth_error L j = Some ptj ->
            In q (blocks_of ptj) -> 1 <= d <= 3 ->
            g_pool_heap s' (q - d) = g_pool_heap s (q - d)).
  { intros j ptj q d Hj Hq Hd.
    unfold s', caller_store. cbn [g_pool_heap with_heap].
    apply upd_other.
    destruct (block_cases L i j pt ptj p q HL Hpt Hj Hp Hq)
      as (B1 & B2 & [(_ & Heq) | [H | H]]); lia. }
  assert (Hrd : forall j ptj q, nth_error L j = Some ptj ->
            In q (blocks_of ptj) ->
            rd16 (g_pool_heap s') (q - 3) = rd16 (g_pool_heap s) (q - 3)).
  { intros j ptj q Hj Hq. apply rd16_frame.
    - apply (Hhdr j ptj q 3 Hj Hq). lia.
    - replace (q - 3 + 1) with (q - 2) by lia.
      apply (Hhdr j ptj q 2 Hj Hq). lia. }
  split; [ | split; [ | split]].
  - unfold s', caller_store. cbn [g_pool_heap with_heap]. apply upd_same.
  - intros j ptj q Hj Hq. unfold METADATA_LENGTH. split; [ | split].
    + exact (Hrd j ptj q Hj Hq).
    + change (g_pool_heap s' (q - 3 + 2) = g_pool_heap s (q - 3 + 2)).
      replace (q - 3 + 2) with (q - 1) by lia.
      apply (Hhdr j ptj q 1 Hj Hq). lia.
    + intros Hne k' Hk'.
      unfold s', caller_store. cbn [g_pool_heap with_heap].
      apply upd_other.
      destruct (block_cases L i j pt ptj p q HL Hpt Hj Hp Hq)
        as (B1 & B2 & [(_ & Heq) | [H | H]]); [congruence | lia | lia].
  - intros j ptj l Hj Hch.
    change (freelist_head_arr s') with (freelist_head_arr s).
    apply (chain_frame_rd16 _ _ _ _ Hch).
    intros q Hq. apply (Hrd j ptj q Hj).
    destruct (inv_chain L s held I j ptj Hj) as (l0 & Hch0 & Hperm).
    rewrite (chain_fun _ _ _ Hch _ Hch0) in Hq.
    eapply Permutation_in; [exact Hperm | ].
    apply in_or_app. left. exact Hq.
  - intros n.
    assert (Hwf' : wf_state s') by exact Hwf.
    rewrite (pool_malloc_class s' n Hwf'), (pool_malloc_class s n Hwf).
    change (malloc_class s' n) with (malloc_class s n).
    destruct (malloc_class s n) as [c|] eqn:Hcl; [ | reflexivity].
    cbn [fst snd].
    destruct (inv_malloc L s held n c HL I Hcl)
      as (off & l & ptc & Hptc & Hoff & Hch & _ & _).
    destruct (inv_chain L s held I _ ptc Hptc) as (l0 & Hch0 & Hperm).
    pose proof (malloc_class_bounds s n c Hwf Hcl) as (Hc & _).
    rewrite Z2Nat.id in Hch0 by lia. rewrite <- Hoff in Hch0.
    rewrite (chain_fun _ _ _ Hch0 _ Hch) in Hperm.
    assert (Hob : In off (blocks_of ptc)).
    { eapply Permutation_in; [exact Hperm | ]. left. reflexivity. }
    change (freelist_head_arr s') with (freelist_head_arr s).
    change (g_pool_heap_start s') with (g_pool_heap_start s).
    rewrite (inv_base _ _ _ I). rewrite <- Hoff.
    change (get_next_freelist_offset (g_pool_heap s')
              (ptr_add (ptr_add (heap_ptr 0) off) (- METADATA_LENGTH)))
      with (rd16 (g_pool_heap s') (0 + off + - 3)).
    change (get_next_freelist_offset (g_pool_heap s)
              (ptr_add (ptr_add (heap_ptr 0) off) (- METADATA_LENGTH)))
      with (rd16 (g_pool_heap s) (0 + off + - 3)).
    replace (0 + off + - 3) with (off - 3) by lia.
    rewrite (Hrd _ ptc off Hptc Hob).
    reflexivity.
Qed.

(** * The further properties at concrete inputs *)

Lemma two_malloc_nonnull : fst (pool_malloc two_state 20000) <> NULL.
Proof.
  assert (H : fst (pool_malloc two_state 20000) = heap_ptr 30006)
    by (vm_compute; reflexivity).
  rewrite H. discriminate.
Qed.

Lemma two_nth1 :
  nth_error two_layout 1 = Some (mkPart 30003 20000 20003).
Proof. reflexivity. Qed.

Lemma wf_two_held_state : wf_state two_held_state.
Proof. unfold two_held_state. apply pool_malloc_wf, wf_two_state. Qed.

Lemma uneven_layout_spec :
  spec_layout (classes_of uneven_sizes 2) HEAP_SIZE 0 = Some uneven_layout.
Proof. reflexivity. Qed.

Lemma uneven_length : (Z.to_nat 2 <= length uneven_sizes)%nat.
Proof. cbn. lia. Qed.

Lemma uneven_reach0 : reach uneven_layout uneven_state uneven_state [].
Proof.
  apply (reach_init uneven_layout uneven_state zero_state uneven_sizes 2).
  - apply wf_zero_state.
  - lia.
  - apply uneven_length.
  - apply uneven_size_t.
  - apply uneven_init.
  - apply uneven_layout_spec.
Qed.

Lemma uneven_nth1 : nth_error uneven_layout 1 = Some (mkPart 53363 1 12172).
Proof. reflexivity. Qed.

Lemma uneven_chain1 :
  chain (g_pool_heap uneven_state)
        (aget (freelist_head_arr uneven_state) (Z.of_nat 1))
        (blocks_of (mkPart 53363 1 12172)).
Proof.
  destruct (inv_init zero_state uneven_sizes 2 uneven_layout uneven_state
                     wf_zero_state ltac:(lia) uneven_length uneven_size_t
                     uneven_init uneven_layout_spec) as (_ & _ & _ & Hcls).
  destruct (Hcls 1%nat _ uneven_nth1) as (Hh & Hch & _).
  rewrite Hh. exact Hch.
Qed.

Lemma uneven_last_class j ptj :
  (1 < j)%nat -> nth_error uneven_layout j = Some ptj -> pt_bsize ptj < 1.
Proof.
  intros Hj H. destruct j as [|[|[|j]]]; try lia; discriminate H.
Qed.

Lemma uneven_three_blocks :
  (3 <= length (blocks_of (mkPart 53363 1 12172)))%nat.
Proof. apply Nat.leb_le. vm_compute. reflexivity. Qed.

Lemma uneven_three_count : (3 <= block_count (mkPart 53363 1 12172))%nat.
Proof. apply Nat.leb_le. vm_compute. reflexivity. Qed.

Lemma five_room :
  Forall (fun x => 1 <= x /\ 5 * (x + METADATA_LENGTH) <= HEAP_SIZE)
         (firstn (Z.to_nat 5) five_sizes).
Proof.
  unfold METADATA_LENGTH, HEAP_SIZE.
  change (firstn (Z.to_nat 5) five_sizes) with five_sizes.
  unfold five_sizes. repeat (apply Forall_cons; [lia | ]). apply Forall_nil.
Qed.

Lemma five_count : 1 <= 5 <= MAX_BLOCK_SIZE_COUNT.
Proof. unfold MAX_BLOCK_SIZE_COUNT. lia. Qed.

Lemma five_length : (Z.to_nat 5 <= length five_sizes)%nat.
Proof. cbn. lia. Qed.

Lemma two_length : (Z.to_nat 2 <= length two_sizes)%nat.
Proof. cbn. lia. Qed.


Lemma malloc_returns_free_block_witness :
  reach two_layout two_state two_state [] /\
  fst (pool_malloc two_state 20000) <> NULL /\
  exists i pt p,
    nth_error two_layout i = Some pt /\
    malloc_class two_state 20000 = Some (Z.of_nat i) /\
    fst (pool_malloc two_state 20000) = heap_ptr p /\
    In p (blocks_of pt) /\
    20000 <= pt_bsize pt /\
    METADATA_LENGTH <= p /\ p + 20000 <= HEAP_SIZE /\
    ~ In p (held_offsets []) /\
    get_partition_number
      (g_pool_heap (snd (pool_malloc two_state 20000)))
      (ptr_add (fst (pool_malloc two_state 20000)) (- METADATA_LENGTH))
    = Z.of_nat i.
Proof.
  split; [exact two_reach0 | ]. split; [exact two_malloc_nonnull | ].
  exact (malloc_returns_free_block two_layout two_state two_state [] 20000
                                   two_reach0 two_malloc_nonnull).
Defined.

Lemma free_frame_witness :
  reach two_layout two_state two_held_state two_held /\
  In (1%nat, 30006) two_held /\
  let s := two_held_state in
  let s' := pool_free s (heap_ptr 30006) in
  (forall x, x <> 30006 - 3 -> x <> 30006 - 2 ->
             g_pool_heap s' x = g_pool_heap s x) /\
  (forall j ptj q k, nth_error two_layout j = Some ptj ->
     In q (blocks_of ptj) -> 0 <= k < pt_bsize ptj ->
     g_pool_heap s' (q + k) = g_pool_heap s (q + k)) /\
  (forall j ptj q, nth_error two_layout j = Some ptj -> In q (blocks_of ptj) ->
     get_partition_number (g_pool_heap s') (heap_ptr (q - METADATA_LENGTH))
     = Z.of_nat j) /\
  aget (freelist_head_arr s') (Z.of_nat 1) = 30006 /\
  get_next_freelist_offset (g_pool_heap s')
                           (heap_ptr (30006 - METADATA_LENGTH))
  = aget (freelist_head_arr s) (Z.of_nat 1) /\
  (forall j, 0 <= j -> j <> Z.of_nat 1 ->
     aget (freelist_head_arr s') j = aget (freelist_head_arr s) j) /\
  sorted_block_size_arr s' = sorted_block_size_arr s /\
  block_size_count_var s' = block_size_count_var s /\
  g_pool_heap_start s' = g_pool_heap_start s.
Proof.
  split; [exact two_reach1 | ]. split; [exact two_held_in | ].
  exact (free_frame two_layout two_state two_held_state two_held 1%nat 30006
                    two_reach1 two_held_in).
Defined.

Lemma head_zero_iff_exhausted_witness :
  reach two_layout two_state two_held_state two_held /\
  nth_error two_layout 1 = Some (mkPart 30003 20000 20003) /\
  let pt := mkPart 30003 20000 20003 in
  let hd := aget (freelist_head_arr two_held_state) (Z.of_nat 1) in
  (hd = 0 <-> length (held_of 1 two_held) = block_count pt) /\
  (length (held_of 1 two_held) <= block_count pt)%nat /\
  (hd <> 0 -> In hd (blocks_of pt) /\ ~ In hd (held_offsets two_held)).
Proof.
  split; [exact two_reach1 | ]. split; [exact two_nth1 | ].
  exact (head_zero_iff_exhausted two_layout two_state two_held_state two_held
                                 1%nat _ two_reach1 two_nth1).
Defined.

Lemma malloc_free_roundtrip_witness :
  reach two_layout two_state two_state [] /\
  fst (pool_malloc two_state 20000) <> NULL /\
  let s := two_state in
  let p := fst (pool_malloc s 20000) in
  let s2 := pool_free (snd (pool_malloc s 20000)) p in
  freelist_head_arr s2 = freelist_head_arr s /\
  sorted_block_size_arr s2 = sorted_block_size_arr s /\
  block_size_count_var s2 = block_size_count_var s /\
  g_pool_heap_start s2 = g_pool_heap_start s /\
  (forall x, x <> p_ofs p - 3 -> x <> p_ofs p - 2 ->
             g_pool_heap s2 x = g_pool_heap s x) /\
  (forall j ptj l, nth_error two_layout j = Some ptj ->
     chain (g_pool_heap s) (aget (freelist_head_arr s) (Z.of_nat j)) l ->
     chain (g_pool_heap s2) (aget (freelist_head_arr s2) (Z.of_nat j)) l) /\
  reach two_layout two_state s2 [].
Proof.
  split; [exact two_reach0 | ]. split; [exact two_malloc_nonnull | ].
  exact (malloc_free_roundtrip two_layout two_state two_state [] 20000
                               two_reach0 two_malloc_nonnull).
Defined.

Lemma double_free_repeats_witness :
  reach two_layout two_state two_held_state two_held /\
  In (1%nat, 30006) two_held /\
  let s2 := pool_free (pool_free two_held_state (heap_ptr 30006))
                      (heap_ptr 30006) in
  aget (freelist_head_arr s2) (Z.of_nat 1) = 30006 /\
  get_next_freelist_offset (g_pool_heap s2)
                           (heap_ptr (30006 - METADATA_LENGTH)) = 30006 /\
  (forall l, ~ chain (g_pool_heap s2) 30006 l) /\
  forall m, malloc_class s2 m = Some (Z.of_nat 1) ->
    forall k, malloc_n k s2 m = (repeat (heap_ptr 30006) k, s2).
Proof.
  split; [exact two_reach1 | ]. split; [exact two_held_in | ].
  exact (double_free_repeats two_layout two_state two_held_state two_held
                             1%nat 30006 two_reach1 two_held_in).
Defined.

Lemma capacity_in_any_state_witness :
  reach two_layout two_state two_held_state two_held /\ 1 <= 20000 /\
  let s := two_held_state in
  let K := avail_from two_layout 0 two_held 20000 in
  Forall (fun p => p <> NULL) (fst (malloc_n K s 20000)) /\
  length (fst (malloc_n K s 20000)) = K /\
  fst (pool_malloc (snd (malloc_n K s 20000)) 20000) = NULL /\
  (fst (pool_malloc s 20000) = NULL <-> K = 0%nat) /\
  (two_held = [] -> K = fit_count two_layout 20000).
Proof.
  split; [exact two_reach1 | ]. split; [lia | ].
  apply (capacity_in_any_state two_layout two_state two_held_state two_held
                               20000 two_reach1).
  lia.
Defined.

Lemma first_malloc_succeeds_witness :
  wf_state zero_state /\ 0 <= 2 /\
  (Z.to_nat 2 <= length two_sizes)%nat /\ Forall size_t two_sizes /\
  pool_init zero_state (Some two_sizes) 2 = (true, two_state) /\
  0 <= 20000 /\
  (fst (pool_malloc two_state 20000) <> NULL <->
   1 <= 20000 <= aget (sorted_block_size_arr two_state) 0) /\
  (forall i, 0 <= i < 2 -> aget (freelist_head_arr two_state) i <> 0).
Proof.
  split; [exact wf_zero_state | ]. split; [lia | ].
  split; [exact two_length | ]. split; [exact two_sizes_size_t | ].
  split; [exact two_init | ]. split; [lia | ].
  apply (first_malloc_succeeds zero_state two_sizes 2 two_state 20000
                               wf_zero_state);
    [lia | exact two_length | exact two_sizes_size_t | exact two_init | lia].
Defined.

Lemma malloc_follows_free_list_witness :
  let pt := mkPart 53363 1 12172 in
  reach uneven_layout uneven_state uneven_state [] /\
  nth_error uneven_layout 1 = Some pt /\
  chain (g_pool_heap uneven_state)
        (aget (freelist_head_arr uneven_state) (Z.of_nat 1)) (blocks_of pt) /\
  1 <> 0 /\ 1 <= pt_bsize pt /\
  (forall j ptj, (1 < j)%nat -> nth_error uneven_layout j = Some ptj ->
                 pt_bsize ptj < 1) /\
  (3 <= length (blocks_of pt))%nat /\
  fst (malloc_n 3 uneven_state 1) = map heap_ptr (firstn 3 (blocks_of pt)) /\
  chain (g_pool_heap (snd (malloc_n 3 uneven_state 1)))
        (aget (freelist_head_arr (snd (malloc_n 3 uneven_state 1)))
              (Z.of_nat 1))
        (skipn 3 (blocks_of pt)).
Proof.
  split; [exact uneven_reach0 | ]. split; [exact uneven_nth1 | ].
  split; [exact uneven_chain1 | ]. split; [lia | ].
  split; [cbn; lia | ]. split; [exact uneven_last_class | ].
  split; [exact uneven_three_blocks | ].
  apply (malloc_follows_free_list uneven_layout uneven_state uneven_state []
           (blocks_of (mkPart 53363 1 12172)) 1%nat (mkPart 53363 1 12172) 1
           3 uneven_reach0 uneven_nth1 uneven_chain1);
    [lia | cbn; lia | exact uneven_last_class | exact uneven_three_blocks].
Defined.

Lemma fresh_allocations_ascending_witness :
  let pt := mkPart 53363 1 12172 in
  wf_state zero_state /\ 0 <= 2 /\
  (Z.to_nat 2 <= length uneven_sizes)%nat /\ Forall size_t uneven_sizes /\
  pool_init zero_state (Some uneven_sizes) 2 = (true, uneven_state) /\
  spec_layout (classes_of uneven_sizes 2) HEAP_SIZE 0 = Some uneven_layout /\
  nth_error uneven_layout 1 = Some pt /\
  1 <> 0 /\ 1 <= pt_bsize pt /\
  (forall j ptj, (1 < j)%nat -> nth_error uneven_layout j = Some ptj ->
                 pt_bsize ptj < 1) /\
  (3 <= block_count pt)%nat /\
  fst (malloc_n 3 uneven_state 1)
  = map (fun j => heap_ptr (pt_start pt + METADATA_LENGTH
                            + Z.of_nat j * (pt_bsize pt + METADATA_LENGTH)))
        (seq 0 3).
Proof.
  split; [exact wf_zero_state | ]. split; [lia | ].
  split; [exact uneven_length | ]. split; [exact uneven_size_t | ].
  split; [exact uneven_init | ]. split; [exact uneven_layout_spec | ].
  split; [exact uneven_nth1 | ]. split; [lia | ].
  split; [cbn; lia | ]. split; [exact uneven_last_class | ].
  split; [exact uneven_three_count | ].
  apply (fresh_allocations_ascending zero_state uneven_sizes 2 uneven_state
           uneven_layout 1%nat (mkPart 53363 1 12172) 1 3 wf_zero_state);
    [lia | exact uneven_length | exact uneven_size_t | exact uneven_init
     | exact uneven_layout_spec | exact uneven_nth1 | lia | cbn; lia
     | exact uneven_last_class | exact uneven_three_count].
Defined.

Lemma qsort_cmp_low_bits_witness :
  int_range 34 /\ int_range 105 /\
  qsort_cmp 34 105 = 105 - 34 /\
  (qsort_cmp 34 105 < 0 <-> 105 < 34) /\
  (qsort_cmp 34 105 = 0 <-> 34 = 105) /\
  (0 < qsort_cmp 34 105 <-> 34 < 105).
Proof.
  assert (H1 : int_range 34) by (unfold int_range; lia).
  assert (H2 : int_range 105) by (unfold int_range; lia).
  split; [exact H1 | ]. split; [exact H2 | ].
  exact (proj1 qsort_cmp_low_bits 34 105 H1 H2).
Defined.

Lemma init_ignores_prior_state_witness :
  wf_state zero_state /\ wf_state two_held_state /\ 0 <= 2 /\
  (Z.to_nat 2 <= length two_sizes)%nat /\ Forall size_t two_sizes /\
  let r1 := pool_init zero_state (Some two_sizes) 2 in
  let r2 := pool_init two_held_state (Some two_sizes) 2 in
  fst r1 = fst r2 /\
  (fst r1 = true ->
   block_size_count_var (snd r1) = block_size_count_var (snd r2) /\
   forall i, 0 <= i < 2 ->
     aget (sorted_block_size_arr (snd r1)) i
     = aget (sorted_block_size_arr (snd r2)) i /\
     aget (freelist_head_arr (snd r1)) i = aget (freelist_head_arr (snd r2)) i /\
     forall l,
       chain (g_pool_heap (snd r1)) (aget (freelist_head_arr (snd r1)) i) l <->
       chain (g_pool_heap (snd r2)) (aget (freelist_head_arr (snd r2)) i) l).
Proof.
  split; [exact wf_zero_state | ]. split; [exact wf_two_held_state | ].
  split; [lia | ]. split; [exact two_length | ].
  split; [exact two_sizes_size_t | ].
  apply (init_ignores_prior_state zero_state two_held_state two_sizes 2
                                  wf_zero_state wf_two_held_state);
    [lia | exact two_length | exact two_sizes_size_t].
Defined.

Lemma init_succeeds_with_room_witness :
  wf_state zero_state /\ 1 <= 5 <= MAX_BLOCK_SIZE_COUNT /\
  (Z.to_nat 5 <= length five_sizes)%nat /\
  Forall (fun x => 1 <= x /\ 5 * (x + METADATA_LENGTH) <= HEAP_SIZE)
         (firstn (Z.to_nat 5) five_sizes) /\
  fst (pool_init zero_state (Some five_sizes) 5) = true.
Proof.
  split; [exact wf_zero_state | ]. split; [exact five_count | ].
  split; [exact five_length | ]. split; [exact five_room | ].
  exact (init_succeeds_with_room zero_state five_sizes 5 wf_zero_state
                                 five_count five_length five_room).
Defined.

Lemma blocks_tile_partitions_witness :
  wf_state zero_state /\ 0 <= 2 /\
  (Z.to_nat 2 <= length uneven_sizes)%nat /\ Forall size_t uneven_sizes /\
  pool_init zero_state (Some uneven_sizes) 2 = (true, uneven_state) /\
  spec_layout (classes_of uneven_sizes 2) HEAP_SIZE 0 = Some uneven_layout /\
  let L := uneven_layout in
  let used := bytes_before L (length L) in
  let h := g_pool_heap uneven_state in
  let head i := aget (freelist_head_arr uneven_state) (Z.of_nat i) in
  let size i := aget (sorted_block_size_arr uneven_state) (Z.of_nat i) in
  let block_at i p x :=
    (i < length L)%nat /\ (exists l, chain h (head i) l /\ In p l) /\
    p - METADATA_LENGTH <= x < p + size i in
  (forall x, 0 <= x < used ->
     exists i p, block_at i p x /\
       forall j q, block_at j q x -> j = i /\ q = p) /\
  (forall i p x, block_at i p x -> 0 <= x < used) /\
  0 <= HEAP_SIZE - used
  < size (length L - 1)%nat + METADATA_LENGTH.
Proof.
  split; [exact wf_zero_state | ]. split; [lia | ].
  split; [exact uneven_length | ]. split; [exact uneven_size_t | ].
  split; [exact uneven_init | ]. split; [exact uneven_layout_spec | ].
  apply (blocks_tile_partitions zero_state uneven_sizes 2 uneven_state
                                uneven_layout wf_zero_state);
    [lia | exact uneven_length | exact uneven_size_t | exact uneven_init
     | exact uneven_layout_spec].
Defined.

Lemma init_writes_only_headers_witness :
  wf_state zero_state /\ 0 <= 2 /\
  (Z.to_nat 2 <= length uneven_sizes)%nat /\ Forall size_t uneven_sizes /\
  pool_init zero_state (Some uneven_sizes) 2 = (true, uneven_state) /\
  spec_layout (classes_of uneven_sizes 2) HEAP_SIZE 0 = Some uneven_layout /\
  let L := uneven_layout in
  (forall x,
     (forall i pt p, nth_error L i = Some pt -> In p (blocks_of pt) ->
                     ~ (p - METADATA_LENGTH <= x < p)) ->
     g_pool_heap uneven_state x = g_pool_heap zero_state x) /\
  (forall i pt p k, nth_error L i = Some pt -> In p (blocks_of pt) ->
     0 <= k < pt_bsize pt ->
     g_pool_heap uneven_state (p + k) = g_pool_heap zero_state (p + k)) /\
  (forall x, bytes_before L (length L) <= x ->
     g_pool_heap uneven_state x = g_pool_heap zero_state x).
Proof.
  split; [exact wf_zero_state | ]. split; [lia | ].
  split; [exact uneven_length | ]. split; [exact uneven_size_t | ].
  split; [exact uneven_init | ]. split; [exact uneven_layout_spec | ].
  apply (init_writes_only_headers zero_state uneven_sizes 2 uneven_state
                                  uneven_layout wf_zero_state);
    [lia | exact uneven_length | exact uneven_size_t | exact uneven_init
     | exact uneven_layout_spec].
Defined.

Lemma two_in_payload : 0 <= 7 < pt_bsize (mkPart 30003 20000 20003).
Proof. cbn. lia. Qed.

Lemma store_leaves_allocator_intact_witness :
  reach two_layout two_state two_held_state two_held /\
  In (1%nat, 30006) two_held /\
  nth_error two_layout 1 = Some (mkPart 30003 20000 20003) /\
  0 <= 7 < pt_bsize (mkPart 30003 20000 20003) /\
  let s := two_held_state in
  let s' := caller_store s 30006 7 255 in
  g_pool_heap s' (30006 + 7) = to_u8 255 /\
  (forall j ptj q, nth_error two_layout j = Some ptj -> In q (blocks_of ptj) ->
     get_next_freelist_offset (g_pool_heap s') (heap_ptr (q - METADATA_LENGTH))
     = get_next_freelist_offset (g_pool_heap s) (heap_ptr (q - METADATA_LENGTH)) /\
     get_partition_number (g_pool_heap s') (heap_ptr (q - METADATA_LENGTH))
     = get_partition_number (g_pool_heap s) (heap_ptr (q - METADATA_LENGTH)) /\
     (q <> 30006 -> forall k', 0 <= k' < pt_bsize ptj ->
        g_pool_heap s' (q + k') = g_pool_heap s (q + k'))) /\
  (forall j ptj l, nth_error two_layout j = Some ptj ->
     chain (g_pool_heap s) (aget (freelist_head_arr s) (Z.of_nat j)) l ->
     chain (g_pool_heap s') (aget (freelist_head_arr s') (Z.of_nat j)) l) /\
  forall n,
    pool_malloc s' n
    = (fst (pool_malloc s n),
       caller_store (snd (pool_malloc s n)) 30006 7 255).
Proof.
  split; [exact two_reach1 | ]. split; [exact two_held_in | ].
  split; [exact two_nth1 | ]. split; [exact two_in_payload | ].
  exact (store_leaves_allocator_intact two_layout two_state two_held_state
           two_held 1%nat 30006 _ 7 255 two_reach1 two_held_in two_nth1
           two_in_payload).
Defined.
